(** * Pipeline inspection data: record splitter, clock codec and the
      defect correlation engine

    A shallow embedding of [utils.py], [data_processing.py] and the function
    [compare_defects] of [multi_year_analysis.py], with the properties of
    the specification proved (or refuted) on it.

    Modelling conventions.
    - A Python [float] is a rational number or [NaN]. An arithmetic
      operation gives the exact result rounded by [rnd], the rounding of
      the number format: the properties are proved for every rounding, or
      for every rounding with the laws of [Faithful], which the rounding of
      binary64 to the nearest double, [binary64], has. [NaN] propagates
      through arithmetic and makes every comparison false. The infinities
      are outside the model, and so are the integers beyond [2^53]: an
      integer that meets a float is converted without rounding.
    - A pandas [DataFrame] is its column list and its rows in positional
      order; every row carries its index label and maps column names to
      cell values.
    - A [DataFrame] is a mutable object: the engine works on a store of
      frames addressed by object identity, so that copies and in-place
      column assignment are visible.
    - A raised exception is a value of [exn] returned on the left. *)

From Stdlib Require Import QArith Qpower Qround Qabs Lqa ZArith Lia.
From Stdlib Require Import DecimalString Ascii String.
From stdpp Require Import gmap strings list fin_maps sorting.

Local Open Scope Z_scope.

(** ** Numbers *)

Module Float.

Inductive pyfloat : Type :=
| NaN
| Fin (q : Q).

(** The rounding of the number format: what the format keeps of the exact
    result of an operation. *)
Class Rounding : Type := rnd : Q -> Q.

(** The laws of a rounding to the nearest number of a binary format with
    53 digits: it keeps the order and the sign, it leaves its own results
    and the integers up to [2^53] as they are, and up to 2048 it moves a
    number by at most [2^-43], half the distance of two doubles below
    2048. *)
Class Faithful (R : Rounding) : Prop := {
  rnd_proper : forall x y : Q, (x == y)%Q -> (rnd x == rnd y)%Q;
  rnd_mono : forall x y : Q, (x <= y)%Q -> (rnd x <= rnd y)%Q;
  rnd_odd : forall x : Q, (rnd (- x) == - rnd x)%Q;
  rnd_idem : forall x : Q, (rnd (rnd x) == rnd x)%Q;
  rnd_int : forall z : Z, Z.abs z <= 2 ^ 53 -> (rnd (inject_Z z) == inject_Z z)%Q;
  rnd_near : forall x : Q,
    (Qabs x <= 2048)%Q -> (Qabs (rnd x - x) <= 1 # 2 ^ 43)%Q
}.

(** Arithmetic without rounding. *)
Definition exact_arithmetic : Rounding := fun x => x.

(** [round(x)]: to the nearest integer, a tie to the even one. *)
Definition round_half_even (q : Q) : Z :=
  let f := Qfloor q in
  let r := (q - inject_Z f)%Q in
  match (r ?= 1 # 2)%Q with
  | Lt => f
  | Gt => f + 1
  | Eq => if Z.even f then f else f + 1
  end.

(** Binary64: 53 binary digits, the least exponent -1074 of the last
    digit, a tie rounded to the even last digit. [exponent q] is the [e]
    with [2^e <= q < 2^(e+1)] for a positive [q]. *)
Definition pow2 (e : Z) : Q := (2 ^ e)%Q.

Definition exponent (q : Q) : Z :=
  let e := Z.log2 (Qnum q) - Z.log2 (Zpos (Qden q)) in
  if Qle_bool (pow2 e) q then e else e - 1.

(** The exponent of the last digit kept of a positive number. *)
Definition last_digit (q : Q) : Z := Z.max (exponent q - 52) (-1074).

Definition round_pos (q : Q) : Q :=
  let u := last_digit q in
  (inject_Z (round_half_even (q / pow2 u)) * pow2 u)%Q.

Definition round64 (q : Q) : Q :=
  match Qnum q with
  | Z0 => 0%Q
  | Zpos _ => round_pos q
  | Zneg _ => (- round_pos (- q))%Q
  end.

Definition binary64 : Rounding := round64.

Section Arithmetic.

Context {R : Rounding}.

Definition rounded (f : Q -> Q -> Q) (x y : pyfloat) : pyfloat :=
  match x, y with
  | Fin a, Fin b => Fin (rnd (f a b))
  | _, _ => NaN
  end.

Definition fadd := rounded Qplus.
Definition fsub := rounded Qminus.
Definition fmul := rounded Qmult.
(** Every division of the modelled code has the divisor [100], [2], [60],
    a positive count or a positive year difference. *)
Definition fdiv := rounded Qdiv.

End Arithmetic.

Definition fabs (x : pyfloat) : pyfloat :=
  match x with
  | Fin a => Fin (Qabs a)
  | NaN => NaN
  end.

Definition of_Z (z : Z) : pyfloat := Fin (inject_Z z).

Definition isnan (x : pyfloat) : bool :=
  match x with NaN => true | Fin _ => false end.

(** [x <= y], [x < y], [x == y]: false as soon as one side is [NaN]. *)
Definition fle (x y : pyfloat) : bool :=
  match x, y with
  | Fin a, Fin b => Qle_bool a b
  | _, _ => false
  end.

Definition flt (x y : pyfloat) : bool :=
  match x, y with
  | Fin a, Fin b => negb (Qle_bool b a)
  | _, _ => false
  end.

Definition feq (x y : pyfloat) : bool :=
  match x, y with
  | Fin a, Fin b => Qeq_bool a b
  | _, _ => false
  end.

(** The same number, or [NaN] on both sides: equality of results up to
    the representation of a rational. *)
Definition same (x y : pyfloat) : Prop :=
  match x, y with
  | Fin a, Fin b => (a == b)%Q
  | NaN, NaN => True
  | _, _ => False
  end.

(** [int(x)]: truncation toward zero. *)
Definition trunc (q : Q) : Z :=
  if Qle_bool 0 q then Qfloor q else Qceiling q.

(** The quotient and the remainder of the mathematical floor division, for
    a positive divisor. *)
Definition floordiv (x y : Q) : Q := inject_Z (Qfloor (x / y)).

(** C's [fmod]: the remainder of the division truncated toward zero. It is
    a number of the format and is not rounded. *)
Definition fmod (x y : Q) : Q := (x - y * inject_Z (trunc (x / y)))%Q.

Section Division.

Context {R : Rounding}.

(** [x // y] and [x % y] on floats as CPython computes them
    ([float_floor_div] and [float_rem]), for a positive divisor [wx]: the
    remainder of [fmod] is moved to the sign of the divisor, and the
    quotient [(vx - rem) / wx] is snapped to an integer. *)
Definition py_floordiv (vx wx : Q) : Q :=
  let rem := fmod vx wx in
  let quo := rnd (rnd (vx - rem) / wx) in
  let quo :=
    if negb (Qeq_bool rem 0) && negb (Qle_bool 0 rem) then rnd (quo - 1)
    else quo in
  if Qeq_bool quo 0 then 0%Q
  else
    let floored := inject_Z (Qfloor quo) in
    if negb (Qle_bool (rnd (quo - floored)) (1 # 2)) then rnd (floored + 1)
    else floored.

Definition py_mod (vx wx : Q) : Q :=
  let rem := fmod vx wx in
  if negb (Qeq_bool rem 0) && negb (Qle_bool 0 rem) then rnd (rem + wx)
  else rem.

End Division.

End Float.
Export Float.

(** ** Python values and exceptions *)

Inductive pyval : Type :=
| PyNone
| PyFloat (x : pyfloat)
| PyInt (z : Z)
| PyStr (s : string).

Inductive exn : Type :=
| ValueError (msg : string)
| TypeError
| KeyError (key : string)
| ReferenceError.

(** [pd.isna] on a scalar. *)
Definition isna (v : pyval) : bool :=
  match v with
  | PyNone | PyFloat NaN => true
  | _ => false
  end.

Definition notna (v : pyval) : bool := negb (isna v).

(** A number: a float, [NaN] included, or an integer. *)
Definition is_number (v : pyval) : bool :=
  match v with
  | PyFloat _ | PyInt _ => true
  | _ => false
  end.

Definition is_text (v : pyval) : bool :=
  match v with
  | PyStr _ => true
  | _ => false
  end.

(** The number held by a cell of a numeric column; an integer is read as
    the float of the same value. Where the code computes with a cell that
    may hold something else, the model asks [is_number] first. *)
Definition as_float (v : pyval) : pyfloat :=
  match v with
  | PyFloat x => x
  | PyInt z => of_Z z
  | _ => NaN
  end.

(** [str(z)] and [f"{z:02d}"] for an integer. *)
Definition str_of_int (z : Z) : string := NilZero.string_of_int (Z.to_int z).

Definition format_02d (z : Z) : string :=
  if (0 <=? z) && (z <? 10) then "0" +:+ str_of_int z else str_of_int z.

(** [str.isspace] on the ASCII range. *)
Definition is_space (a : ascii) : bool :=
  let n := nat_of_ascii a in
  ((9 <=? n) && (n <=? 13) || (28 <=? n) && (n <=? 32))%nat.

Definition upper_ascii (a : ascii) : ascii :=
  let n := nat_of_ascii a in
  if ((97 <=? n) && (n <=? 122))%nat then ascii_of_nat (n - 32) else a.

(** [s.upper()] and [s.strip()], ASCII. *)
Fixpoint upper (s : string) : string :=
  match s with
  | EmptyString => EmptyString
  | String a r => String (upper_ascii a) (upper r)
  end.

Fixpoint lstrip (s : string) : string :=
  match s with
  | EmptyString => EmptyString
  | String a r => if is_space a then lstrip r else s
  end.

Definition strip (s : string) : string :=
  String.rev (lstrip (String.rev (lstrip s))).

(** [s.split(sep)] for a one-character separator. *)
Fixpoint split_go (sep : ascii) (cur : string) (s : string) : list string :=
  match s with
  | EmptyString => [String.rev cur]
  | String a r =>
      if Ascii.eqb a sep then String.rev cur :: split_go sep EmptyString r
      else split_go sep (String a cur) r
  end.

Definition split (sep : ascii) (s : string) : list string :=
  split_go sep EmptyString s.

(** [int(s)] on a string: surrounding white space, an optional sign, then
    decimal digits with single underscores between them. [None] stands for
    the [ValueError] of a text that is not an integer. *)
Fixpoint int_digits (s : string) (acc : Z) (after_digit : bool) : option Z :=
  match s with
  | EmptyString => if after_digit then Some acc else None
  | String a r =>
      match Ascii.is_nat a with
      | Some d => int_digits r (acc * 10 + Z.of_nat d) true
      | None =>
          if Ascii.eqb a "_" && after_digit then int_digits r acc false
          else None
      end
  end.

Definition py_int (s : string) : option Z :=
  match strip s with
  | String "-" r => Z.opp <$> int_digits r 0 false
  | String "+" r => int_digits r 0 false
  | r => int_digits r 0 false
  end.

(** ** [utils.py] *)

Module Utils.

Section Clock.

Context {R : Rounding}.

(** [float_to_clock]: a fraction of a day to ["HH:MM"]. A string argument
    fails at [total_minutes // 60]. *)
Definition float_to_clock (time_float : pyval) : exn + pyval :=
  if isna time_float then inr PyNone
  else
    match time_float with
    | PyStr _ => inl TypeError
    | _ =>
        match as_float time_float with
        | NaN => inr PyNone
        | Fin x =>
            let total_minutes := rnd (rnd (x * 24) * 60) in
            let hours := trunc (py_floordiv total_minutes 60) in
            let minutes := round_half_even (py_mod total_minutes 60) in
            inr (PyStr (format_02d hours +:+ ":" +:+ format_02d minutes))
        end
    end.

(** [parse_clock]: every exception of the body (no [split] method on the
    argument, not two fields, a field that is not an integer) is caught
    and answered by [np.nan]. *)
Definition parse_clock (clock_str : pyval) : pyval :=
  match clock_str with
  | PyStr s =>
      match py_int <$> split ":" s with
      | [Some hours; Some minutes] =>
          PyFloat (fadd (of_Z hours) (fdiv (of_Z minutes) (of_Z 60)))
      | _ => PyFloat NaN
      end
  | _ => PyFloat NaN
  end.

(** The value after the range adjustment of [decimal_to_clock_str]. *)
Definition adjust (decimal_hours : Q) : Q :=
  if negb (Qle_bool 1 decimal_hours) then rnd (decimal_hours + 12)
  else if negb (Qle_bool decimal_hours 12) then
    let m := py_mod decimal_hours 12 in
    if Qeq_bool m 0 then 12%Q else m
  else decimal_hours.

Definition decimal_to_clock_str (decimal_hours : pyval) : exn + pyval :=
  if isna decimal_hours then inr (PyStr "Unknown")
  else
    match decimal_hours with
    | PyStr _ => inl TypeError
    | _ =>
        match as_float decimal_hours with
        | NaN => inr (PyStr "Unknown")
        | Fin x =>
            let d := adjust x in
            let hours := trunc d in
            let minutes := trunc (rnd (rnd (d - inject_Z hours) * 60)) in
            inr (PyStr (str_of_int hours +:+ ":" +:+ format_02d minutes))
        end
    end.

End Clock.

Definition int_synonyms : list string :=
  ["INT"; "I"; "INTERNAL"; "YES"; "INTERNE"]%string.
Definition non_int_synonyms : list string :=
  ["NON-INT"; "E"; "EXTERNAL"; "NO"; "NON INT"; "EXTERNE"]%string.

(** [standardize_surface_location]: [str(value)] of a number is never one
    of the synonyms, so a number that is not null is returned as is. *)
Definition standardize_surface_location (value : pyval) : pyval :=
  if isna value then PyNone
  else
    match value with
    | PyStr s =>
        let value_str := upper (strip s) in
        if bool_decide (value_str ∈ int_synonyms) then PyStr "INT"
        else if bool_decide (value_str ∈ non_int_synonyms) then PyStr "NON-INT"
        else value
    | _ => value
    end.

End Utils.

(** ** Data frames *)

(** A row maps column names to cells; a frame lists its columns and its
    rows, each with its index label, in positional order. *)
Abbreviation row := (gmap string pyval).

Record DataFrame : Type := {
  columns : list string;
  rows : list (Z * row)
}.

(** The cell of a row; a row of a well-formed frame has a cell for every
    column of the frame. *)
Definition cell (r : row) (col : string) : pyval :=
  default (PyFloat NaN) (r !! col).

Definition has_column (df : DataFrame) (col : string) : bool :=
  bool_decide (col ∈ columns df).

(** [df[cols]] on one row. *)
Definition project (cols : list string) (r : row) : row :=
  filter (fun kv => kv.1 ∈ cols) r.

(** [df.reset_index(drop=True)]: labels become positions. *)
Definition reset_index (l : list (Z * row)) : list (Z * row) :=
  imap (fun i lr => (Z.of_nat i, lr.2)) l.

(** ** [data_processing.py]: the record splitter *)

Module Splitter.

Definition numeric_columns : list string :=
  ["joint number"; "joint length [m]"; "wt nom [mm]"; "up weld dist. [m]";
   "depth [%]"; "length [mm]"; "width [mm]"]%string.

Definition joint_columns : list string :=
  ["log dist. [m]"; "joint number"; "joint length [m]"; "wt nom [mm]"]%string.

Definition defect_columns : list string :=
  ["log dist. [m]"; "component / anomaly identification"; "joint number";
   "up weld dist. [m]"; "clock"; "depth [%]"; "length [mm]"; "width [mm]";
   "surface location"]%string.

(** [df.replace(r'^\s*$', np.nan, regex=True)] on one cell. *)
Fixpoint all_space (s : string) : bool :=
  match s with
  | EmptyString => true
  | String a r => is_space a && all_space r
  end.

Definition blank_to_nan (v : pyval) : pyval :=
  match v with
  | PyStr s => if all_space s then PyFloat NaN else v
  | _ => v
  end.

(** The key of [sort_values('log dist. [m]')]: the number of the cell; a
    cell without a number counts as a missing key. *)
Definition sort_key (lr : Z * row) : pyfloat :=
  as_float (cell lr.2 "log dist. [m]").

(** [sort_values] compares the keys that are not null with [<]; a text and
    a number cannot be compared. *)
Definition text_key (lr : Z * row) : bool :=
  is_text (cell lr.2 "log dist. [m]").

Definition number_key (lr : Z * row) : bool :=
  is_number (cell lr.2 "log dist. [m]") && negb (isnan (sort_key lr)).

Definition mixed_keys (l : list (Z * row)) : bool :=
  existsb text_key l && existsb number_key l.

(** The message of the [KeyError] of a selection [df[[...]]] with columns
    that the frame does not have. *)
Definition quoted (col : string) : string := "'" +:+ col +:+ "'".

Fixpoint join (sep : string) (l : list string) : string :=
  match l with
  | [] => EmptyString
  | [x] => x
  | x :: l' => x +:+ sep +:+ join sep l'
  end.

Definition not_in_index (missing : list string) : string :=
  "[" +:+ join ", " (quoted <$> missing) +:+ "] not in index".

(** Ascending, missing keys last. *)
Definition key_before (a b : Z * row) : Prop :=
  (isnan (sort_key a) = true -> isnan (sort_key b) = true) /\
  flt (sort_key b) (sort_key a) = false.

(** [fillna(method='ffill')] on the joint number column. *)
Fixpoint ffill (last : pyval) (l : list (Z * row)) : list (Z * row) :=
  match l with
  | [] => []
  | (i, r) :: l' =>
      let v := cell r "joint number" in
      let v' := if isna v then last else v in
      (i, <["joint number" := v']> r) :: ffill v' l'
  end.

(** [drop_duplicates(subset=['joint number'])], first occurrence kept. *)
Definition same_joint (a b : Z * row) : bool :=
  feq (as_float (cell a.2 "joint number")) (as_float (cell b.2 "joint number")).

Fixpoint drop_duplicates (seen : list (Z * row)) (l : list (Z * row))
  : list (Z * row) :=
  match l with
  | [] => []
  | x :: l' =>
      if existsb (same_joint x) seen then drop_duplicates seen l'
      else x :: drop_duplicates (x :: seen) l'
  end.

Definition both_present (r : row) : bool :=
  notna (cell r "length [mm]") && notna (cell r "width [mm]").

Section WithLibrary.

(** Two library functions are taken as they are: the number read from a
    text by [pd.to_numeric(..., errors='coerce')] ([NaN] for a text that
    is no number), and the order [sort_values] gives rows whose keys can
    be compared (its default sort is not stable, so rows of equal key come
    in an order the library chooses). *)
Variable parse_num : string -> pyfloat.
Variable sort_values : list (Z * row) -> list (Z * row).

Definition to_numeric (v : pyval) : pyval :=
  match v with
  | PyStr s => PyFloat (parse_num s)
  | v => PyFloat (as_float v)
  end.

(** Steps 1 and 2 on one row. *)
Definition clean_row (cols : list string) (r : row) : row :=
  foldr (fun col r => if bool_decide (col ∈ cols) then alter to_numeric col r else r)
        (blank_to_nan <$> r) numeric_columns.

Definition clean_rows (df : DataFrame) : list (Z * row) :=
  (fun lr => (lr.1, clean_row (columns df) lr.2)) <$> rows df.

(** Step 4: the rows in the order the forward fill sees them. *)
Definition ordered_rows (df : DataFrame) : exn + list (Z * row) :=
  if has_column df "log dist. [m]" then
    if mixed_keys (clean_rows df) then inl TypeError
    else inr (sort_values (clean_rows df))
  else inr (clean_rows df).

(** The frame selected at lines 54-57, before the projection. *)
Definition selected_rows (df_copy : list (Z * row)) : list (Z * row) :=
  filter (fun lr => both_present lr.2 = true) (ffill (PyFloat NaN) df_copy).

Definition standardize_row (cols : list string) (r : row) : row :=
  if bool_decide ("surface location" ∈ cols)
  then alter Utils.standardize_surface_location "surface location" r
  else r.

Definition process_pipeline_data (df : DataFrame)
  : exn + (DataFrame * DataFrame) :=
  match ordered_rows df with
  | inl e => inl e
  | inr df_copy =>
      if negb (has_column df "joint number") then inl (KeyError "joint number")
      else
        match filter (fun c => c ∉ columns df) joint_columns with
        | c :: cs => inl (KeyError (not_in_index (c :: cs)))
        | [] =>
            let joints :=
              (fun lr => (lr.1, project joint_columns lr.2)) <$>
              filter (fun lr => notna (cell lr.2 "joint number") = true) df_copy in
            let joints_df :=
              {| columns := joint_columns;
                 rows := reset_index (drop_duplicates [] joints) |} in
            if negb (has_column df "length [mm]") then inl (KeyError "length [mm]")
            else if negb (has_column df "width [mm]")
            then inl (KeyError "width [mm]")
            else
              let available_columns :=
                filter (fun c => c ∈ columns df) defect_columns in
              let defects :=
                (fun lr => (lr.1, project available_columns lr.2)) <$>
                selected_rows df_copy in
              let defects_df :=
                {| columns := available_columns;
                   rows := (fun lr => (lr.1, standardize_row available_columns lr.2))
                           <$> reset_index defects |} in
              inr (joints_df, defects_df)
        end
  end.

End WithLibrary.

(** A stable insertion sort on the key, missing keys last: one of the
    orders the library may give rows with numbers for keys. *)
Fixpoint insert_sorted (x : Z * row) (l : list (Z * row)) : list (Z * row) :=
  match l with
  | [] => [x]
  | y :: l' =>
      if flt (sort_key x) (sort_key y) || (isnan (sort_key y) && negb (isnan (sort_key x)))
      then x :: y :: l'
      else y :: insert_sorted x l'
  end.

Definition insertion_sort (l : list (Z * row)) : list (Z * row) :=
  foldr insert_sorted [] l.

End Splitter.

(** ** The object store *)

Module Store.

(** Frames live in a store under their object identity. A computation
    takes the store and gives the store it leaves, with a value or the
    exception it raised. *)
Abbreviation heap := (gmap nat DataFrame).

Definition M (A : Type) : Type := heap -> heap * (exn + A).

#[global] Instance M_ret : MRet M := fun A a h => (h, inr a).

#[global] Instance M_bind : MBind M := fun A B f m h =>
  match m h with
  | (h', inr a) => f a h'
  | (h', inl e) => (h', inl e)
  end.

Definition raise {A} (e : exn) : M A := fun h => (h, inl e).

Definition lift {A} (r : exn + A) : M A := fun h => (h, r).

Definition read (l : nat) : M DataFrame := fun h =>
  match h !! l with
  | Some df => (h, inr df)
  | None => (h, inl ReferenceError)
  end.

Definition alloc (df : DataFrame) : M nat := fun h =>
  let l := fresh (dom h) in (<[l := df]> h, inr l).

(** [df.copy()]: a new object with the same contents. *)
Definition copy (l : nat) : M nat := df ← read l; alloc df.

(** [df[col] = values], in place. *)
Definition set_column (col : string) (values : list pyval) (df : DataFrame)
  : DataFrame :=
  {| columns := if bool_decide (col ∈ columns df) then columns df
                else columns df ++ [col];
     rows := zip_with (fun lr v => (lr.1, <[col := v]> lr.2)) (rows df) values |}.

Definition assign_column (l : nat) (col : string) (values : list pyval)
  : M unit := fun h =>
  match h !! l with
  | Some df => (<[l := set_column col values df]> h, inr tt)
  | None => (h, inl ReferenceError)
  end.

End Store.
Import Store.

(** ** [multi_year_analysis.py]: the defect correlation engine *)

Module Engine.

Record DepthGrowth : Type := {
  old_depth_pct : pyfloat;
  new_depth_pct : pyfloat;
  depth_change_pct : pyfloat;
  growth_rate_pct_per_year : pyfloat;
  is_negative_growth : bool
}.

Record MmGrowth : Type := {
  old_depth_mm : pyfloat;
  new_depth_mm : pyfloat;
  depth_change_mm : pyfloat;
  growth_rate_mm_per_year : pyfloat
}.

(** One entry of [matches]; the two optional groups of keys are the two
    [match_data.update] calls. *)
Record Match : Type := {
  new_defect_id : Z;
  old_defect_id : Z;
  distance_diff : pyfloat;
  log_dist : pyfloat;
  old_log_dist : pyfloat;
  defect_type : pyval;
  depth_growth : option DepthGrowth;
  mm_growth : option MmGrowth
}.

Record MatchFrame : Type := {
  match_columns : list string;
  match_rows : list Match
}.

(** The returned dictionary. The keys [defect_type_distribution] and
    [growth_stats], which are aggregates of [new_defects] and [matches_df],
    are left out. *)
Record Result : Type := {
  matches_df : MatchFrame;
  new_defects : DataFrame;
  common_defects_count : nat;
  new_defects_count : nat;
  total_defects : nat;
  pct_common : pyval;
  pct_new : pyval;
  has_depth_data : bool;
  has_wt_data : bool;
  calculate_growth : bool
}.

Record LoopState : Type := {
  matched_old : gset Z;
  matched_new : gset Z;
  matches : list Match
}.

Definition required_columns : list string :=
  ["log dist. [m]"; "component / anomaly identification"]%string.

(** The integer in the [defect_id] column, which [compare_defects] itself
    fills with [range(len(df))]. *)
Definition defect_id (r : row) : Z :=
  match cell r "defect_id" with
  | PyInt z => z
  | _ => 0
  end.

Definition log_distance (r : row) : pyfloat :=
  as_float (cell r "log dist. [m]").

(** The operands of the subtraction of lines 54-56: the whole column of
    the old table and the cell of the new row. A text makes the
    subtraction raise [TypeError]; so does a [None] as the new cell. A
    [None] in the old column makes it a column of objects, on which
    [idxmin] raises [TypeError] once a pool is not empty. Tables with
    [None] for a log distance are outside the model: it raises at once
    whenever an operand is no number, so that what it returns the code
    returns, and the properties of a call that returns are stated for
    tables of numbers. *)
Definition distance_operands (old_df : list (Z * row)) (new_defect : row)
  : bool :=
  is_number (cell new_defect "log dist. [m]")
  && forallb (fun lr => is_number (cell lr.2 "log dist. [m]")) old_df.

Section Rounded.

Context {R : Rounding}.

(** [|old - new|] of the log distances. *)
Definition distance (old_defect new_defect : row) : pyfloat :=
  fabs (fsub (log_distance old_defect) (log_distance new_defect)).

(** The boolean mask of lines 51-57 on one old row. *)
Definition mask (matched_old : gset Z) (new_defect : row)
    (distance_tolerance : pyfloat) (old_defect : row) : bool :=
  negb (bool_decide (defect_id old_defect ∈ matched_old))
  && fle (distance old_defect new_defect) distance_tolerance.

Definition potential_matches (old_df : list (Z * row)) (matched_old : gset Z)
    (new_defect : row) (distance_tolerance : pyfloat) : list (Z * row) :=
  filter (fun lr => mask matched_old new_defect distance_tolerance lr.2 = true)
         old_df.

(** [Series.idxmin]: the label of the first smallest value, missing values
    skipped. *)
Fixpoint argmin_from (best : Z * pyfloat) (l : list (Z * pyfloat))
  : Z * pyfloat :=
  match l with
  | [] => best
  | x :: l' => if flt x.2 best.2 then argmin_from x l' else argmin_from best l'
  end.

Definition idxmin (s : list (Z * pyfloat)) : option Z :=
  match filter (fun x => isnan x.2 = false) s with
  | [] => None
  | x :: l => Some (argmin_from x l).1
  end.

(** [df.loc[label]]: the rows under that label. *)
Definition loc_rows {A} (label : Z) (l : list (Z * A)) : list (Z * A) :=
  filter (fun lr => lr.1 = label) l.

Definition growth_fields (year_diff : Z) (old_defect new_defect : row)
  : DepthGrowth :=
  let old_depth := as_float (cell old_defect "depth [%]") in
  let new_depth := as_float (cell new_defect "depth [%]") in
  {| old_depth_pct := old_depth;
     new_depth_pct := new_depth;
     depth_change_pct := fsub new_depth old_depth;
     growth_rate_pct_per_year := fdiv (fsub new_depth old_depth) (of_Z year_diff);
     is_negative_growth := flt (fsub new_depth old_depth) (of_Z 0) |}.

Definition mm_fields (year_diff : Z) (old_defect new_defect : row)
  : MmGrowth :=
  let old_depth := as_float (cell old_defect "depth [%]") in
  let new_depth := as_float (cell new_defect "depth [%]") in
  let old_wt := as_float (cell old_defect "wt nom [mm]") in
  let new_wt := as_float (cell new_defect "wt nom [mm]") in
  let avg_wt := fdiv (fadd old_wt new_wt) (of_Z 2) in
  let old_depth_mm := fdiv (fmul old_depth avg_wt) (of_Z 100) in
  let new_depth_mm := fdiv (fmul new_depth avg_wt) (of_Z 100) in
  {| old_depth_mm := old_depth_mm;
     new_depth_mm := new_depth_mm;
     depth_change_mm := fsub new_depth_mm old_depth_mm;
     growth_rate_mm_per_year :=
       fdiv (fsub new_depth_mm old_depth_mm) (of_Z year_diff) |}.

Section Loop.

Variable old_df : list (Z * row).
Variable distance_tolerance : pyfloat.
Variables calculate_growth has_depth_data has_wt_data : bool.
Variable year_diff : Z.

(** The operands of the arithmetic of lines 78-107 on the two rows: the
    depths when growth is computed, the wall thicknesses when it is
    converted. One that is no number makes the arithmetic raise
    [TypeError]. *)
Definition growth_operands (closest_match new_defect : row) : bool :=
  (negb (calculate_growth && has_depth_data)
   || is_number (cell closest_match "depth [%]")
      && is_number (cell new_defect "depth [%]"))
  && (negb (calculate_growth && has_depth_data && has_wt_data)
      || is_number (cell closest_match "wt nom [mm]")
         && is_number (cell new_defect "wt nom [mm]")).

Definition match_data (closest_match new_defect : row) (dist : pyfloat)
  : Match :=
  {| new_defect_id := defect_id new_defect;
     old_defect_id := defect_id closest_match;
     distance_diff := dist;
     log_dist := log_distance new_defect;
     old_log_dist := log_distance closest_match;
     defect_type := cell new_defect "component / anomaly identification";
     depth_growth :=
       if calculate_growth && has_depth_data
       then Some (growth_fields year_diff closest_match new_defect)
       else None;
     mm_growth :=
       if calculate_growth && has_depth_data && has_wt_data
       then Some (mm_fields year_diff closest_match new_defect)
       else None |}.

(** One turn of the loop of line 49. When the label [best_idx] is on
    several rows of the pool, [.loc] gives a frame instead of a row and
    [matched_old.add] fails on its unhashable [defect_id] column. *)
Definition loop_body (st : LoopState) (new_defect : row) : exn + LoopState :=
  if negb (distance_operands old_df new_defect) then inl TypeError
  else
    let pool :=
      potential_matches old_df (matched_old st) new_defect distance_tolerance in
    match pool with
    | [] => inr st
    | _ :: _ =>
        let dists := (fun lr => (lr.1, distance lr.2 new_defect)) <$> pool in
        match idxmin dists with
        | None => inl (ValueError "attempt to get argmin of an empty sequence")
        | Some best_idx =>
            match loc_rows best_idx pool, loc_rows best_idx dists with
            | [(_, closest_match)], [(_, dist)] =>
                if negb (growth_operands closest_match new_defect)
                then inl TypeError
                else
                  inr {| matched_old :=
                           matched_old st ∪ {[defect_id closest_match]};
                         matched_new :=
                           matched_new st ∪ {[defect_id new_defect]};
                         matches :=
                           matches st ++
                           [match_data closest_match new_defect dist] |}
            | _, _ => inl TypeError
            end
        end
    end.

Fixpoint loop (st : LoopState) (new_rows : list (Z * row)) : exn + LoopState :=
  match new_rows with
  | [] => inr st
  | (_, new_defect) :: rest =>
      match loop_body st new_defect with
      | inl e => inl e
      | inr st' => loop st' rest
      end
  end.

End Loop.

Definition growth_columns : list string :=
  ["old_depth_pct"; "new_depth_pct"; "depth_change_pct";
   "growth_rate_pct_per_year"; "is_negative_growth"]%string.

Definition mm_columns : list string :=
  ["old_depth_mm"; "new_depth_mm"; "depth_change_mm";
   "growth_rate_mm_per_year"]%string.

Definition base_columns : list string :=
  ["new_defect_id"; "old_defect_id"; "distance_diff"; "log_dist";
   "old_log_dist"; "defect_type"]%string.

(** [x / total * 100 if total else 0]. *)
Definition percentage (x total : nat) : pyval :=
  if (total =? 0)%nat then PyInt 0
  else PyFloat (fmul (fdiv (of_Z (Z.of_nat x)) (of_Z (Z.of_nat total)))
                     (of_Z 100)).

(** Lines 45-186, on the two copies once they carry their ids. *)
Definition compare_frames (old_df new_df : DataFrame)
    (calculate_growth has_depth_data has_wt_data : bool) (year_diff : Z)
    (distance_tolerance : pyfloat) : exn + Result :=
  match loop (rows old_df) distance_tolerance calculate_growth has_depth_data
             has_wt_data year_diff
             {| matched_old := ∅; matched_new := ∅; matches := [] |}
             (rows new_df) with
  | inl e => inl e
  | inr st =>
      let cols :=
        base_columns ++
        (if calculate_growth && has_depth_data
         then growth_columns ++ (if has_wt_data then mm_columns else [])
         else []) in
      let matches_frame := {| match_columns := cols; match_rows := matches st |} in
      let unmatched :=
        {| columns := columns new_df;
           rows := filter (fun lr => defect_id lr.2 ∉ matched_new st) (rows new_df) |} in
      let total := length (rows new_df) in
      let common := length (match_rows matches_frame) in
      let new_cnt := length (rows unmatched) in
      inr {| matches_df := matches_frame;
             new_defects := unmatched;
             common_defects_count := common;
             new_defects_count := new_cnt;
             total_defects := total;
             pct_common := percentage common total;
             pct_new := percentage new_cnt total;
             has_depth_data := has_depth_data;
             has_wt_data := has_wt_data;
             calculate_growth := calculate_growth |}
  end.

Definition check_columns (old_df new_df : DataFrame) : exn + unit :=
  match filter (fun col => ¬ (col ∈ columns old_df ∧ col ∈ columns new_df))
               required_columns with
  | col :: _ => inl (ValueError ("Missing column: " +:+ col))
  | [] => inr tt
  end.

Definition range (n : nat) : list pyval :=
  (fun i => PyInt (Z.of_nat i)) <$> seq 0 n.

(** [old_year is not None and new_year is not None and new_year > old_year],
    and [year_diff], which is bound only in that case. *)
Definition growth_eligible (old_year new_year : option Z) : bool :=
  match old_year, new_year with
  | Some o, Some n => o <? n
  | _, _ => false
  end.

Definition years_between (old_year new_year : option Z) : Z :=
  match old_year, new_year with
  | Some o, Some n => n - o
  | _, _ => 0
  end.

Definition compare_defects (old_defects_df new_defects_df : nat)
    (old_year new_year : option Z) (distance_tolerance : pyfloat) : M Result :=
  old_df ← copy old_defects_df;
  new_df ← copy new_defects_df;
  let calculate_growth := growth_eligible old_year new_year in
  let year_diff := years_between old_year new_year in
  old ← read old_df;
  new ← read new_df;
  let has_depth_data := has_column old "depth [%]" && has_column new "depth [%]" in
  let has_wt_data := has_column old "wt nom [mm]" && has_column new "wt nom [mm]" in
  _ ← lift (check_columns old new);
  _ ← assign_column old_df "defect_id" (range (length (rows old)));
  _ ← assign_column new_df "defect_id" (range (length (rows new)));
  old ← read old_df;
  new ← read new_df;
  lift (compare_frames old new calculate_growth has_depth_data has_wt_data
                       year_diff distance_tolerance).

End Rounded.

End Engine.

(** ** [multi_year_analysis.py]: growth statistics and the matching view *)

Module Summary.
Import Engine.

(** [Series.mean()] and [Series.max()]: missing values are skipped, and a
    series without any value gives [NaN]. *)
Definition numbers (l : list pyfloat) : list Q :=
omap (fun x => match x with Fin q => Some q | NaN => None end) l.

Definition Qmax (a b : Q) : Q := if Qle_bool a b then b else a.

Definition maximum (l : list pyfloat) : pyfloat :=
match numbers l with
| [] => NaN
| q :: qs => Fin (foldr Qmax q qs)
end.

(** The columns of [matches_df] read by the statistics. *)
Definition negative (m : Match) : bool :=
match depth_growth m with
| Some d => is_negative_growth d
| None => false
end.

Definition rate_pct (m : Match) : pyfloat :=
match depth_growth m with
| Some d => growth_rate_pct_per_year d
| None => NaN
end.

Definition rate_mm (m : Match) : pyfloat :=
match mm_growth m with
| Some g => growth_rate_mm_per_year g
| None => NaN
end.

Record RateStats : Type := {
  avg_growth_rate : pyfloat;
  avg_positive_growth_rate : pyval;
  max_growth_rate : pyval
}.

Record GrowthStats : Type := {
  total_matched_defects : nat;
  negative_growth_count : nat;
  pct_negative_growth : pyval;
  pct_stats : RateStats;
  mm_stats : option RateStats
}.

(** One row of [create_matching_debug_view]. *)
Record DebugRow : Type := {
  new_dist : pyfloat;
  old_dist : pyfloat;
  debug_distance_diff : pyfloat;
  debug_defect_type : pyval;
  would_match : bool;
  extra_values : list (string * pyval * pyval)
}.

Definition extra_cols : list string :=
["depth [%]"; "clock"; "length [mm]"; "width [mm]"]%string.

(** The operands of the subtraction of the view: a text in the old column
    or a new cell that is no number makes it raise [TypeError]. *)
Definition view_operands (old_df : list (Z * row)) (new_defect : row) : bool :=
is_number (cell new_defect "log dist. [m]")
&& forallb (fun lr => negb (is_text (cell lr.2 "log dist. [m]"))) old_df.

Section Statistics.

Context {R : Rounding}.

(** The sum of a column is taken as the library gives it: the numbers are
    added, each partial sum rounded, in an order the library chooses. *)
Variable series_sum : list Q -> Q.

Definition mean (l : list pyfloat) : pyfloat :=
match numbers l with
| [] => NaN
| q :: qs =>
    Fin (rnd (series_sum (q :: qs) / inject_Z (Z.of_nat (length (q :: qs)))))
end.

(** The three statistics of one rate column: the mean over all matches,
    and the mean and the maximum over the matches without negative growth
    (the integer 0 when there is no such match). *)
Definition rate_stats (rate : Match -> pyfloat) (all positive_growth : list Match)
  : RateStats :=
{| avg_growth_rate := mean (rate <$> all);
   avg_positive_growth_rate :=
     if (0 <? length positive_growth)%nat
     then PyFloat (mean (rate <$> positive_growth)) else PyInt 0;
   max_growth_rate :=
     if (0 <? length positive_growth)%nat
     then PyFloat (maximum (rate <$> positive_growth)) else PyInt 0 |}.

(** Lines 146-171 of [compare_defects]: the value under [growth_stats],
    from the other values of the result. *)
Definition growth_stats (res : Result) : option GrowthStats :=
let ms := match_rows (matches_df res) in
if calculate_growth res && has_depth_data res && negb (bool_decide (ms = []))
then
  let negative_count := length (filter (fun m => negative m = true) ms) in
  let positive_growth := filter (fun m => negative m = false) ms in
  Some
    {| total_matched_defects := length ms;
       negative_growth_count := negative_count;
       pct_negative_growth :=
         if (0 <? length ms)%nat
         then PyFloat (fmul (fdiv (of_Z (Z.of_nat negative_count))
                                  (of_Z (Z.of_nat (length ms))))
                            (of_Z 100))
         else PyInt 0;
       pct_stats := rate_stats rate_pct ms positive_growth;
       mm_stats :=
         if has_wt_data res
         then Some (rate_stats rate_mm ms positive_growth) else None |}
else None.

(** The rows of the view for one new defect: the old defects within twice
    the tolerance, in table order. *)
Definition debug_rows (old_df : list (Z * row)) (shared : list string)
    (distance_tolerance : pyfloat) (new_defect : row) : list DebugRow :=
let nearby_old :=
  filter (fun lr => fle (fabs (fsub (log_distance lr.2) (log_distance new_defect)))
                        (fmul distance_tolerance (of_Z 2)) = true) old_df in
(fun lr =>
   let old_defect := lr.2 in
   let diff := fabs (fsub (log_distance new_defect) (log_distance old_defect)) in
   {| new_dist := log_distance new_defect;
      old_dist := log_distance old_defect;
      debug_distance_diff := diff;
      debug_defect_type := cell new_defect "component / anomaly identification";
      would_match := fle diff distance_tolerance;
      extra_values :=
        (fun col => (col, cell new_defect col, cell old_defect col)) <$> shared |})
<$> nearby_old.

(** One turn of the loop of the view. The anomaly column of the new table
    is looked up only when some old defect is near the new one. *)
Definition view_step (old_df : list (Z * row)) (shared : list string)
    (has_type : bool) (distance_tolerance : pyfloat) (new_defect : row)
  : exn + list DebugRow :=
if negb (view_operands old_df new_defect) then inl TypeError
else
  match debug_rows old_df shared distance_tolerance new_defect with
  | [] => inr []
  | r :: rs =>
      if has_type then inr (r :: rs)
      else inl (KeyError "component / anomaly identification")
  end.

Fixpoint view_loop (old_df : list (Z * row)) (shared : list string)
    (has_type : bool) (distance_tolerance : pyfloat)
    (new_rows : list (Z * row)) : exn + list DebugRow :=
match new_rows with
| [] => inr []
| (_, new_defect) :: rest =>
    match view_step old_df shared has_type distance_tolerance new_defect with
    | inl e => inl e
    | inr found =>
        match view_loop old_df shared has_type distance_tolerance rest with
        | inl e => inl e
        | inr more => inr (found ++ more)
        end
    end
end.

(** [create_matching_debug_view]. The columns are looked up row by row:
    with no new row nothing is looked up. *)
Definition create_matching_debug_view (old_defects_df new_defects_df : DataFrame)
    (distance_tolerance : pyfloat) : exn + list DebugRow :=
let shared :=
  filter (fun col => col ∈ columns old_defects_df /\ col ∈ columns new_defects_df)
         extra_cols in
match rows new_defects_df with
| [] => inr []
| _ :: _ =>
    if negb (has_column old_defects_df "log dist. [m]")
    then inl (KeyError "log dist. [m]")
    else if negb (has_column new_defects_df "log dist. [m]")
    then inl (KeyError "log dist. [m]")
    else
      view_loop (rows old_defects_df) shared
        (has_column new_defects_df "component / anomaly identification")
        distance_tolerance (rows new_defects_df)
end.

End Statistics.

(** The sum from left to right. *)
Definition left_sum {R : Rounding} (l : list Q) : Q :=
foldl (fun acc x => rnd (acc + x)%Q) 0%Q l.

End Summary.

(** ** [column_mapping.py]: renaming the columns of an uploaded table *)

Module Mapping.

Definition REQUIRED_COLUMNS : list string :=
["log dist. [m]"; "joint number"; "joint length [m]"; "wt nom [mm]";
 "component / anomaly identification"; "up weld dist. [m]"; "clock";
 "depth [%]"; "length [mm]"; "width [mm]"; "surface location"]%string.

(** A mapping dictionary [{standard_column: file_column}] in insertion
    order, [None] for a standard column without a file column. The keys of
    a dictionary are distinct. *)
Definition mapping : Type := list (string * option string).

Definition get (m : mapping) (col : string) : option (option string) :=
(list_to_map m : gmap string (option string)) !! col.

(** [df[col]], row by row. *)
Definition column (df : DataFrame) (col : string) : list pyval :=
(fun lr => cell lr.2 col) <$> rows df.

(** [apply_column_mapping]: every assignment reads the original table and
    writes the copy. *)
Definition apply_column_mapping (df : DataFrame) (m : mapping) : DataFrame :=
foldl (fun renamed_df kv =>
         match kv.2 with
         | Some file_col =>
             if has_column df file_col
             then set_column kv.1 (column df file_col) renamed_df
             else renamed_df
         | None => renamed_df
         end)
      df m.

Definition unmapped (m : mapping) (col : string) : bool :=
match get m col with
| Some (Some _) => false
| _ => true
end.

Definition get_missing_required_columns (m : mapping) : list string :=
filter (fun col => unmapped m col = true) REQUIRED_COLUMNS.

(** The mapping [process_data] builds: every column of the table to
    itself. *)
Definition dummy_mapping (df : DataFrame) : mapping :=
(fun col => (col, Some col)) <$> columns df.

End Mapping.

(** ** Notions of the specification *)

Module Spec.



(** A null value: [None] or [NaN]. *)
Definition is_null (v : pyval) : Prop := v = PyNone \/ v = PyFloat NaN.

(** The copy of a frame once it carries its ids. *)
Definition with_ids (df : DataFrame) : DataFrame :=
set_column "defect_id" (Engine.range (length (rows df))) df.

(** The old ids taken by the matches of the new defects before row [j]. *)
Definition consumed_before (ms : list Engine.Match) (j : nat) : list Z :=
Engine.old_defect_id <$>
(filter (fun m => Engine.new_defect_id m < Z.of_nat j) ms).

(** The cells named by the arithmetic of the engine hold numbers. *)
Definition numeric_cells (df : DataFrame) : bool :=
forallb (fun lr =>
           forallb (fun c => is_number (cell lr.2 c))
                   ["log dist. [m]"; "depth [%]"; "wt nom [mm]"]%string)
        (rows df).

Section Rounded.

Context {R : Rounding}.

(** The absolute difference of the log distances of two rows. *)
Definition gap (o n : row) : pyfloat :=
fabs (fsub (as_float (cell o "log dist. [m]"))
           (as_float (cell n "log dist. [m]"))).

(** The distance between old row [i] and new row [j]. *)
Definition dist_at (old new : DataFrame) (i j : nat) : pyfloat :=
match rows old !! i, rows new !! j with
| Some o, Some n => gap o.2 n.2
| _, _ => NaN
end.

(** Old row [i] is in the candidate pool of new row [j]: the rows exist,
    [i] is not consumed by an earlier new defect, and the distance is
    within the tolerance. *)
Definition candidate (old new : DataFrame) (tol : pyfloat)
    (ms : list Engine.Match) (j i : nat) : Prop :=
(i < length (rows old))%nat /\ (j < length (rows new))%nat /\
(Z.of_nat i ∉ consumed_before ms j) /\
fle (dist_at old new i j) tol = true.

(** The match of new row [j] is the greedy one: if the pool is not empty,
    there is a match of [j] with a candidate at the least distance, and
    every candidate on an earlier old row is strictly farther. *)
Definition greedy_choice (old new : DataFrame) (tol : pyfloat)
    (ms : list Engine.Match) (j : nat) : Prop :=
(exists i, candidate old new tol ms j i) ->
exists m i,
  m ∈ ms /\ Engine.new_defect_id m = Z.of_nat j /\
  Engine.old_defect_id m = Z.of_nat i /\
  candidate old new tol ms j i /\
  Engine.distance_diff m = dist_at old new i j /\
  forall i', candidate old new tol ms j i' ->
    fle (dist_at old new i j) (dist_at old new i' j) = true /\
    ((i' < i)%nat -> flt (dist_at old new i j) (dist_at old new i' j) = true).

(** Every match of new row [j] pairs it with one of its candidates. *)
Definition match_is_candidate (old new : DataFrame) (tol : pyfloat)
    (ms : list Engine.Match) (j : nat) : Prop :=
forall m, m ∈ ms -> Engine.new_defect_id m = Z.of_nat j ->
  exists i, Engine.old_defect_id m = Z.of_nat i /\ candidate old new tol ms j i.

(** The ids of a frame are the positions of its rows. *)
Definition ids_are_positions (l : list (Z * row)) : Prop :=
forall i lr, l !! i = Some lr -> Engine.defect_id lr.2 = Z.of_nat i.

(** The loop state after a match of [closest_match] with [new_defect]. *)
Definition extend (calculate_growth has_depth_data has_wt_data : bool)
    (year_diff : Z) (st : Engine.LoopState) (closest_match new_defect : row)
  : Engine.LoopState :=
{| Engine.matched_old :=
     Engine.matched_old st ∪ {[Engine.defect_id closest_match]};
   Engine.matched_new :=
     Engine.matched_new st ∪ {[Engine.defect_id new_defect]};
   Engine.matches :=
     Engine.matches st ++
     [Engine.match_data calculate_growth has_depth_data has_wt_data year_diff
        closest_match new_defect (Engine.distance closest_match new_defect)] |}.

(** A match is the [match_data] of an old row and a new row. *)
Definition made_from (old new : DataFrame)
    (calculate_growth has_depth_data has_wt_data : bool) (year_diff : Z)
    (m : Engine.Match) : Prop :=
exists (i j : nat) (lo ln : Z) (o n : row),
  rows old !! i = Some (lo, o) /\ rows new !! j = Some (ln, n) /\
  m = Engine.match_data calculate_growth has_depth_data has_wt_data year_diff
        o n (Engine.distance o n).

(** What holds of the loop state when the first [k] new rows are done. *)
Record loop_invariant (old new : DataFrame) (tol : pyfloat)
    (calculate_growth has_depth_data has_wt_data : bool) (year_diff : Z)
    (k : nat) (st : Engine.LoopState) : Prop := {
  inv_old : forall z,
    z ∈ Engine.matched_old st <-> z ∈ Engine.old_defect_id <$> Engine.matches st;
  inv_new : forall z,
    z ∈ Engine.matched_new st <-> z ∈ Engine.new_defect_id <$> Engine.matches st;
  inv_range :
    Forall (fun m => 0 <= Engine.new_defect_id m < Z.of_nat k) (Engine.matches st);
  inv_sorted : StronglySorted Z.lt (Engine.new_defect_id <$> Engine.matches st);
  inv_nodup : NoDup (Engine.old_defect_id <$> Engine.matches st);
  inv_greedy : forall j, (j < k)%nat ->
    greedy_choice old new tol (Engine.matches st) j;
  inv_candidate : forall j, (j < k)%nat ->
    match_is_candidate old new tol (Engine.matches st) j;
  inv_data :
    Forall (made_from old new calculate_growth has_depth_data has_wt_data
                      year_diff)
           (Engine.matches st)
}.

(** The average of the nominal wall thickness of a matched pair. *)
Definition avg_wall_thickness (old_defect new_defect : row) : pyfloat :=
fdiv (fadd (as_float (cell old_defect "wt nom [mm]"))
           (as_float (cell new_defect "wt nom [mm]")))
     (of_Z 2).

(** The relation of the two growth rates as the specification words it,
    [pct * avg / 100 / year_diff], and without the second division. *)
Definition claimed_mm_rate (pct avg : pyfloat) (year_diff : Z) : pyfloat :=
fdiv (fdiv (fmul pct avg) (of_Z 100)) (of_Z year_diff).

Definition mm_rate_of_pct (pct avg : pyfloat) : pyfloat :=
fdiv (fmul pct avg) (of_Z 100).

End Rounded.

(** An empty cell: a text of white space only. *)
Definition blank (s : string) : bool :=
forallb is_space (list_ascii_of_string s).

(** The number read from a cell of a numeric column: an empty cell and a
    text that is no number are missing. *)
Definition reading (parse_num : string -> pyfloat) (v : pyval) : pyfloat :=
match v with
| PyStr s => if blank s then NaN else parse_num s
| PyFloat x => x
| PyInt z => of_Z z
| PyNone => NaN
end.

(** The columns coerced to numbers. *)
Definition numeric_names : list string :=
["joint number"; "joint length [m]"; "wt nom [mm]"; "up weld dist. [m]";
 "depth [%]"; "length [mm]"; "width [mm]"]%string.

(** A cell of the raw table after steps 1 and 2: the number read in a
    numeric column of the table, and elsewhere the cell itself, missing
    when it is empty. *)
Definition cleaned_value (parse_num : string -> pyfloat) (cols : list string)
    (c : string) (v : pyval) : pyval :=
if bool_decide (c ∈ numeric_names /\ c ∈ cols)
then PyFloat (reading parse_num v)
else match v with
     | PyStr s => if blank s then PyFloat NaN else v
     | _ => v
     end.

(** A cleaned row is that of a raw row: same label, cells cleaned. *)
Definition cleaned_from (parse_num : string -> pyfloat) (cols : list string)
    (raw cl : Z * row) : Prop :=
cl.1 = raw.1 /\
forall c, cell cl.2 c = cleaned_value parse_num cols c (cell raw.2 c).

(** Both sizes of a cleaned row are present. *)
Definition sized (r : row) : Prop :=
exists l w : Q,
  cell r "length [mm]" = PyFloat (Fin l) /\
  cell r "width [mm]" = PyFloat (Fin w).

(** The joint number a row at position [p] carries after the forward fill:
    that of the nearest row at or before [p] which has one, and [NaN] when
    no such row exists. *)
Definition nearest_preceding (l : list (Z * row)) (p : nat) : pyval :=
default (PyFloat NaN)
  (head (filter (fun v => notna v = true)
                (reverse ((fun lr => cell lr.2 "joint number") <$> take (S p) l)))).

End Spec.

(** ** Further notions used by the additional properties *)

Module Spec2.

(** The text [h:mm] or [hh:mm] reads back as the two integers. *)
Definition reads_back (hour_text : string) (h m : Z) : bool :=
bool_decide (py_int <$> split ":" (hour_text +:+ ":" +:+ format_02d m)
             = [Some h; Some m]).

Definition all_read_back (print_hour : Z -> string) (hours minutes : Z) : bool :=
forallb (fun h => forallb (fun m => reads_back (print_hour h) h m)
                          (seqZ 0 minutes))
        (seqZ 0 hours).

(** The columns [process_pipeline_data] reads without asking whether they
    exist. *)
Definition needed_columns : list string :=
["joint number"; "log dist. [m]"; "joint length [m]"; "wt nom [mm]";
 "length [mm]"; "width [mm]"]%string.

(** The log distances of a table cannot be put in order: there is a log
    distance column, one of its cells is a text that is not empty and one
    is a number. *)
Definition unsortable (df : DataFrame) : Prop :=
"log dist. [m]"%string ∈ columns df /\
(exists lr s, lr ∈ rows df /\ cell lr.2 "log dist. [m]" = PyStr s /\
              Spec.blank s = false) /\
(exists lr, lr ∈ rows df /\
   ((exists q, cell lr.2 "log dist. [m]" = PyFloat (Fin q)) \/
    (exists z, cell lr.2 "log dist. [m]" = PyInt z))).

(** The columns of the joints table besides the joint number. *)
Definition joint_attributes : list string :=
["log dist. [m]"; "joint length [m]"; "wt nom [mm]"]%string.

(** The joint number of a row, as a number. *)
Definition joint_of (lr : Z * row) : pyfloat :=
as_float (cell lr.2 "joint number").

(** A row of a copy: the row of the table with its id. *)
Definition with_id (i : nat) (r : row) : row :=
<["defect_id" := PyInt (Z.of_nat i)]> r.

End Spec2.

(** ** Notions about renamed tables *)

Module Spec3.

(** One row after the assignments of a mapping: the value under [col] is
    the value the original row [r] has under the file column mapped to
    [col], when that column is in the table; else the value is kept. *)
Definition renamed_value (df : DataFrame) (m : Mapping.mapping) (r a : row)
    (col : string) : option pyval :=
match Mapping.get m col with
| Some (Some file_col) =>
    if has_column df file_col then Some (cell r file_col) else a !! col
| _ => a !! col
end.

(** Every row of the table has a value under every column. *)
Definition complete (df : DataFrame) : Prop :=
forall lr c, lr ∈ rows df -> c ∈ columns df -> is_Some (lr.2 !! c).

(** The assignments of a mapping on one row of the copy. *)
Definition rename_row (df : DataFrame) (r : row) (m : Mapping.mapping)
    (a : row) : row :=
foldl (fun a kv =>
         match kv.2 with
         | Some file_col =>
             if has_column df file_col then <[kv.1 := cell r file_col]> a else a
         | None => a
         end)
      a m.

Definition rename_step (df renamed_df : DataFrame) (kv : string * option string)
  : DataFrame :=
match kv.2 with
| Some file_col =>
    if has_column df file_col
    then set_column kv.1 (Mapping.column df file_col) renamed_df
    else renamed_df
| None => renamed_df
end.

End Spec3.

(** ** Sample surveys *)

Module Examples.

Definition defect (dist depth wt : Q) : row :=
list_to_map
  [("log dist. [m]", PyFloat (Fin dist));
   ("component / anomaly identification", PyStr "corrosion");
   ("depth [%]", PyFloat (Fin depth));
   ("wt nom [mm]", PyFloat (Fin wt))]%string.

Definition survey_columns : list string :=
["log dist. [m]"; "component / anomaly identification"; "depth [%]";
 "wt nom [mm]"]%string.

Definition survey (l : list row) : DataFrame :=
{| columns := survey_columns; rows := imap (fun i r => (Z.of_nat i, r)) l |}.

(** Three old and three new defects. The first new defect takes the old
    defect at 10.005; the second new defect lies exactly there and has to
    take the old defect at 10.000; the third has no old defect nearby. *)
Definition old_survey : DataFrame :=
survey [defect 10 20 10; defect (10005 # 1000) 30 10; defect 11 3 10].

Definition new_survey : DataFrame :=
survey [defect (10004 # 1000) 25 10; defect (10005 # 1000) 35 10;
        defect 20 3 10].

Definition store : gmap nat DataFrame :=
<[1%nat := new_survey]> (<[0%nat := old_survey]> ∅).

(** One defect at 10.000 with depth 20 in 2015, found again with depth 30
    in 2017, wall thickness 10 mm in both surveys. *)
Definition old_single : DataFrame := survey [defect 10 20 10].
Definition new_single : DataFrame := survey [defect 10 30 10].

Definition single_store : gmap nat DataFrame :=
<[1%nat := new_single]> (<[0%nat := old_single]> ∅).

(** A new defect 0.01 away from the old one. *)
Definition new_at_tolerance : DataFrame := survey [defect (1001 # 100) 30 10].

Definition boundary_store : gmap nat DataFrame :=
<[1%nat := new_at_tolerance]> (<[0%nat := old_single]> ∅).

(** A new survey without the anomaly column. *)
Definition new_without_type : DataFrame :=
{| columns := ["log dist. [m]"; "depth [%]"]%string;
   rows := [(0, list_to_map [("log dist. [m]", PyFloat (Fin 10));
                             ("depth [%]", PyFloat (Fin 30))]%string)] |}.

Definition broken_store : gmap nat DataFrame :=
<[1%nat := new_without_type]> (<[0%nat := old_single]> ∅).

(** The matches of the call on the three-defect surveys. *)
Definition sample_matches {R : Rounding} : list Engine.Match :=
match (Engine.compare_defects 0 1 (Some 2015) (Some 2020) (Fin (1 # 100))
                              store).2 with
| inr res => Engine.match_rows (Engine.matches_df res)
| inl _ => []
end.

(** A reader of numbers that knows the integers. *)
Definition parse_integer (s : string) : pyfloat :=
match py_int s with
| Some z => of_Z z
| None => NaN
end.

Definition raw_row (dist joint length width : pyval) : row :=
list_to_map
  [("log dist. [m]", dist); ("joint number", joint);
   ("joint length [m]", PyFloat NaN); ("wt nom [mm]", PyFloat NaN);
   ("length [mm]", length); ("width [mm]", width)]%string.

(** A raw survey out of order: a defect at 3 m, the joint marker 10 at
    1 m, and a row at 2 m whose width is no number. *)
Definition raw_survey : DataFrame :=
{| columns := ["log dist. [m]"; "joint number"; "joint length [m]";
               "wt nom [mm]"; "length [mm]"; "width [mm]"]%string;
   rows := [(0, raw_row (PyFloat (Fin 3)) (PyFloat NaN) (PyStr "12")
                        (PyFloat (Fin 2)));
            (1, raw_row (PyFloat (Fin 1)) (PyFloat (Fin 10)) (PyStr "  ")
                        (PyFloat NaN));
            (2, raw_row (PyFloat (Fin 2)) (PyFloat NaN) (PyFloat (Fin 5))
                        (PyStr "x"))] |}.

Definition split_sample : exn + (DataFrame * DataFrame) :=
Splitter.process_pipeline_data parse_integer Splitter.insertion_sort raw_survey.

(** The joint numbers and the lengths of the defects of the sample. *)
Definition split_sample_defects : list (pyval * pyval) :=
match split_sample with
| inr (_, defects) =>
    (fun lr => (cell lr.2 "joint number", cell lr.2 "length [mm]"))
    <$> rows defects
| inl _ => []
end.

(** Two new defects next to the one old defect: the first takes it. *)
Definition new_pair : DataFrame :=
survey [defect 10 30 10; defect (10005 # 1000) 30 10].

Definition pair_store : gmap nat DataFrame :=
<[1%nat := new_pair]> (<[0%nat := old_single]> ∅).

(** The matches of an outcome; none when the call raised. *)
Definition matches_of (r : gmap nat DataFrame * (exn + Engine.Result))
  : list Engine.Match :=
match r.2 with
| inr res => Engine.match_rows (Engine.matches_df res)
| inl _ => []
end.

(** The statistics of an outcome, the sums taken from left to right; none
    when the call raised. *)
Definition stats_of {R : Rounding}
    (r : gmap nat DataFrame * (exn + Engine.Result))
  : option Summary.GrowthStats :=
match r.2 with
| inr res => Summary.growth_stats Summary.left_sum res
| inl _ => None
end.

(** An old survey without a defect. *)
Definition empty_survey : DataFrame := survey [].

Definition empty_store : gmap nat DataFrame :=
<[1%nat := new_survey]> (<[0%nat := empty_survey]> ∅).

(** A mapping that exchanges the depth and the wall thickness. *)
Definition swap_mapping : Mapping.mapping :=
[("depth [%]", Some "wt nom [mm]"); ("wt nom [mm]", Some "depth [%]")]%string.

(** A mapping of every required column to a column of the raw survey. *)
Definition full_mapping : Mapping.mapping :=
[("log dist. [m]", Some "log dist. [m]");
 ("joint number", Some "joint number");
 ("joint length [m]", Some "joint length [m]");
 ("wt nom [mm]", Some "wt nom [mm]");
 ("component / anomaly identification", Some "log dist. [m]");
 ("up weld dist. [m]", Some "log dist. [m]");
 ("clock", Some "log dist. [m]");
 ("depth [%]", Some "wt nom [mm]");
 ("length [mm]", Some "length [mm]");
 ("width [mm]", Some "width [mm]");
 ("surface location", Some "log dist. [m]")]%string.

(** The raw survey with a surface location on every row. *)
Definition located_survey : DataFrame :=
{| columns := columns raw_survey ++ ["surface location"]%string;
   rows := (fun lr => (lr.1, <["surface location" := PyStr " internal "]> lr.2))
           <$> rows raw_survey |}.

(** A double, by its numerator and the exponent of its denominator. *)
Definition double (n : Z) (k : positive) : Q := n # 2 ^ k.

(** A survey of log distances only. *)
Definition position (dist : Q) : row :=
list_to_map
  [("log dist. [m]", PyFloat (Fin dist));
   ("component / anomaly identification", PyStr "corrosion")]%string.

Definition positions (l : list Q) : DataFrame :=
{| columns := ["log dist. [m]"; "component / anomaly identification"]%string;
   rows := imap (fun i d => (Z.of_nat i, position d)) l |}.

(** The doubles 0.1, 0.15 and 0.04999999999999998: in binary64 the second
    less the third is the first. *)
Definition tenth : Q := double 3602879701896397 55.
Definition old_at_boundary : DataFrame := positions [double 5404319552844595 55].
Definition new_at_boundary : DataFrame := positions [double 7205759403792791 57].

Definition binary_boundary_store : gmap nat DataFrame :=
<[1%nat := new_at_boundary]> (<[0%nat := old_at_boundary]> ∅).

(** Old defects at the doubles 0.17000000000000004 and
    0.029999999999999978, a new defect at 0.1: in binary64 both are
    0.07000000000000003 away. *)
Definition old_tied : DataFrame :=
positions [double 1531223873305969 53; double 4323455642275673 57].
Definition new_tied : DataFrame := positions [tenth].

Definition tied_store : gmap nat DataFrame :=
<[1%nat := new_tied]> (<[0%nat := old_tied]> ∅).

(** A raw survey whose log distances are a number and a text. *)
Definition mixed_survey : DataFrame :=
{| columns := columns raw_survey;
   rows := [(0, raw_row (PyFloat (Fin 3)) (PyFloat NaN) (PyStr "12")
                        (PyFloat (Fin 2)));
            (1, raw_row (PyStr "1 m") (PyFloat (Fin 10)) (PyStr "  ")
                        (PyFloat NaN))] |}.

End Examples.

(** ** Facts about roundings *)

Module RoundingFacts.
Local Open Scope Q_scope.

(** Arithmetic without rounding has the laws. *)
Lemma exact_arithmetic_faithful : Faithful exact_arithmetic.
Proof.
  split; unfold rnd, exact_arithmetic.
  - intros x y H. exact H.
  - intros x y H. exact H.
  - intros x. reflexivity.
  - intros x. reflexivity.
  - intros z _. reflexivity.
  - intros x _.
    assert (E : x - x == 0) by ring. rewrite E. discriminate.
Qed.

Lemma small_integer (z : Z) : (Z.abs z <= 2048)%Z -> (Z.abs z <= 2 ^ 53)%Z.
Proof.
  intros H. assert (E : (2 ^ 53 = 9007199254740992)%Z) by reflexivity.
  rewrite E. lia.
Qed.

Section Laws.

Context {R : Rounding} {F : Faithful R}.

Lemma rnd_Z (z : Z) : (Z.abs z <= 2048)%Z -> rnd (inject_Z z) == inject_Z z.
Proof. intros H. apply rnd_int, small_integer, H. Qed.

Lemma rnd_0 : rnd 0 == 0.
Proof. exact (rnd_Z 0 ltac:(discriminate)). Qed.

Lemma rnd_nonneg (x : Q) : 0 <= x -> 0 <= rnd x.
Proof. intros H. rewrite <- rnd_0. now apply rnd_mono. Qed.

Lemma rnd_le_Z (x : Q) (z : Z) :
  (Z.abs z <= 2048)%Z -> x <= inject_Z z -> rnd x <= inject_Z z.
Proof. intros Hz H. rewrite <- (rnd_Z z Hz). now apply rnd_mono. Qed.

Lemma rnd_ge_Z (x : Q) (z : Z) :
  (Z.abs z <= 2048)%Z -> inject_Z z <= x -> inject_Z z <= rnd x.
Proof. intros Hz H. rewrite <- (rnd_Z z Hz). now apply rnd_mono. Qed.

(** Rounding and the absolute value commute. *)
Lemma rnd_abs (x : Q) : Qabs (rnd x) == rnd (Qabs x).
Proof.
  destruct (Qlt_le_dec x 0) as [Hneg | Hpos].
  - assert (Hx : Qabs x == - x) by (apply Qabs_neg; lra).
    assert (Hr : rnd x <= 0).
    { rewrite <- rnd_0. apply rnd_mono. lra. }
    rewrite (Qabs_neg _ Hr), (rnd_proper _ _ Hx), rnd_odd. reflexivity.
  - assert (Hx : Qabs x == x) by (apply Qabs_pos; exact Hpos).
    rewrite (Qabs_pos _ (rnd_nonneg x Hpos)), (rnd_proper _ _ Hx).
    reflexivity.
Qed.

(** Up to 2048 a rounded number is within [2^-43] of the number. *)
Lemma rnd_close (x : Q) :
  0 <= x -> x <= 2048 ->
  x - (1 # 2 ^ 43) <= rnd x /\ rnd x <= x + (1 # 2 ^ 43).
Proof.
  intros H0 H1.
  assert (Ha : Qabs x <= 2048) by (rewrite Qabs_pos; assumption).
  pose proof (rnd_near x Ha) as Hn.
  apply Qabs_Qle_condition in Hn as [Hn1 Hn2].
  split; lra.
Qed.

End Laws.

(** *** Binary64 has the laws *)

Lemma pow2_pos (e : Z) : 0 < pow2 e.
Proof. apply Qpower_0_lt. reflexivity. Qed.

Lemma pow2_add (a b : Z) : pow2 (a + b) == pow2 a * pow2 b.
Proof. apply Qpower_plus. discriminate. Qed.

Lemma pow2_sub (a b : Z) : pow2 (a - b) == pow2 a / pow2 b.
Proof. apply Qpower_minus. discriminate. Qed.

Lemma pow2_le (a b : Z) : (a <= b)%Z -> pow2 a <= pow2 b.
Proof. intros H. apply Qpower_le_compat_l; [exact H | discriminate]. Qed.

Lemma pow2_lt (a b : Z) : (a < b)%Z -> pow2 a < pow2 b.
Proof. intros H. apply Qpower_lt_compat_l; [exact H | reflexivity]. Qed.

Lemma pow2_Z (n : Z) : (0 <= n)%Z -> pow2 n == inject_Z (2 ^ n).
Proof. intros H. unfold pow2. now rewrite Zpower_Qpower. Qed.

Lemma pow2_S (a : Z) : pow2 (a + 1) == 2 * pow2 a.
Proof. rewrite pow2_add. change (pow2 1) with 2. ring. Qed.

(** The binade of a positive number. *)
Lemma exponent_spec (q : Q) :
  0 < q -> pow2 (exponent q) <= q /\ q < pow2 (exponent q + 1).
Proof.
  intros Hq. destruct q as [n d]. unfold exponent. cbn [Qnum Qden].
  assert (Hn : (0 < n)%Z).
  { unfold Qlt in Hq. cbn in Hq. lia. }
  set (L := Z.log2 n). set (M := Z.log2 (Z.pos d)).
  assert (HL : (0 <= L)%Z) by apply Z.log2_nonneg.
  assert (HM : (0 <= M)%Z) by apply Z.log2_nonneg.
  destruct (Z.log2_spec n Hn) as [HL1 HL2]. fold L in HL1, HL2.
  destruct (Z.log2_spec (Z.pos d) ltac:(lia)) as [HM1 HM2]. fold M in HM1, HM2.
  assert (Eq : n # d == inject_Z n / inject_Z (Z.pos d)) by apply Qmake_Qdiv.
  unfold Z.succ in HL2, HM2.
  assert (Ha1 : pow2 L <= inject_Z n).
  { rewrite (pow2_Z L HL), <- Zle_Qle. exact HL1. }
  assert (Ha2 : inject_Z n < 2 * pow2 L).
  { rewrite <- pow2_S, (pow2_Z (L + 1)), <- Zlt_Qlt by lia. exact HL2. }
  assert (Hb1 : pow2 M <= inject_Z (Z.pos d)).
  { rewrite (pow2_Z M HM), <- Zle_Qle. exact HM1. }
  assert (Hb2 : inject_Z (Z.pos d) < 2 * pow2 M).
  { rewrite <- pow2_S, (pow2_Z (M + 1)), <- Zlt_Qlt by lia. exact HM2. }
  pose proof (pow2_pos L) as HP. pose proof (pow2_pos M) as HQ.
  assert (E1 : pow2 (L - M - 1) == pow2 L / (2 * pow2 M)).
  { replace (L - M - 1)%Z with (L - (M + 1))%Z by lia.
    now rewrite pow2_sub, pow2_S. }
  assert (E2 : pow2 (L - M + 1) == 2 * pow2 L / pow2 M).
  { replace (L - M + 1)%Z with (L + 1 - M)%Z by lia.
    now rewrite pow2_sub, pow2_S. }
  assert (E3 : pow2 (L - M) == pow2 L / pow2 M) by apply pow2_sub.
  revert Eq Ha1 Ha2 Hb1 Hb2 HP HQ E1 E2 E3.
  generalize (inject_Z n) (inject_Z (Z.pos d)) (pow2 L) (pow2 M).
  intros a b P Qm Eq Ha1 Ha2 Hb1 Hb2 HP HQ E1 E2 E3.
  assert (Hlow : pow2 (L - M - 1) <= n # d).
  { rewrite Eq, E1. apply Qle_shift_div_l; [lra|].
    assert (Ed : P / (2 * Qm) * b == P * b / (2 * Qm)) by (field; lra).
    rewrite Ed.
    apply Qle_shift_div_r; [lra|]. nra. }
  assert (Hhigh : n # d < pow2 (L - M + 1)).
  { rewrite Eq, E2. apply Qlt_shift_div_r; [lra|].
    assert (Ed : 2 * P / Qm * b == 2 * P * b / Qm) by (field; lra).
    rewrite Ed.
    apply Qlt_shift_div_l; [lra|]. nra. }
  destruct (Qle_bool (pow2 (L - M)) (n # d)) eqn:E.
  - apply Qle_bool_iff in E. split; [exact E | exact Hhigh].
  - split; [exact Hlow|].
    replace (L - M - 1 + 1)%Z with (L - M)%Z by lia.
    destruct (Qlt_le_dec (n # d) (pow2 (L - M))) as [H | H]; [exact H|].
    apply Qle_bool_iff in H. congruence.
Qed.

Lemma exponent_unique (q : Q) (e : Z) :
  pow2 e <= q -> q < pow2 (e + 1) -> exponent q = e.
Proof.
  intros H1 H2.
  assert (Hq : 0 < q) by (pose proof (pow2_pos e); lra).
  destruct (exponent_spec q Hq) as [G1 G2].
  destruct (Z.lt_trichotomy (exponent q) e) as [Hlt | [Heq | Hgt]];
    [exfalso | exact Heq | exfalso].
  - assert (pow2 (exponent q + 1) <= pow2 e) by (apply pow2_le; lia). lra.
  - assert (pow2 (e + 1) <= pow2 (exponent q)) by (apply pow2_le; lia). lra.
Qed.

Lemma exponent_proper (x y : Q) : 0 < x -> x == y -> exponent x = exponent y.
Proof.
  intros Hx E. symmetry. destruct (exponent_spec x Hx) as [G1 G2].
  apply exponent_unique; rewrite <- E; assumption.
Qed.

Lemma exponent_mono (x y : Q) : 0 < x -> x <= y -> (exponent x <= exponent y)%Z.
Proof.
  intros Hx Hxy.
  destruct (exponent_spec x Hx) as [G1 G2].
  destruct (exponent_spec y ltac:(lra)) as [K1 K2].
  destruct (Z_le_gt_dec (exponent x) (exponent y)) as [H | H]; [exact H|].
  exfalso.
  assert (pow2 (exponent y + 1) <= pow2 (exponent x)) by (apply pow2_le; lia).
  lra.
Qed.

(** Rounding to the nearest integer. *)
Lemma round_half_even_near (r : Q) :
  inject_Z (round_half_even r) - r <= 1 # 2 /\
  r - inject_Z (round_half_even r) <= 1 # 2.
Proof.
  unfold round_half_even.
  pose proof (Qfloor_le r) as H1. pose proof (Qlt_floor r) as H2.
  rewrite inject_Z_plus in H2. change (inject_Z 1) with 1 in H2.
  destruct (Qcompare_spec (r - inject_Z (Qfloor r)) (1 # 2)) as [E | E | E].
  - destruct (Z.even (Qfloor r)).
    + lra.
    + rewrite inject_Z_plus. change (inject_Z 1) with 1. lra.
  - lra.
  - rewrite inject_Z_plus. change (inject_Z 1) with 1. lra.
Qed.

Lemma Qfloor_unique (q : Q) (z : Z) :
  inject_Z z <= q -> q < inject_Z z + 1 -> Qfloor q = z.
Proof.
  intros H1 H2.
  pose proof (Qfloor_le q) as F1. pose proof (Qlt_floor q) as F2.
  rewrite inject_Z_plus in F2. change (inject_Z 1) with 1 in F2.
  assert (G1 : inject_Z z < inject_Z (Qfloor q) + 1) by lra.
  assert (G2 : inject_Z (Qfloor q) < inject_Z z + 1) by lra.
  change 1 with (inject_Z 1) in G1, G2.
  rewrite <- inject_Z_plus, <- Zlt_Qlt in G1, G2. lia.
Qed.

Lemma round_half_even_Z (z : Z) : round_half_even (inject_Z z) = z.
Proof.
  unfold round_half_even. rewrite Qfloor_Z.
  destruct (Qcompare_spec (inject_Z z - inject_Z z) (1 # 2)) as [E | E | E].
  - exfalso. lra.
  - reflexivity.
  - exfalso. lra.
Qed.

Lemma round_half_even_proper (x y : Q) :
  x == y -> round_half_even x = round_half_even y.
Proof.
  intros E. unfold round_half_even.
  assert (Ef : Qfloor x = Qfloor y) by now rewrite E.
  rewrite Ef.
  assert (Ec : (x - inject_Z (Qfloor y) ?= 1 # 2) = (y - inject_Z (Qfloor y) ?= 1 # 2)).
  { now rewrite E. }
  now rewrite Ec.
Qed.

Lemma round_half_even_mono (x y : Q) :
  x <= y -> (round_half_even x <= round_half_even y)%Z.
Proof.
  intros Hxy.
  assert (Hf : (Qfloor x <= Qfloor y)%Z) by now apply Qfloor_resp_le.
  destruct (Z_le_lt_eq_dec _ _ Hf) as [Hlt | Heq].
  - (* different floors *)
    assert (Hx : (round_half_even x <= Qfloor x + 1)%Z).
    { unfold round_half_even.
      destruct (_ ?= _); [destruct (Z.even _)| |]; lia. }
    assert (Hy : (Qfloor y <= round_half_even y)%Z).
    { unfold round_half_even.
      destruct (_ ?= _); [destruct (Z.even _)| |]; lia. }
    lia.
  - unfold round_half_even. rewrite <- Heq.
    destruct (Qcompare_spec (x - inject_Z (Qfloor x)) (1 # 2)) as [E | E | E];
    destruct (Qcompare_spec (y - inject_Z (Qfloor x)) (1 # 2)) as [E' | E' | E'];
      try (destruct (Z.even (Qfloor x))); try lia; exfalso; lra.
Qed.

Lemma round_pos_unfold (q : Q) :
  round_pos q
  = inject_Z (round_half_even (q / pow2 (last_digit q))) * pow2 (last_digit q).
Proof. reflexivity. Qed.

Lemma round_pos_proper (x y : Q) :
  0 < x -> x == y -> round_pos x == round_pos y.
Proof.
  intros Hx E. rewrite !round_pos_unfold. unfold last_digit.
  rewrite (exponent_proper x y Hx E).
  set (u := Z.max (exponent y - 52) (-1074)).
  assert (Er : round_half_even (x / pow2 u) = round_half_even (y / pow2 u)).
  { apply round_half_even_proper. now rewrite E. }
  now rewrite Er.
Qed.

Lemma div_pow2 (q : Q) (u : Z) : q / pow2 u * pow2 u == q.
Proof. pose proof (pow2_pos u). field. lra. Qed.

Lemma round_pos_near (q : Q) :
  Qabs (round_pos q - q) <= pow2 (last_digit q - 1).
Proof.
  rewrite round_pos_unfold. set (u := last_digit q).
  pose proof (round_half_even_near (q / pow2 u)) as [H1 H2].
  pose proof (pow2_pos u) as Hu.
  assert (Eu : pow2 (u - 1) == pow2 u / 2).
  { rewrite pow2_sub. change (pow2 1) with 2. reflexivity. }
  pose proof (div_pow2 q u) as Eq.
  rewrite Eu. apply Qabs_Qle_condition.
  revert H1 H2 Eq. generalize (q / pow2 u) (round_half_even (q / pow2 u)).
  intros t m H1 H2 Eq.
  assert (Hhalf : pow2 u / 2 == (1 # 2) * pow2 u) by (field).
  rewrite Hhalf. split.
  - assert (E : inject_Z m * pow2 u - q == (inject_Z m - t) * pow2 u)
      by (rewrite <- Eq; ring).
    rewrite E. nra.
  - assert (E : inject_Z m * pow2 u - q == (inject_Z m - t) * pow2 u)
      by (rewrite <- Eq; ring).
    rewrite E. nra.
Qed.

(** The digits kept of a positive number: between 0 and [2^53]. *)
Lemma round_pos_digits (q : Q) :
  0 < q ->
  (0 <= round_half_even (q / pow2 (last_digit q)) <= 2 ^ 53)%Z.
Proof.
  intros Hq. set (u := last_digit q).
  pose proof (pow2_pos u) as Hu.
  destruct (exponent_spec q Hq) as [_ G2].
  split.
  - rewrite <- (round_half_even_Z 0). apply round_half_even_mono.
    apply Qle_shift_div_l; [exact Hu|]. change (inject_Z 0) with 0. lra.
  - rewrite <- (round_half_even_Z (2 ^ 53)). apply round_half_even_mono.
    apply Qle_shift_div_r; [exact Hu|].
    rewrite <- (pow2_Z 53) by lia. rewrite <- pow2_add.
    apply Qle_trans with (pow2 (exponent q + 1)); [lra|].
    apply pow2_le. unfold u, last_digit. lia.
Qed.

Lemma round_pos_nonneg (q : Q) : 0 < q -> 0 <= round_pos q.
Proof.
  intros Hq. rewrite round_pos_unfold.
  destruct (round_pos_digits q Hq) as [H _].
  apply Qmult_le_0_compat; [|apply Qlt_le_weak, pow2_pos].
  change 0 with (inject_Z 0). now rewrite <- Zle_Qle.
Qed.

(** A number with at most 53 digits above the least exponent is kept. *)
Lemma round_pos_fixed_below (q : Q) (m u0 : Z) :
  (0 < m < 2 ^ 53)%Z -> (-1074 <= u0)%Z ->
  q == inject_Z m * pow2 u0 -> round_pos q == q.
Proof.
  intros Hm Hu0 Eq.
  pose proof (pow2_pos u0) as Hp0.
  assert (Hm0 : 0 < inject_Z m).
  { change 0 with (inject_Z 0). rewrite <- Zlt_Qlt. lia. }
  assert (Hq : 0 < q) by (rewrite Eq; nra).
  destruct (exponent_spec q Hq) as [G1 _].
  assert (Hlt : q < pow2 (53 + u0)).
  { rewrite Eq, pow2_add, (pow2_Z 53) by lia.
    assert (inject_Z m < inject_Z (2 ^ 53)) by (rewrite <- Zlt_Qlt; lia).
    nra. }
  assert (He : (exponent q < 53 + u0)%Z).
  { destruct (Z_lt_ge_dec (exponent q) (53 + u0)) as [H | H]; [exact H|].
    exfalso. assert (pow2 (53 + u0) <= pow2 (exponent q)) by (apply pow2_le; lia).
    lra. }
  rewrite round_pos_unfold. set (u := last_digit q).
  assert (Hu : (u <= u0)%Z) by (unfold u, last_digit; lia).
  pose proof (pow2_pos u) as Hp.
  assert (Et : q / pow2 u == inject_Z (m * 2 ^ (u0 - u))).
  { rewrite inject_Z_mult, <- (pow2_Z (u0 - u)) by lia.
    rewrite pow2_sub, Eq. field. lra. }
  rewrite (round_half_even_proper _ _ Et), round_half_even_Z.
  rewrite <- Et. apply div_pow2.
Qed.

Lemma round_pos_fixed (q : Q) (m u0 : Z) :
  (0 < m <= 2 ^ 53)%Z -> (-1074 <= u0)%Z ->
  q == inject_Z m * pow2 u0 -> round_pos q == q.
Proof.
  intros Hm Hu0 Eq.
  destruct (Z_lt_ge_dec m (2 ^ 53)) as [Hlt | Hge].
  - apply (round_pos_fixed_below q m u0); [lia | exact Hu0 | exact Eq].
  - assert (m = 2 ^ 53)%Z by lia. subst m.
    apply (round_pos_fixed_below q (2 ^ 52) (u0 + 1)); [lia | lia |].
    rewrite Eq, pow2_S.
    assert (E : inject_Z (2 ^ 53) == 2 * inject_Z (2 ^ 52)) by reflexivity.
    rewrite E. ring.
Qed.

Lemma round_pos_idem (q : Q) :
  0 < q -> 0 < round_pos q -> round_pos (round_pos q) == round_pos q.
Proof.
  intros Hq Hr.
  destruct (round_pos_digits q Hq) as [D1 D2].
  apply (round_pos_fixed _ (round_half_even (q / pow2 (last_digit q)))
                         (last_digit q)).
  - split; [|exact D2].
    destruct (Z_le_lt_eq_dec _ _ D1) as [H | H]; [exact H|].
    exfalso. rewrite round_pos_unfold, <- H in Hr.
    change (inject_Z 0) with 0 in Hr. lra.
  - unfold last_digit. lia.
  - rewrite round_pos_unfold. reflexivity.
Qed.

Lemma round_pos_mono (x y : Q) :
  0 < x -> x <= y -> round_pos x <= round_pos y.
Proof.
  intros Hx Hxy. assert (Hy : 0 < y) by lra.
  pose proof (exponent_mono x y Hx Hxy) as He.
  rewrite !round_pos_unfold.
  set (ux := last_digit x). set (uy := last_digit y).
  assert (Hu : (ux <= uy)%Z) by (unfold ux, uy, last_digit; lia).
  pose proof (pow2_pos ux) as Hpx. pose proof (pow2_pos uy) as Hpy.
  destruct (Z_le_lt_eq_dec _ _ Hu) as [Hlt | Heq].
  - (* the binades differ *)
    assert (Huy : uy = (exponent y - 52)%Z).
    { unfold ux, uy, last_digit in *. lia. }
    destruct (round_pos_digits x Hx) as [_ Dx]. fold ux in Dx.
    destruct (exponent_spec y Hy) as [Gy _].
    apply Qle_trans with (pow2 (exponent y)).
    + apply Qle_trans with (inject_Z (2 ^ 53) * pow2 ux).
      * apply Qmult_le_compat_r; [|lra]. now rewrite <- Zle_Qle.
      * rewrite <- (pow2_Z 53), <- pow2_add by lia. apply pow2_le. lia.
    + assert (Hd : (2 ^ 52 <= round_half_even (y / pow2 uy))%Z).
      { rewrite <- (round_half_even_Z (2 ^ 52)). apply round_half_even_mono.
        apply Qle_shift_div_l; [exact Hpy|].
        rewrite <- (pow2_Z 52), <- pow2_add by lia.
        replace (52 + uy)%Z with (exponent y) by lia. exact Gy. }
      apply Qle_trans with (inject_Z (2 ^ 52) * pow2 uy).
      * rewrite <- (pow2_Z 52), <- pow2_add by lia.
        replace (52 + uy)%Z with (exponent y) by lia. apply Qle_refl.
      * apply Qmult_le_compat_r; [|lra]. now rewrite <- Zle_Qle.
  - rewrite <- Heq. apply Qmult_le_compat_r; [|lra].
    rewrite <- Zle_Qle. apply round_half_even_mono.
    apply Qle_shift_div_l; [exact Hpx|]. rewrite div_pow2. exact Hxy.
Qed.

(** The sign of a number, on its numerator. *)
Lemma round64_pos (x : Q) : 0 < x -> round64 x = round_pos x.
Proof.
  intros H. unfold round64. destruct x as [[|p|p] d]; cbn [Qnum];
    [|reflexivity|]; unfold Qlt in H; cbn in H; lia.
Qed.

Lemma round64_neg (x : Q) : x < 0 -> round64 x = - round_pos (- x).
Proof.
  intros H. unfold round64. destruct x as [[|p|p] d]; cbn [Qnum];
    [| |reflexivity]; unfold Qlt in H; cbn in H; lia.
Qed.

Lemma round64_zero (x : Q) : x == 0 -> round64 x = 0.
Proof.
  intros H. unfold round64. destruct x as [[|p|p] d]; cbn [Qnum];
    [reflexivity| |]; unfold Qeq in H; cbn in H; lia.
Qed.

Lemma sign_cases (x : Q) : x < 0 \/ x == 0 \/ 0 < x.
Proof.
  destruct (Qlt_le_dec x 0) as [H | H]; [now left|].
  destruct (Qlt_le_dec 0 x) as [H' | H']; [now right; right|].
  right. left. lra.
Qed.

Lemma round64_proper (x y : Q) : x == y -> round64 x == round64 y.
Proof.
  intros E. destruct (sign_cases x) as [H | [H | H]].
  - rewrite (round64_neg x H), (round64_neg y) by lra.
    apply Qopp_comp. apply round_pos_proper; [lra | now rewrite E].
  - rewrite (round64_zero x H), (round64_zero y) by lra. reflexivity.
  - rewrite (round64_pos x H), (round64_pos y) by lra.
    now apply round_pos_proper.
Qed.

Lemma round64_odd (x : Q) : round64 (- x) == - round64 x.
Proof.
  destruct (sign_cases x) as [H | [H | H]].
  - rewrite (round64_neg x H), (round64_pos (- x)) by lra. ring.
  - rewrite (round64_zero x H), (round64_zero (- x)) by lra. reflexivity.
  - rewrite (round64_pos x H), (round64_neg (- x)) by lra.
    apply Qopp_comp. apply round_pos_proper; [lra | ring].
Qed.

Lemma round64_sign (x : Q) :
  (0 <= x -> 0 <= round64 x) /\ (x <= 0 -> round64 x <= 0).
Proof.
  destruct (sign_cases x) as [H | [H | H]].
  - rewrite (round64_neg x H).
    pose proof (round_pos_nonneg (- x) ltac:(lra)). split; intros; lra.
  - rewrite (round64_zero x H). split; intros; lra.
  - rewrite (round64_pos x H).
    pose proof (round_pos_nonneg x H). split; intros; lra.
Qed.

Lemma round64_mono (x y : Q) : x <= y -> round64 x <= round64 y.
Proof.
  intros Hxy.
  destruct (sign_cases x) as [Hx | [Hx | Hx]].
  - destruct (sign_cases y) as [Hy | [Hy | Hy]].
    + rewrite (round64_neg x Hx), (round64_neg y Hy).
      assert (round_pos (- y) <= round_pos (- x))
        by (apply round_pos_mono; lra).
      lra.
    + destruct (round64_sign x) as [_ Sx]. destruct (round64_sign y) as [Sy _].
      specialize (Sx ltac:(lra)). specialize (Sy ltac:(lra)). lra.
    + destruct (round64_sign x) as [_ Sx]. destruct (round64_sign y) as [Sy _].
      specialize (Sx ltac:(lra)). specialize (Sy ltac:(lra)). lra.
  - destruct (round64_sign x) as [_ Sx]. destruct (round64_sign y) as [Sy _].
    specialize (Sx ltac:(lra)). specialize (Sy ltac:(lra)). lra.
  - rewrite (round64_pos x Hx), (round64_pos y) by lra.
    now apply round_pos_mono.
Qed.

Lemma round64_idem (x : Q) : round64 (round64 x) == round64 x.
Proof.
  assert (Hpos : forall q, 0 < q -> round64 (round_pos q) == round_pos q).
  { intros q Hq. pose proof (round_pos_nonneg q Hq) as Hr.
    destruct (Qlt_le_dec 0 (round_pos q)) as [H | H].
    - rewrite (round64_pos _ H). now apply round_pos_idem.
    - assert (E : round_pos q == 0) by lra.
      rewrite (round64_zero _ E). now rewrite E. }
  destruct (sign_cases x) as [H | [H | H]].
  - rewrite (round64_neg x H), round64_odd. apply Qopp_comp, Hpos. lra.
  - rewrite (round64_zero x H). reflexivity.
  - rewrite (round64_pos x H). now apply Hpos.
Qed.

Lemma round64_int (z : Z) :
  (Z.abs z <= 2 ^ 53)%Z -> round64 (inject_Z z) == inject_Z z.
Proof.
  intros Hz.
  assert (Hpos : forall m, (0 < m <= 2 ^ 53)%Z ->
                   round64 (inject_Z m) == inject_Z m).
  { intros m Hm.
    assert (H : 0 < inject_Z m)
      by (change 0 with (inject_Z 0); rewrite <- Zlt_Qlt; lia).
    rewrite (round64_pos _ H).
    apply (round_pos_fixed _ m 0); [exact Hm | lia |].
    change (pow2 0) with 1. ring. }
  destruct (Z.lt_trichotomy z 0) as [H | [-> | H]].
  - assert (E : inject_Z z == - inject_Z (- z)).
    { rewrite inject_Z_opp. ring. }
    rewrite (round64_proper _ _ E), round64_odd, Hpos by lia.
    symmetry. exact E.
  - reflexivity.
  - apply Hpos. lia.
Qed.

Lemma round64_near (x : Q) :
  Qabs x <= 2048 -> Qabs (round64 x - x) <= 1 # 2 ^ 43.
Proof.
  assert (E2048 : 2048 == inject_Z 2048) by reflexivity.
  assert (Hpos : forall q, 0 < q -> q <= 2048 ->
                   Qabs (round_pos q - q) <= 1 # 2 ^ 43).
  { intros q H0 H1.
    destruct (Qlt_le_dec q 2048) as [Hlt | Hge].
    - eapply Qle_trans; [apply round_pos_near|].
      assert (He : (exponent q < 11)%Z).
      { destruct (exponent_spec q H0) as [G1 _].
        destruct (Z_lt_ge_dec (exponent q) 11) as [H | H]; [exact H|].
        exfalso. assert (pow2 11 <= pow2 (exponent q)) by (apply pow2_le; lia).
        change (pow2 11) with 2048 in *. lra. }
      apply Qle_trans with (pow2 (-43)).
      + apply pow2_le. unfold last_digit. lia.
      + apply Qle_lteq. right. reflexivity.
    - assert (E : q == inject_Z 2048 * pow2 0).
      { change (pow2 0) with 1. rewrite <- E2048. lra. }
      rewrite (round_pos_fixed q 2048 0 ltac:(split; [lia | apply Z.lt_le_incl; reflexivity])
                 ltac:(lia) E).
      assert (Ez : q - q == 0) by ring. rewrite Ez. discriminate. }
  intros Hx. apply Qabs_Qle_condition in Hx as [Hx1 Hx2].
  destruct (sign_cases x) as [H | [H | H]].
  - rewrite (round64_neg x H).
    assert (E : - round_pos (- x) - x == - (round_pos (- x) - - x)) by ring.
    rewrite E, Qabs_opp. apply Hpos; lra.
  - rewrite (round64_zero x H).
    assert (E : 0 - x == 0) by lra. rewrite E. discriminate.
  - rewrite (round64_pos x H). apply Hpos; lra.
Qed.

Lemma binary64_faithful : Faithful binary64.
Proof.
  split; unfold rnd, binary64.
  - exact round64_proper.
  - exact round64_mono.
  - exact round64_odd.
  - exact round64_idem.
  - exact round64_int.
  - exact round64_near.
Qed.

End RoundingFacts.

(** ** Facts about [utils.py] *)

Module UtilsFacts.
Import Utils RoundingFacts.
Local Open Scope Q_scope.

Lemma trunc_nonneg (q : Q) : 0 <= q -> trunc q = Qfloor q.
Proof.
  intros H. unfold trunc. apply Qle_bool_iff in H. now rewrite H.
Qed.

Lemma trunc_inject_Z (z : Z) : trunc (inject_Z z) = z.
Proof.
  unfold trunc. destruct (Qle_bool 0 (inject_Z z)).
  - apply Qfloor_Z.
  - apply Qceiling_Z.
Qed.

Lemma floor_bounds (q : Q) :
  inject_Z (Qfloor q) <= q /\ q < inject_Z (Qfloor q) + 1.
Proof.
  pose proof (Qfloor_le q) as H1. pose proof (Qlt_floor q) as H2.
  rewrite inject_Z_plus in H2. change (inject_Z 1) with 1 in H2. auto.
Qed.

(** [fmod] of a number that is not negative by a positive one. *)
Lemma fmod_nonneg (x y : Q) :
  0 <= x -> 0 < y ->
  fmod x y == x - y * inject_Z (Qfloor (x / y)) /\
  0 <= fmod x y /\ fmod x y < y /\ (0 <= Qfloor (x / y))%Z.
Proof.
  intros Hx Hy. unfold fmod.
  assert (Hq : 0 <= x / y).
  { apply Qle_shift_div_l; [exact Hy | lra]. }
  rewrite (trunc_nonneg _ Hq).
  destruct (floor_bounds (x / y)) as [H1 H2].
  assert (E : x == y * (x / y)) by (field; lra).
  set (t := x / y) in *. set (f := inject_Z (Qfloor t)) in *.
  split; [reflexivity|]. split; [nra|]. split; [nra|].
  assert (Hlt : (-1 < Qfloor t)%Z); [|lia].
  rewrite Zlt_Qlt. fold f. change (inject_Z (-1)) with (-1). lra.
Qed.

Section Clock.

Context {R : Rounding} {F : Faithful R}.

(** With a remainder that is not negative nothing is moved. *)
Lemma py_mod_nonneg (x y : Q) : 0 <= x -> 0 < y -> py_mod x y = fmod x y.
Proof.
  intros Hx Hy. unfold py_mod.
  destruct (fmod_nonneg x y Hx Hy) as (_ & H0 & _).
  apply Qle_bool_iff in H0. rewrite H0. simpl. now rewrite andb_false_r.
Qed.

(** The floor division of CPython on a number that is not negative and
    the divisor 60 is the floor of the quotient, as long as that is small:
    the product of the divisor and the quotient is then a number of the
    format. *)
Lemma py_floordiv_60 (x : Q) :
  0 <= x -> x <= 2040 -> py_floordiv x 60 == inject_Z (Qfloor (x / 60)).
Proof.
  intros Hx Hhi. unfold py_floordiv.
  destruct (fmod_nonneg x 60 Hx ltac:(lra)) as (Hrem & H0 & H60 & Hk).
  set (rem := fmod x 60) in *. set (k := Qfloor (x / 60)) in *.
  assert (Hkq : inject_Z k <= 34).
  { destruct (floor_bounds (x / 60)) as [H1 _]. fold k in H1.
    assert (x / 60 <= 34) by (apply Qle_shift_div_r; lra). lra. }
  assert (Hk34 : (k <= 34)%Z).
  { rewrite Zle_Qle. exact Hkq. }
  assert (E1 : x - rem == inject_Z (60 * k)).
  { rewrite inject_Z_mult. change (inject_Z 60) with 60. lra. }
  assert (E2 : rnd (x - rem) == inject_Z (60 * k)).
  { rewrite (rnd_proper _ _ E1). apply rnd_Z. lia. }
  assert (E3 : rnd (x - rem) / 60 == inject_Z k).
  { rewrite E2, inject_Z_mult. change (inject_Z 60) with 60. field. }
  assert (E4 : rnd (rnd (x - rem) / 60) == inject_Z k).
  { rewrite (rnd_proper _ _ E3). apply rnd_Z. lia. }
  apply Qle_bool_iff in H0. rewrite H0.
  cbn [negb andb]. rewrite andb_false_r.
  set (quo := rnd (rnd (x - rem) / 60)) in *.
  destruct (Qeq_bool quo 0) eqn:Hz.
  - apply Qeq_bool_iff in Hz. rewrite <- E4, Hz. reflexivity.
  - assert (Ef : Qfloor quo = k).
    { rewrite (Qfloor_comp _ _ E4). apply Qfloor_Z. }
    rewrite Ef.
    assert (E5 : quo - inject_Z k == 0) by lra.
    assert (E6 : rnd (quo - inject_Z k) == 0).
    { rewrite (rnd_proper _ _ E5). apply rnd_0. }
    assert (Hle : Qle_bool (rnd (quo - inject_Z k)) (1 # 2) = true).
    { apply Qle_bool_iff. rewrite E6. discriminate. }
    rewrite Hle. reflexivity.
Qed.

Lemma trunc_proper (a b : Q) : a == b -> trunc a = trunc b.
Proof.
  intros E. unfold trunc.
  assert (Hb : Qle_bool 0 a = Qle_bool 0 b).
  { destruct (Qle_bool 0 a) eqn:Ha, (Qle_bool 0 b) eqn:Hb'; auto.
    - apply Qle_bool_iff in Ha. rewrite E in Ha. apply Qle_bool_iff in Ha.
      congruence.
    - apply Qle_bool_iff in Hb'. rewrite <- E in Hb'.
      apply Qle_bool_iff in Hb'. congruence. }
  rewrite Hb. destruct (Qle_bool 0 b).
  - now apply Qfloor_comp.
  - now apply Qceiling_comp.
Qed.

(** The three cases of the range adjustment. *)
Lemma adjust_cases (x : Q) :
  (x < 1 -> adjust x = rnd (x + 12)) /\
  (1 <= x <= 12 -> adjust x = x) /\
  (12 < x -> 0 < adjust x <= 12 /\
             exists k : Z, x == adjust x + 12 * inject_Z k).
Proof.
  unfold adjust. split_and!.
  - intros H. destruct (Qle_bool 1 x) eqn:E; simpl; [|reflexivity].
    apply Qle_bool_iff in E. lra.
  - intros [H1 H2]. apply Qle_bool_iff in H1, H2. now rewrite H1, H2.
  - intros H.
    assert (E1 : Qle_bool 1 x = true) by (apply Qle_bool_iff; lra).
    assert (E2 : Qle_bool x 12 = false).
    { destruct (Qle_bool x 12) eqn:E; [|reflexivity].
      apply Qle_bool_iff in E. lra. }
    rewrite E1, E2. cbn [negb].
    rewrite (py_mod_nonneg x 12) by lra.
    destruct (fmod_nonneg x 12 ltac:(lra) ltac:(lra)) as (Hrem & H0 & H12 & _).
    destruct (Qeq_bool (fmod x 12) 0) eqn:E3.
    + apply Qeq_bool_iff in E3. split; [lra|].
      exists (Qfloor (x / 12) - 1)%Z.
      unfold Z.sub. rewrite inject_Z_plus.
      change (inject_Z (- (1))) with (-1). lra.
    + apply Qeq_bool_neq in E3. split; [lra|].
      exists (Qfloor (x / 12)). lra.
Qed.

Lemma adjust_bounds (x : Q) : -12 <= x -> 0 <= adjust x /\ adjust x <= 13.
Proof.
  intros Hx. destruct (adjust_cases x) as (H1 & H2 & H3).
  destruct (Qlt_le_dec x 1) as [Hlt | Hge].
  - rewrite (H1 Hlt). split.
    + apply rnd_nonneg. lra.
    + apply (rnd_le_Z _ 13); [discriminate|].
      change (inject_Z 13) with 13. lra.
  - destruct (Qlt_le_dec 12 x) as [Hgt | Hle].
    + destruct (H3 Hgt) as [[Ha Hb] _]. lra.
    + rewrite (H2 (conj Hge Hle)). lra.
Qed.

(** The hour and the minutes of a number of hours from 0 to 2000: the hour
    is the floor, the minutes lie between 0 and 60, and together they are
    at most the number, and more than the number less a minute, up to the
    rounding of the product. *)
Lemma minutes_of_fraction (d : Q) :
  0 <= d -> d <= 2000 ->
  let hours := trunc d in
  let minutes := trunc (rnd (rnd (d - inject_Z hours) * 60)) in
  hours = Qfloor d /\ (0 <= minutes <= 60)%Z /\
  d * 60 - 1 - (1 # 2 ^ 37) < inject_Z (hours * 60 + minutes) /\
  inject_Z (hours * 60 + minutes) <= d * 60 + (1 # 2 ^ 37).
Proof.
  intros Hd Hhi hours minutes.
  assert (Hh : hours = Qfloor d) by (apply trunc_nonneg; exact Hd).
  destruct (floor_bounds d) as [H1 H2]. rewrite <- Hh in H1, H2.
  set (f := rnd (d - inject_Z hours)) in *.
  destruct (rnd_close (d - inject_Z hours)) as [Hf1 Hf2]; [lra | lra |].
  fold f in Hf1, Hf2.
  assert (Hf0 : 0 <= f) by (apply rnd_nonneg; lra).
  assert (Hfle : f <= 1).
  { apply (rnd_le_Z _ 1); [discriminate|]. change (inject_Z 1) with 1. lra. }
  set (p := rnd (f * 60)) in *.
  destruct (rnd_close (f * 60)) as [Hp1 Hp2]; [lra | lra |].
  fold p in Hp1, Hp2.
  assert (Hp0 : 0 <= p) by (apply rnd_nonneg; lra).
  assert (Hp60 : p <= 60).
  { apply (rnd_le_Z _ 60); [discriminate|]. change (inject_Z 60) with 60. lra. }
  assert (Hm : minutes = Qfloor p) by (apply trunc_nonneg; exact Hp0).
  destruct (floor_bounds p) as [H3 H4]. rewrite <- Hm in H3, H4.
  assert (E43 : (1 # 2 ^ 43) == 1 # 8796093022208) by reflexivity.
  assert (E37 : (1 # 2 ^ 37) == 1 # 137438953472) by reflexivity.
  rewrite E43 in Hf1, Hf2, Hp1, Hp2. rewrite E37.
  assert (Hlo : (0 <= minutes)%Z).
  { assert ((-1 < minutes)%Z); [|lia].
    rewrite Zlt_Qlt. change (inject_Z (-1)) with (-1). lra. }
  assert (Hup : (minutes <= 60)%Z).
  { rewrite Zle_Qle. change (inject_Z 60) with 60. lra. }
  split; [exact Hh|]. split; [lia|].
  rewrite inject_Z_plus, inject_Z_mult. change (inject_Z 60) with 60.
  split; lra.
Qed.

End Clock.

Section Claims.

Context {R : Rounding} {F : Faithful R}.


(** C9, amended: on a null input [float_to_clock] returns [None],
    [parse_clock] returns [NaN], and [decimal_to_clock_str] returns the
    text ["Unknown"]. *)
Theorem null_inputs (v : pyval) :
  isna v = true ->
  float_to_clock v = inr PyNone /\
  parse_clock v = PyFloat NaN /\
  isna (parse_clock v) = true /\
  decimal_to_clock_str v = inr (PyStr "Unknown").
Proof.
  intros Hv. unfold float_to_clock, decimal_to_clock_str. rewrite Hv.
  destruct v as [|[|q]|z|s]; try discriminate Hv; repeat split.
Qed.

End Claims.

(** The claims as stated are refuted in the arithmetic of binary64. *)
#[local] Existing Instance binary64.



Lemma null_inputs_witness :
  isna PyNone = true /\
  float_to_clock PyNone = inr PyNone /\
  parse_clock PyNone = PyFloat NaN /\
  isna (parse_clock PyNone) = true /\
  decimal_to_clock_str PyNone = inr (PyStr "Unknown").
Proof.
  split; [reflexivity|]. apply (null_inputs PyNone). reflexivity.
Defined.

(** C9, the claim as stated fails for [decimal_to_clock_str]: a null
    input is answered by the text ["Unknown"], which is not null. *)
Lemma decimal_to_clock_str_null_not_null :
  decimal_to_clock_str PyNone = inr (PyStr "Unknown") /\
  decimal_to_clock_str (PyFloat NaN) = inr (PyStr "Unknown") /\
  isna (PyStr "Unknown") = false /\
  ~ (exists v, decimal_to_clock_str PyNone = inr v /\ Spec.is_null v).
Proof.
  repeat split.
  intros (v & Hv & [Hn | Hn]); subst v; discriminate Hv.
Qed.

End UtilsFacts.

(** ** Further facts about [utils.py] *)

Module UtilsExtra.
Import Utils Spec Spec2 RoundingFacts UtilsFacts.
Local Open Scope Q_scope.

Lemma all_read_back_spec (print_hour : Z -> string) (hours minutes h m : Z) :
  all_read_back print_hour hours minutes = true ->
  (0 <= h < hours)%Z -> (0 <= m < minutes)%Z ->
  py_int <$> split ":" (print_hour h +:+ ":" +:+ format_02d m)
  = [Some h; Some m].
Proof.
  unfold all_read_back. intros Hall Hh Hm.
  rewrite forallb_forall in Hall.
  assert (Hin : In h (seqZ 0 hours)).
  { apply list_elem_of_In, elem_of_seqZ. lia. }
  specialize (Hall h Hin). rewrite forallb_forall in Hall.
  assert (Him : In m (seqZ 0 minutes)).
  { apply list_elem_of_In, elem_of_seqZ. lia. }
  specialize (Hall m Him). unfold reads_back in Hall.
  now apply bool_decide_eq_true in Hall.
Qed.

Lemma clock_texts_read_back : all_read_back str_of_int 14 61 = true.
Proof. vm_compute. reflexivity. Qed.

Lemma day_texts_read_back : all_read_back format_02d 25 61 = true.
Proof. vm_compute. reflexivity. Qed.

Section Clock.

Context {R : Rounding} {F : Faithful R}.

(** What [parse_clock] makes of an hour and a minute: their sum in hours,
    within [2^-42] hours. *)
Lemma hours_read (h m : Z) :
  (0 <= h <= 24)%Z -> (0 <= m <= 60)%Z ->
  let q := rnd (inject_Z h + rnd (inject_Z m / inject_Z 60)) in
  Qabs (q - (inject_Z h + inject_Z m / 60)) <= 1 # 2 ^ 42.
Proof.
  intros Hh Hm q.
  assert (Hhq : 0 <= inject_Z h <= 24).
  { change 0 with (inject_Z 0). change 24 with (inject_Z 24).
    rewrite <- !Zle_Qle. lia. }
  assert (Hmq : 0 <= inject_Z m <= 60).
  { change 0 with (inject_Z 0). change 60 with (inject_Z 60).
    rewrite <- !Zle_Qle. lia. }
  change (inject_Z 60) with 60 in *.
  assert (Hm60 : inject_Z m / 60 * 60 == inject_Z m) by field.
  set (mq := inject_Z m / 60) in *.
  destruct (rnd_close mq) as [Ha1 Ha2]; [lra | lra |].
  set (a := rnd mq) in *.
  assert (Ha0 : 0 <= a) by (apply rnd_nonneg; lra).
  assert (Hale : a <= 1).
  { apply (rnd_le_Z _ 1); [discriminate|]. change (inject_Z 1) with 1. lra. }
  destruct (rnd_close (inject_Z h + a)) as [Hq1 Hq2]; [lra | lra |].
  fold q in Hq1, Hq2.
  assert (E43 : (1 # 2 ^ 43) == 1 # 8796093022208) by reflexivity.
  assert (E42 : (1 # 2 ^ 42) == 1 # 4398046511104) by reflexivity.
  rewrite E43 in *. rewrite E42.
  apply Qabs_Qle_condition. split; lra.
Qed.

(** X1: from -12 on, the text of [decimal_to_clock_str] read by
    [parse_clock] is the adjusted value cut to the minute: at most the
    adjusted value and more than it less one minute, up to [2^-40] hours
    of rounding; between 1 and 12 the adjusted value is the value. *)
Theorem clock_text_round_trip (x : Q) :
  -12 <= x ->
  exists (s : string) (q : Q),
    decimal_to_clock_str (PyFloat (Fin x)) = inr (PyStr s) /\
    parse_clock (PyStr s) = PyFloat (Fin q) /\
    q <= adjust x + (1 # 2 ^ 40) /\
    adjust x < q + (1 # 60) + (1 # 2 ^ 40) /\
    (1 <= x <= 12 -> q <= x + (1 # 2 ^ 40) /\ x < q + (1 # 60) + (1 # 2 ^ 40)).
Proof.
  intros Hx.
  destruct (adjust_bounds x Hx) as [Hd Hd13].
  destruct (minutes_of_fraction (adjust x) Hd ltac:(lra))
    as (Hh & Hm & Hlo & Hup).
  set (d := adjust x) in *. set (h := trunc d) in *.
  set (m := trunc (rnd (rnd (d - inject_Z h) * 60))) in *.
  assert (Hh13 : (0 <= h <= 13)%Z).
  { destruct (floor_bounds d) as [Hf1 Hf2]. rewrite <- Hh in Hf1, Hf2.
    assert (-1 < h)%Z.
    { rewrite Zlt_Qlt. change (inject_Z (-1)) with (-1). lra. }
    assert (h <= 13)%Z; [|lia].
    rewrite Zle_Qle. change (inject_Z 13) with 13. lra. }
  exists (str_of_int h +:+ ":" +:+ format_02d m),
         (rnd (inject_Z h + rnd (inject_Z m / inject_Z 60))).
  split; [reflexivity|]. split.
  { unfold parse_clock.
    rewrite (all_read_back_spec str_of_int 14 61 h m clock_texts_read_back)
      by lia.
    reflexivity. }
  pose proof (hours_read h m ltac:(lia) Hm) as Hq. cbv zeta in Hq.
  set (q := rnd (inject_Z h + rnd (inject_Z m / inject_Z 60))) in *.
  apply Qabs_Qle_condition in Hq as [Hq1 Hq2].
  rewrite inject_Z_plus, inject_Z_mult in Hlo, Hup.
  change (inject_Z 60) with 60 in *.
  assert (Hm60 : inject_Z m / 60 * 60 == inject_Z m) by field.
  set (mq := inject_Z m / 60) in *.
  assert (E42 : (1 # 2 ^ 42) == 1 # 4398046511104) by reflexivity.
  assert (E40 : (1 # 2 ^ 40) == 1 # 1099511627776) by reflexivity.
  assert (E37 : (1 # 2 ^ 37) == 1 # 137438953472) by reflexivity.
  rewrite E42 in *. rewrite E37 in *. rewrite E40.
  assert (Hq : q <= d + (1 # 1099511627776) /\
               d < q + (1 # 60) + (1 # 1099511627776)) by (split; lra).
  destruct Hq as [Ha Hb]. split; [exact Ha|]. split; [exact Hb|].
  intros Hin. destruct (adjust_cases x) as (_ & Heq & _).
  specialize (Heq Hin). fold d in Heq. rewrite <- Heq. split; assumption.
Qed.

(** X2: a fraction of a day in [0,1) is printed as [HH:MM] with the hour
    between 0 and 24 and the minute between 0 and 60, and [parse_clock]
    reads the text back as a number of hours within half a minute of the
    input, up to [2^-40] hours of rounding. *)
Theorem day_fraction_round_trip (x : Q) :
  0 <= x -> x < 1 ->
  exists (h m : Z) (q : Q),
    float_to_clock (PyFloat (Fin x))
      = inr (PyStr (format_02d h +:+ ":" +:+ format_02d m)) /\
    (0 <= h <= 24)%Z /\ (0 <= m <= 60)%Z /\
    parse_clock (PyStr (format_02d h +:+ ":" +:+ format_02d m))
      = PyFloat (Fin q) /\
    Qabs (q - x * 24) <= (1 # 120) + (1 # 2 ^ 40).
Proof.
  intros H0 H1.
  set (t1 := rnd (x * 24)).
  destruct (rnd_close (x * 24)) as [Ht1 Ht2]; [lra | lra |].
  fold t1 in Ht1, Ht2.
  assert (Ht0 : 0 <= t1) by (apply rnd_nonneg; lra).
  assert (Ht24 : t1 <= 24).
  { apply (rnd_le_Z _ 24); [discriminate|]. change (inject_Z 24) with 24. lra. }
  set (total := rnd (t1 * 60)).
  destruct (rnd_close (t1 * 60)) as [Hs1 Hs2]; [lra | lra |].
  fold total in Hs1, Hs2.
  assert (Hs0 : 0 <= total) by (apply rnd_nonneg; lra).
  assert (Hs1440 : total <= 1440).
  { apply (rnd_le_Z _ 1440); [discriminate|].
    change (inject_Z 1440) with 1440. lra. }
  destruct (fmod_nonneg total 60 Hs0 ltac:(lra)) as (Hrem & Hr0 & Hr60 & Hk0).
  set (k := Qfloor (total / 60)) in *.
  assert (Hk24 : (k <= 24)%Z).
  { rewrite Zle_Qle. change (inject_Z 24) with 24. lra. }
  set (m := round_half_even (fmod total 60)).
  pose proof (round_half_even_near (fmod total 60)) as [Hm1 Hm2].
  fold m in Hm1, Hm2.
  assert (Hm : (0 <= m <= 60)%Z).
  { assert (-1 < m)%Z by (rewrite Zlt_Qlt; change (inject_Z (-1)) with (-1); lra).
    assert (m < 61)%Z by (rewrite Zlt_Qlt; change (inject_Z 61) with 61; lra).
    lia. }
  exists k, m, (rnd (inject_Z k + rnd (inject_Z m / inject_Z 60))).
  split.
  { unfold float_to_clock. cbn [isna as_float]. fold t1 total.
    rewrite (trunc_proper _ _ (py_floordiv_60 total Hs0 ltac:(lra))).
    fold k. rewrite trunc_inject_Z.
    rewrite (py_mod_nonneg total 60 Hs0) by lra. reflexivity. }
  split; [lia|]. split; [exact Hm|]. split.
  { unfold parse_clock.
    rewrite (all_read_back_spec format_02d 25 61 k m day_texts_read_back)
      by lia.
    reflexivity. }
  pose proof (hours_read k m ltac:(lia) Hm) as Hq. cbv zeta in Hq.
  set (q := rnd (inject_Z k + rnd (inject_Z m / inject_Z 60))) in *.
  apply Qabs_Qle_condition in Hq as [Hq1 Hq2].
  change (inject_Z 60) with 60 in *.
  assert (Hm60 : inject_Z m / 60 * 60 == inject_Z m) by field.
  set (mq := inject_Z m / 60) in *.
  assert (E43 : (1 # 2 ^ 43) == 1 # 8796093022208) by reflexivity.
  assert (E42 : (1 # 2 ^ 42) == 1 # 4398046511104) by reflexivity.
  assert (E40 : (1 # 2 ^ 40) == 1 # 1099511627776) by reflexivity.
  rewrite E43 in *. rewrite E42 in *. rewrite E40.
  apply Qabs_Qle_condition. split; lra.
Qed.

End Clock.

Section Binary64.

#[local] Existing Instance binary64.

(** In binary64 the double 1.5666666666666667 is printed as 1:34 and read
    back. *)
Lemma clock_text_round_trip_witness :
  let x := Examples.double 7055639416213777 52 in
  decimal_to_clock_str (PyFloat (Fin x)) = inr (PyStr "1:34") /\
  exists (s : string) (q : Q),
    decimal_to_clock_str (PyFloat (Fin x)) = inr (PyStr s) /\
    parse_clock (PyStr s) = PyFloat (Fin q) /\
    q <= x + (1 # 2 ^ 40) /\ x < q + (1 # 60) + (1 # 2 ^ 40).
Proof.
  intros x. split; [vm_compute; reflexivity|].
  destruct (clock_text_round_trip (F := binary64_faithful) x)
    as (s & q & Hs & Hq & _ & _ & Hx); [discriminate|].
  exists s, q. split; [exact Hs|]. split; [exact Hq|].
  apply Hx. split; discriminate.
Defined.

(** In binary64 half a minute, the double of [0.5 / 1440], is printed as
    midnight: the half is rounded to the even minute. *)
Lemma day_fraction_round_trip_witness :
  let x := Examples.double 6405119470038039 64 in
  float_to_clock (PyFloat (Fin x)) = inr (PyStr "00:00") /\
  exists (h m : Z) (q : Q),
    float_to_clock (PyFloat (Fin x))
      = inr (PyStr (format_02d h +:+ ":" +:+ format_02d m)) /\
    (0 <= h <= 24)%Z /\ (0 <= m <= 60)%Z /\
    parse_clock (PyStr (format_02d h +:+ ":" +:+ format_02d m))
      = PyFloat (Fin q) /\
    Qabs (q - x * 24) <= (1 # 120) + (1 # 2 ^ 40).
Proof.
  intros x. split; [vm_compute; reflexivity|].
  apply (day_fraction_round_trip (F := binary64_faithful) x);
    [discriminate | reflexivity].
Defined.

End Binary64.

(** X3: [standardize_surface_location] gives [None], ["INT"], ["NON-INT"]
    or its argument, and applying it to its own result changes nothing. *)
Theorem standardize_surface_location_idempotent (v : pyval) :
  (standardize_surface_location v = PyNone \/
   standardize_surface_location v = PyStr "INT" \/
   standardize_surface_location v = PyStr "NON-INT" \/
   standardize_surface_location v = v) /\
  standardize_surface_location (standardize_surface_location v)
  = standardize_surface_location v.
Proof.
  destruct v as [|[|q]|z|s]; try (split; [auto | reflexivity]).
  assert (Hs : standardize_surface_location (PyStr s) =
                 if bool_decide (upper (strip s) ∈ int_synonyms) then PyStr "INT"
                 else if bool_decide (upper (strip s) ∈ non_int_synonyms)
                      then PyStr "NON-INT" else PyStr s) by reflexivity.
  destruct (bool_decide (upper (strip s) ∈ int_synonyms)) eqn:Hi.
  { rewrite Hs. split; [auto | reflexivity]. }
  destruct (bool_decide (upper (strip s) ∈ non_int_synonyms)) eqn:Hn.
  { rewrite Hs. split; [auto | reflexivity]. }
  rewrite !Hs. split; [auto | reflexivity].
Qed.

End UtilsExtra.

(** ** Facts about the record splitter *)

Module SplitterFacts.
Import Splitter Spec Examples.

Lemma ffill_lookup (l : list (Z * row)) :
  forall (last : pyval) (p : nat) (lbl : Z) (r : row),
    l !! p = Some (lbl, r) ->
    ffill last l !! p =
    Some (lbl, <["joint number" :=
                 default last
                   (head (filter (fun v => notna v = true)
                      (reverse ((fun lr => cell lr.2 "joint number")
                                <$> take (S p) l))))]> r).
Proof.
  induction l as [|[l0 r0] l IH]; intros last p lbl r Hp; [discriminate|].
  destruct p as [|p]; simpl in Hp.
  - injection Hp as -> ->. simpl. rewrite ?take_0. simpl.
    rewrite reverse_singleton, filter_cons, filter_nil.
    destruct (decide _) as [H | H]; unfold notna in H;
      destruct (isna (cell r "joint number")); simpl in *;
      try reflexivity; try discriminate; congruence.
  - simpl. rewrite (IH _ p lbl r Hp). do 3 f_equal.
    change (list_fmap (Z * row)%type pyval ?f ?l) with (f <$> l).
    rewrite reverse_cons, filter_app.
    destruct (filter _ (reverse _)) as [|v vs]; simpl.
    + rewrite filter_cons, filter_nil.
      destruct (decide _) as [H | H]; unfold notna in H;
        destruct (isna (cell r0 "joint number")); simpl in *;
        try reflexivity; try discriminate; congruence.
    + reflexivity.
Qed.

Lemma ffill_length (l : list (Z * row)) :
  forall last, length (ffill last l) = length l.
Proof.
  induction l as [|[l0 r0] l IH]; intros last; simpl; [reflexivity|].
  now rewrite IH.
Qed.

(** The positions a filter keeps. *)
Lemma filter_positions {A} (P : A -> Prop) `{!forall x, Decision (P x)}
    (l : list A) :
  exists kept : list nat,
    StronglySorted lt kept /\
    (forall p x, l !! p = Some x -> (p ∈ kept <-> P x)) /\
    (forall p, p ∈ kept -> (p < length l)%nat) /\
    length (filter P l) = length kept /\
    (forall k p, kept !! k = Some p -> filter P l !! k = l !! p).
Proof.
  induction l as [|x l (kept & Hs & Hiff & Hlt & Hlen & Hlook)].
  { exists []. split_and!; try constructor; try done.
    all: intros p; rewrite ?elem_of_nil; try done. }
  assert (Hs' : StronglySorted lt (S <$> kept)).
  { apply (StronglySorted_fmap S lt lt); [|exact Hs]. intros a b. lia. }
  assert (Hin : forall p, S p ∈ S <$> kept <-> p ∈ kept).
  { intros p. rewrite list_elem_of_fmap. split.
    - intros (q & Hq & Hk). injection Hq as ->. exact Hk.
    - eauto. }
  assert (H0 : 0%nat ∉ S <$> kept).
  { rewrite list_elem_of_fmap. intros (q & Hq & _). discriminate. }
  rewrite filter_cons. destruct (decide (P x)) as [HP | HP].
  - exists (0%nat :: (S <$> kept)). split_and!.
    + constructor; [exact Hs'|]. apply Forall_fmap, Forall_forall.
      intros q _. simpl. lia.
    + intros [|p] y Hy; simpl in Hy.
      * injection Hy as <-. split; [auto | intros _; left].
      * rewrite elem_of_cons, Hin, <- (Hiff p y Hy). split; [|auto].
        intros [Hd | Hk]; [discriminate | exact Hk].
    + intros p [-> | Hk]%elem_of_cons; simpl; [lia|].
      apply list_elem_of_fmap in Hk as (q & -> & Hq). apply Hlt in Hq. lia.
    + simpl. now rewrite length_fmap, Hlen.
    + intros [|k] p Hk; simpl in Hk.
      * injection Hk as <-. reflexivity.
      * rewrite list_lookup_fmap in Hk.
        destruct (kept !! k) as [q|] eqn:Hq; [|discriminate].
        injection Hk as <-. simpl. now apply Hlook.
  - exists (S <$> kept). split_and!.
    + exact Hs'.
    + intros [|p] y Hy; simpl in Hy.
      * injection Hy as <-. split; [intros Hx; contradiction | contradiction].
      * rewrite Hin. now apply Hiff.
    + intros p Hk. apply list_elem_of_fmap in Hk as (q & -> & Hq).
      apply Hlt in Hq. simpl. lia.
    + now rewrite length_fmap.
    + intros k p Hk. rewrite list_lookup_fmap in Hk.
      destruct (kept !! k) as [q|] eqn:Hq; [|discriminate].
      injection Hk as <-. simpl. now apply Hlook.
Qed.


Lemma both_present_insert_joint (v : pyval) (r : row) :
  both_present (<["joint number" := v]> r) = both_present r.
Proof. unfold both_present, cell. now rewrite !lookup_insert_ne. Qed.

(** The test of an empty cell, in the two ways it is written. *)
Lemma blank_all_space (s : string) : blank s = all_space s.
Proof.
  unfold blank. induction s as [|a s IH]; [reflexivity|].
  simpl. now rewrite IH.
Qed.

Section Facts.

Variable parse_num : string -> pyfloat.
Variable sort_values : list (Z * row) -> list (Z * row).

Abbreviation split := (process_pipeline_data parse_num sort_values).
Abbreviation cleaned := (clean_rows parse_num).

(** The cells of a row after steps 1 and 2. *)
Lemma coerce_lookup (cols l : list string) (r : row) (c : string) :
  NoDup l ->
  foldr (fun col r => if bool_decide (col ∈ cols)
                      then alter (to_numeric parse_num) col r else r)
        r l !! c
  = (if bool_decide (c ∈ l /\ c ∈ cols) then to_numeric parse_num else id)
    <$> r !! c.
Proof.
  induction l as [|a l IH]; intros Hnd.
  { cbn [foldr]. destruct (bool_decide (c ∈ [] /\ c ∈ cols)) eqn:E.
    - apply bool_decide_eq_true in E as [H _]. now apply elem_of_nil in H.
    - now destruct (r !! c). }
  apply NoDup_cons in Hnd as [Ha Hnd]. cbn [foldr].
  destruct (decide (c = a)) as [-> | Hne].
  - assert (Hr : foldr (fun col r => if bool_decide (col ∈ cols)
                          then alter (to_numeric parse_num) col r else r) r l
                 !! a = r !! a).
    { rewrite (IH Hnd). rewrite bool_decide_eq_false_2 by tauto.
      now destruct (r !! a). }
    destruct (bool_decide (a ∈ cols)) eqn:Hc.
    + apply bool_decide_eq_true in Hc. rewrite lookup_alter_eq, Hr.
      rewrite bool_decide_eq_true_2; [reflexivity|]. split; [left | exact Hc].
    + apply bool_decide_eq_false in Hc. rewrite Hr.
      rewrite bool_decide_eq_false_2 by tauto. now destruct (r !! a).
  - assert (Hiff : (c ∈ a :: l /\ c ∈ cols) <-> (c ∈ l /\ c ∈ cols)).
    { rewrite elem_of_cons. tauto. }
    rewrite (bool_decide_ext _ _ Hiff), <- (IH Hnd).
    destruct (bool_decide (a ∈ cols)); [|reflexivity].
    now rewrite lookup_alter_ne by congruence.
Qed.

Lemma numeric_columns_distinct : NoDup numeric_columns.
Proof.
  unfold numeric_columns.
  repeat (apply NoDup_cons; split;
          [intros Hin;
           repeat (apply elem_of_cons in Hin as [Hin | Hin]; [discriminate|]);
           now apply elem_of_nil in Hin|]).
  apply NoDup_nil_2.
Qed.

Lemma clean_row_cell (cols : list string) (r : row) (c : string) :
  cell (clean_row parse_num cols r) c
  = cleaned_value parse_num cols c (cell r c).
Proof.
  unfold clean_row, cell, cleaned_value.
  rewrite (coerce_lookup cols numeric_columns _ c numeric_columns_distinct).
  rewrite lookup_fmap.
  change numeric_names with numeric_columns.
  destruct (bool_decide (c ∈ numeric_columns /\ c ∈ cols)).
  - destruct (r !! c) as [[|x|z|s]|]; simpl; try reflexivity.
    rewrite blank_all_space. now destruct (all_space s).
  - destruct (r !! c) as [[|x|z|s]|]; simpl; try reflexivity.
    now rewrite blank_all_space.
Qed.

Lemma cleaned_rows_from (df : DataFrame) :
  Forall2 (cleaned_from parse_num (columns df)) (rows df) (cleaned df).
Proof.
  unfold clean_rows. apply Forall2_fmap_r, Forall_Forall2_diag, Forall_forall.
  intros [l r] _. split; [reflexivity|]. intros c. apply clean_row_cell.
Qed.

(** What a successful call has checked, and the defects frame it builds. *)
Lemma process_pipeline_data_inv (df joints defects : DataFrame) :
  split df = inr (joints, defects) ->
  exists df_copy,
    ordered_rows parse_num sort_values df = inr df_copy /\
    has_column df "log dist. [m]" = true /\
    has_column df "joint number" = true /\
    has_column df "length [mm]" = true /\
    has_column df "width [mm]" = true /\
    let available := filter (fun c => c ∈ columns df) defect_columns in
    defects =
    {| columns := available;
       rows := (fun lr => (lr.1, standardize_row available lr.2)) <$>
               reset_index ((fun lr => (lr.1, project available lr.2)) <$>
                            selected_rows df_copy) |}.
Proof.
  unfold process_pipeline_data. intros H.
  destruct (ordered_rows parse_num sort_values df) as [e | df_copy];
    [discriminate|].
  exists df_copy. split; [reflexivity|].
  destruct (has_column df "joint number") eqn:Hj; [|discriminate]. simpl in H.
  destruct (filter _ joint_columns) as [|c cs] eqn:Hf; [|discriminate].
  destruct (has_column df "length [mm]"); [|discriminate].
  destruct (has_column df "width [mm]"); [|discriminate].
  simpl in H. injection H as _ <-. split_and!; auto.
  unfold has_column. apply bool_decide_eq_true.
  destruct (decide ("log dist. [m]"%string ∈ columns df)) as [Hin | Hin]; [exact Hin|].
  exfalso. eapply (filter_nil_not_elem_of _ _ _ Hf Hin).
  unfold joint_columns. left.
Qed.

Lemma project_lookup (cols : list string) (r : row) (c : string) :
  c ∈ cols -> project cols r !! c = r !! c.
Proof.
  intros Hc. unfold project. destruct (r !! c) as [x|] eqn:Hr.
  - apply map_lookup_filter_Some_2; auto.
  - apply map_lookup_filter_None_2. now left.
Qed.

Lemma standardize_row_lookup (cols : list string) (r : row) (c : string) :
  c <> "surface location"%string -> standardize_row cols r !! c = r !! c.
Proof.
  intros Hc. unfold standardize_row.
  destruct (bool_decide _); [|reflexivity]. now rewrite lookup_alter_ne.
Qed.

(** The mask of lines 54-57 on a cleaned row. *)
Lemma both_present_sized (cols : list string) (r : row) :
  "length [mm]"%string ∈ cols -> "width [mm]"%string ∈ cols ->
  both_present (clean_row parse_num cols r) = true <->
  sized (clean_row parse_num cols r).
Proof.
  intros Hl Hw. unfold both_present, sized.
  rewrite !clean_row_cell. unfold cleaned_value.
  rewrite !bool_decide_eq_true_2
    by (split; [unfold numeric_names; repeat (first [left | right]) | assumption]).
  unfold notna. cbn [isna].
  destruct (reading parse_num (cell r "length [mm]")) as [|l],
           (reading parse_num (cell r "width [mm]")) as [|w]; simpl.
  - split; [discriminate | intros (l & w & H & _); discriminate].
  - split; [discriminate | intros (l & w' & H & _); discriminate].
  - split; [discriminate | intros (l' & w & _ & H); discriminate].
  - split; [eauto | reflexivity].
Qed.

Hypothesis sort_permutes : forall l, sort_values l ≡ₚ l.
Hypothesis sort_ascending : forall l, StronglySorted key_before (sort_values l).

(** C7: when the split succeeds, the rows were cleaned (every cell of a
    numeric column read as a number, an empty cell or a text that is no
    number missing) and sorted by log distance (a permutation of the
    cleaned rows, ascending, missing distances last); a row of that order
    is kept in the defects table if and only if its length and its width
    are both numbers, the kept rows come in that order, and each carries
    the joint number of the nearest row at or before it which has one, its
    other cells unchanged. *)
Theorem defects_are_the_sized_rows (df joints defects : DataFrame) :
  split df = inr (joints, defects) ->
  exists sorted : list (Z * row),
    Forall2 (cleaned_from parse_num (columns df)) (rows df) (cleaned df) /\
    sorted ≡ₚ cleaned df /\
    StronglySorted key_before sorted /\
    exists kept : list nat,
      StronglySorted lt kept /\
      (forall p lr, sorted !! p = Some lr -> (p ∈ kept <-> sized lr.2)) /\
      length (rows defects) = length kept /\
      forall k p, kept !! k = Some p ->
        exists (lbl : Z) (r d : row),
          sorted !! p = Some (lbl, r) /\
          rows defects !! k = Some (Z.of_nat k, d) /\
          d !! "joint number"%string = Some (nearest_preceding sorted p) /\
          forall c, c ∈ columns defects ->
            c <> "joint number"%string -> c <> "surface location"%string ->
            d !! c = r !! c.
Proof.
  intros Hsplit.
  destruct (process_pipeline_data_inv df joints defects Hsplit)
    as (sorted0 & Hord0 & Hlog & Hjn & Hlen' & Hwid & Hdef).
  set (sorted := sort_values (cleaned df)).
  assert (Hord : sorted0 = sorted).
  { unfold ordered_rows in Hord0. rewrite Hlog in Hord0.
    destruct (mixed_keys _); [discriminate|]. now injection Hord0. }
  subst sorted0.
  exists sorted.
  split; [apply cleaned_rows_from|].
  split; [apply sort_permutes|].
  split; [apply sort_ascending|].
  set (available := filter (fun c => c ∈ columns df) defect_columns) in *.
  destruct (filter_positions (fun lr : Z * row => both_present lr.2 = true)
                             (ffill (PyFloat NaN) sorted))
    as (kept & Hs & Hiff & Hlt & Hlen & Hlook).
  unfold has_column in Hlen', Hwid.
  apply bool_decide_eq_true in Hlen', Hwid.
  exists kept. split; [exact Hs|]. split_and!.
  - intros p [lbl r] Hp. simpl.
    rewrite (Hiff p _ (ffill_lookup sorted _ p lbl r Hp)). simpl.
    rewrite both_present_insert_joint.
    assert (Hin : (lbl, r) ∈ cleaned df).
    { rewrite <- (sort_permutes (cleaned df)).
      eapply list_elem_of_lookup_2; eauto. }
    unfold clean_rows in Hin.
    apply list_elem_of_fmap in Hin as ([l0 r0] & [= -> ->] & _).
    now apply both_present_sized.
  - rewrite Hdef. simpl. unfold reset_index, selected_rows.
    now rewrite length_fmap, length_imap, length_fmap, Hlen.
  - intros k p Hk.
    assert (Hp : (p < length sorted)%nat).
    { rewrite <- (ffill_length sorted (PyFloat NaN)). apply Hlt.
      eapply list_elem_of_lookup_2; eauto. }
    apply lookup_lt_is_Some_2 in Hp as [[lbl r] Hp].
    pose proof (Hlook k p Hk) as Hfk.
    rewrite (ffill_lookup sorted _ p lbl r Hp) in Hfk.
    fold (nearest_preceding sorted p) in Hfk.
    set (r' := <["joint number" := nearest_preceding sorted p]> r) in *.
    exists lbl, r, (standardize_row available (project available r')).
    split; [exact Hp|]. split_and!.
    + rewrite Hdef. simpl. unfold reset_index, selected_rows.
      rewrite list_lookup_fmap, list_lookup_imap, list_lookup_fmap, Hfk.
      reflexivity.
    + rewrite standardize_row_lookup by discriminate.
      rewrite project_lookup.
      * unfold r'. apply lookup_insert_eq.
      * apply list_elem_of_filter. split.
        -- unfold has_column in Hjn. now apply bool_decide_eq_true in Hjn.
        -- unfold defect_columns. do 2 right. left.
    + intros c Hc Hc1 Hc2. rewrite Hdef in Hc. simpl in Hc.
      rewrite standardize_row_lookup by exact Hc2.
      rewrite project_lookup by exact Hc.
      unfold r'. now rewrite lookup_insert_ne.
Qed.

End Facts.


(** *** The insertion sort is one of the orders [sort_values] may give *)

Lemma key_before_trans (a b c : Z * row) :
  key_before a b -> key_before b c -> key_before a c.
Proof.
  unfold key_before. intros [H1 H2] [H3 H4]. split; [auto|].
  destruct (sort_key a) as [|x], (sort_key b) as [|y], (sort_key c) as [|z];
    simpl in *; auto; try (specialize (H3 eq_refl); discriminate);
    try (specialize (H1 eq_refl); discriminate).
  apply negb_false_iff in H2, H4. apply negb_false_iff.
  apply Qle_bool_iff in H2, H4. apply Qle_bool_iff. lra.
Qed.

Lemma insert_sorted_perm (x : Z * row) (l : list (Z * row)) :
  insert_sorted x l ≡ₚ x :: l.
Proof.
  induction l as [|y l IH]; simpl; [reflexivity|].
  destruct (_ || _); [reflexivity|].
  rewrite IH. apply Permutation_swap.
Qed.

Lemma insertion_sort_perm (l : list (Z * row)) : insertion_sort l ≡ₚ l.
Proof.
  induction l as [|x l IH]; simpl; [reflexivity|].
  unfold insertion_sort in *. simpl. now rewrite insert_sorted_perm, IH.
Qed.

Lemma insert_sorted_sorted (x : Z * row) (l : list (Z * row)) :
  StronglySorted key_before l -> StronglySorted key_before (insert_sorted x l).
Proof.
  induction 1 as [|y l Hs IH Hall]; simpl.
  { repeat constructor. }
  destruct (_ || _) eqn:Hc.
  - assert (Hxy : key_before x y).
    { unfold key_before. apply orb_true_iff in Hc as [Hc | Hc].
      - destruct (sort_key x) as [|a], (sort_key y) as [|b]; try discriminate.
        simpl in *. split; [discriminate|].
        apply negb_true_iff in Hc. apply negb_false_iff, Qle_bool_iff.
        assert (~ (b <= a)%Q) by (rewrite <- Qle_bool_iff, Hc; discriminate).
        lra.
      - apply andb_true_iff in Hc as [Hy Hx]. apply negb_true_iff in Hx.
        split; [congruence|].
        destruct (sort_key y); [reflexivity | discriminate]. }
    constructor; [constructor; assumption|].
    constructor; [exact Hxy|].
    eapply Forall_impl; [exact Hall|]. intros z Hz.
    eapply key_before_trans; eauto.
  - apply orb_false_iff in Hc as [Hc1 Hc2].
    constructor; [exact IH|].
    rewrite (insert_sorted_perm x l). constructor; [|exact Hall].
    unfold key_before. split; [|exact Hc1].
    intros Hy. rewrite Hy in Hc2. simpl in Hc2.
    now apply negb_false_iff in Hc2.
Qed.

Lemma insertion_sort_sorted (l : list (Z * row)) :
  StronglySorted key_before (insertion_sort l).
Proof.
  induction l as [|x l IH]; [constructor|].
  unfold insertion_sort in *. simpl. now apply insert_sorted_sorted.
Qed.

Lemma split_sample_returns :
  exists joints defects, split_sample = inr (joints, defects).
Proof.
  assert (H : match split_sample with inr _ => true | inl _ => false end = true)
    by (vm_compute; reflexivity).
  destruct split_sample as [e | [joints defects]]; [discriminate | eauto].
Qed.

(** On the sample the one defect, found at 3 m, carries joint number 10 of
    the marker at 1 m, and its length, read from a text, is the number 12. *)
Lemma split_sample_values :
  split_sample_defects = [(PyFloat (Fin 10), PyFloat (Fin 12))].
Proof. vm_compute. reflexivity. Qed.

Lemma defects_are_the_sized_rows_witness :
  exists joints defects (sorted : list (Z * row)) (kept : list nat),
    split_sample = inr (joints, defects) /\
    sorted ≡ₚ clean_rows parse_integer raw_survey /\
    (forall p lr, sorted !! p = Some lr -> (p ∈ kept <-> sized lr.2)) /\
    length (rows defects) = length kept.
Proof.
  destruct split_sample_returns as (joints & defects & Hsplit).
  destruct (defects_are_the_sized_rows parse_integer insertion_sort
              insertion_sort_perm insertion_sort_sorted raw_survey joints
              defects Hsplit)
    as (sorted & _ & Hperm & _ & kept & _ & Hiff & Hlen & _).
  exists joints, defects, sorted, kept.
  split; [exact Hsplit|]. split; [exact Hperm|]. split; [exact Hiff | exact Hlen].
Defined.

End SplitterFacts.

(** ** Further facts about the record splitter *)

Module SplitterExtra.
Import Splitter Spec Spec2 Examples SplitterFacts.

Ltac in_list := first [left | right; in_list].

Section Columns.

Variable parse_num : string -> pyfloat.
Variable sort_values : list (Z * row) -> list (Z * row).

(** The test of the sort on the cleaned rows, on the table. *)
Lemma mixed_keys_unsortable (df : DataFrame) :
  has_column df "log dist. [m]" && mixed_keys (clean_rows parse_num df) = true
  <-> unsortable df.
Proof.
  unfold unsortable, has_column, mixed_keys.
  rewrite !andb_true_iff, bool_decide_eq_true.
  assert (Hcell : forall r : row,
            cell (clean_row parse_num (columns df) r) "log dist. [m]"
            = match cell r "log dist. [m]" with
              | PyStr s => if blank s then PyFloat NaN else PyStr s
              | v => v
              end).
  { intros r. rewrite clean_row_cell. unfold cleaned_value.
    rewrite bool_decide_eq_false_2;
      [now destruct (cell r "log dist. [m]")|].
    intros [Hin _]. unfold numeric_names in Hin.
    repeat (apply elem_of_cons in Hin as [Hin | Hin]; [discriminate|]).
    now apply elem_of_nil in Hin. }
  assert (Htext : existsb text_key (clean_rows parse_num df) = true <->
            exists lr s, lr ∈ rows df /\
              cell lr.2 "log dist. [m]" = PyStr s /\ blank s = false).
  { rewrite existsb_exists. unfold clean_rows. split.
    - intros ([l r'] & Hin & Ht). apply list_elem_of_In in Hin.
      apply list_elem_of_fmap in Hin as ([l0 r] & [= -> ->] & Hr).
      unfold text_key in Ht. cbn [snd] in Ht. rewrite Hcell in Ht.
      exists (l0, r). cbn [snd].
      destruct (cell r "log dist. [m]") as [| |z|s]; try discriminate.
      exists s. destruct (blank s); [discriminate | auto].
    - intros ([l r] & s & Hr & Hc & Hb). cbn [snd] in Hc.
      exists (l, clean_row parse_num (columns df) r). split.
      + apply list_elem_of_In, list_elem_of_fmap. now exists (l, r).
      + unfold text_key. cbn [snd]. rewrite Hcell, Hc, Hb. reflexivity. }
  assert (Hnum : existsb number_key (clean_rows parse_num df) = true <->
            exists lr, lr ∈ rows df /\
              ((exists q, cell lr.2 "log dist. [m]" = PyFloat (Fin q)) \/
               (exists z, cell lr.2 "log dist. [m]" = PyInt z))).
  { rewrite existsb_exists. unfold clean_rows. split.
    - intros ([l r'] & Hin & Ht). apply list_elem_of_In in Hin.
      apply list_elem_of_fmap in Hin as ([l0 r] & [= -> ->] & Hr).
      unfold number_key, sort_key in Ht. cbn [snd] in Ht. rewrite Hcell in Ht.
      exists (l0, r). split; [exact Hr|]. cbn [snd].
      destruct (cell r "log dist. [m]") as [|[|q]|z|s]; try discriminate; eauto.
      destruct (blank s); discriminate.
    - intros ([l r] & Hr & Hc). cbn [snd] in Hc.
      exists (l, clean_row parse_num (columns df) r). split.
      + apply list_elem_of_In, list_elem_of_fmap. now exists (l, r).
      + unfold number_key, sort_key. cbn [snd]. rewrite Hcell.
        destruct Hc as [[q ->] | [z ->]]; reflexivity. }
  rewrite Htext, Hnum. reflexivity.
Qed.

Lemma ordered_rows_cases (df : DataFrame) :
  (unsortable df /\ ordered_rows parse_num sort_values df = inl TypeError) \/
  (~ unsortable df /\
   exists df_copy, ordered_rows parse_num sort_values df = inr df_copy).
Proof.
  pose proof (mixed_keys_unsortable df) as Hm. unfold ordered_rows.
  destruct (has_column df "log dist. [m]"); cbn [andb] in Hm.
  - destruct (mixed_keys (clean_rows parse_num df)).
    + left. split; [now apply Hm | reflexivity].
    + right. split; [|eauto]. intros H. apply Hm in H. discriminate.
  - right. split; [|eauto]. intros H. apply Hm in H. discriminate.
Qed.

(** The sort of a text and a number raises. *)
Lemma split_raises_on_mixed (df : DataFrame) :
  unsortable df ->
  process_pipeline_data parse_num sort_values df = inl TypeError.
Proof.
  intros Hu. unfold process_pipeline_data.
  destruct (ordered_rows_cases df) as [[_ ->] | [Hn _]];
    [reflexivity | contradiction].
Qed.

(** A table with the six columns, whose log distances can be put in
    order, is split. *)
Lemma split_returns (df : DataFrame) :
  ~ unsortable df ->
  (forall c, c ∈ needed_columns -> c ∈ columns df) ->
  exists joints defects,
    process_pipeline_data parse_num sort_values df = inr (joints, defects).
Proof.
  intros Hsort Hall. unfold process_pipeline_data.
  destruct (ordered_rows_cases df) as [[Hu _] | (_ & df_copy & ->)];
    [contradiction|].
  unfold has_column.
  rewrite !bool_decide_eq_true_2 by (apply Hall; unfold needed_columns; in_list).
  cbn [negb].
  destruct (filter _ joint_columns) as [|c cs] eqn:Hf; [eauto|].
  exfalso. assert (Hc : c ∈ c :: cs) by left. rewrite <- Hf in Hc.
  apply list_elem_of_filter in Hc as [Hno Hin]. apply Hno, Hall.
  unfold joint_columns, needed_columns in *.
  repeat (apply elem_of_cons in Hin as [-> | Hin]; [in_list|]).
  now apply elem_of_nil in Hin.
Qed.

(** X4: a table with a log distance column in which a text and a number
    meet makes the split raise [TypeError], at the sort. Otherwise the
    split returns exactly when the table has the six columns it reads
    unconditionally, and else raises the [KeyError] of the first lookup
    that fails: of the joint number, of the other columns of the joints
    table (naming all that are missing), of the length, of the width. A
    table without the log distance column is rejected, the guarded sort
    notwithstanding. *)
Theorem split_needs_six_columns (df : DataFrame) :
  let missing := filter (fun c => c ∉ columns df) joint_attributes in
  (unsortable df ->
   process_pipeline_data parse_num sort_values df = inl TypeError) /\
  (~ unsortable df ->
   ((forall c, c ∈ needed_columns -> c ∈ columns df) ->
    exists joints defects,
      process_pipeline_data parse_num sort_values df = inr (joints, defects)) /\
   ((exists c, c ∈ needed_columns /\ c ∉ columns df) ->
    process_pipeline_data parse_num sort_values df =
    inl (KeyError
           (if decide ("joint number"%string ∈ columns df)
            then match missing with
                 | _ :: _ => not_in_index missing
                 | [] =>
                     if decide ("length [mm]"%string ∈ columns df)
                     then "width [mm]"%string else "length [mm]"%string
                 end
            else "joint number"%string)))).
Proof.
  intros missing. split; [apply split_raises_on_mixed|].
  intros Hsort. split; [now apply split_returns|].
  intros (c & Hc & Hmiss). unfold process_pipeline_data.
  destruct (ordered_rows_cases df) as [[Hu _] | (_ & df_copy & ->)];
    [contradiction|].
  unfold has_column.
  destruct (decide ("joint number"%string ∈ columns df)) as [Hj | Hj].
  2:{ now rewrite (bool_decide_eq_false_2 _ Hj). }
  rewrite (bool_decide_eq_true_2 _ Hj). cbn [negb].
  assert (Hf : filter (fun c => c ∉ columns df) joint_columns = missing).
  { unfold joint_columns, missing, joint_attributes.
    rewrite (filter_cons _ "log dist. [m]"%string). symmetry.
    rewrite (filter_cons _ "log dist. [m]"%string). symmetry.
    destruct (decide ("log dist. [m]"%string ∉ columns df)).
    - f_equal. rewrite (filter_cons _ "joint number"%string).
      destruct (decide ("joint number"%string ∉ columns df));
        [contradiction | reflexivity].
    - rewrite (filter_cons _ "joint number"%string).
      destruct (decide ("joint number"%string ∉ columns df));
        [contradiction | reflexivity]. }
  rewrite Hf. destruct missing as [|m ms] eqn:Hm; [|reflexivity].
  destruct (decide ("length [mm]"%string ∈ columns df)) as [Hl | Hl].
  2:{ now rewrite (bool_decide_eq_false_2 _ Hl). }
  rewrite (bool_decide_eq_true_2 _ Hl). cbn [negb].
  destruct (decide ("width [mm]"%string ∈ columns df)) as [Hw | Hw].
  2:{ now rewrite (bool_decide_eq_false_2 _ Hw). }
  exfalso. apply Hmiss.
  assert (Hattr : forall x, x ∈ joint_attributes -> x ∈ columns df).
  { intros x Hx. destruct (decide (x ∈ columns df)) as [|Hn]; [assumption|].
    exfalso. assert (Hin : x ∈ missing)
      by (unfold missing; apply list_elem_of_filter; auto).
    rewrite Hm in Hin. now apply elem_of_nil in Hin. }
  unfold needed_columns in Hc.
  repeat (apply elem_of_cons in Hc as [-> | Hc];
          [first [assumption | apply Hattr; unfold joint_attributes; in_list]|]).
  now apply elem_of_nil in Hc.
Qed.

End Columns.

(** Log distances without a text can be put in order. *)
Lemma no_text_sortable (df : DataFrame) :
  forallb (fun lr => negb (is_text (cell lr.2 "log dist. [m]"))) (rows df)
  = true ->
  ~ unsortable df.
Proof.
  intros Hall (_ & (lr & s & Hin & Hc & _) & _).
  rewrite forallb_forall in Hall.
  specialize (Hall lr (proj1 (list_elem_of_In _ _) Hin)).
  rewrite Hc in Hall. discriminate.
Qed.

Lemma raw_survey_sortable : ~ unsortable raw_survey.
Proof.
  intros (_ & (lr & s & Hin & Hc & _) & _).
  unfold raw_survey in Hin. cbn [rows] in Hin.
  repeat (apply elem_of_cons in Hin as [-> | Hin];
          [vm_compute in Hc; discriminate|]).
  now apply elem_of_nil in Hin.
Qed.

Lemma mixed_survey_unsortable : unsortable mixed_survey.
Proof.
  split; [unfold mixed_survey, raw_survey; cbn [columns]; in_list|]. split.
  - exists (1, raw_row (PyStr "1 m") (PyFloat (Fin 10)) (PyStr "  ") (PyFloat NaN)),
           "1 m"%string.
    split; [unfold mixed_survey; cbn [rows]; in_list|].
    split; vm_compute; reflexivity.
  - exists (0, raw_row (PyFloat (Fin 3)) (PyFloat NaN) (PyStr "12")
                       (PyFloat (Fin 2))).
    split; [unfold mixed_survey; cbn [rows]; in_list|].
    left. exists 3%Q. vm_compute. reflexivity.
Qed.

Lemma new_without_type_sortable : ~ unsortable new_without_type.
Proof.
  intros (_ & (lr & s & Hin & Hc & _) & _).
  unfold new_without_type in Hin. cbn [rows] in Hin.
  apply list_elem_of_singleton in Hin as ->.
  vm_compute in Hc. discriminate.
Qed.

Lemma located_survey_sortable : ~ unsortable located_survey.
Proof.
  intros (_ & (lr & s & Hin & Hc & _) & _).
  unfold located_survey in Hin. cbn [rows] in Hin.
  repeat (apply elem_of_cons in Hin as [-> | Hin];
          [vm_compute in Hc; discriminate|]).
  now apply elem_of_nil in Hin.
Qed.

Lemma split_needs_six_columns_witness :
  process_pipeline_data parse_integer insertion_sort mixed_survey
  = inl TypeError /\
  (exists joints defects, split_sample = inr (joints, defects)) /\
  process_pipeline_data parse_integer insertion_sort new_without_type
  = inl (KeyError "joint number").
Proof.
  destruct (split_needs_six_columns parse_integer insertion_sort mixed_survey)
    as [Hmixed _].
  destruct (split_needs_six_columns parse_integer insertion_sort raw_survey)
    as [_ Hraw].
  destruct (split_needs_six_columns parse_integer insertion_sort
              new_without_type) as [_ Hfail].
  split; [exact (Hmixed mixed_survey_unsortable)|]. split.
  - apply (Hraw raw_survey_sortable). intros c Hc. unfold needed_columns in Hc.
    unfold raw_survey. cbn [columns].
    repeat (apply elem_of_cons in Hc as [-> | Hc]; [in_list|]).
    now apply elem_of_nil in Hc.
  - destruct (Hfail new_without_type_sortable) as [_ Hkey].
    rewrite Hkey.
    + reflexivity.
    + exists "joint number"%string. split; [unfold needed_columns; in_list|].
      unfold new_without_type. cbn [columns]. intros Hin.
      repeat (apply elem_of_cons in Hin as [Hin | Hin]; [discriminate|]).
      now apply elem_of_nil in Hin.
Defined.

Lemma feq_sym (x y : pyfloat) : feq x y = feq y x.
Proof.
  destruct x as [|a], y as [|b]; simpl; auto.
  destruct (Qeq_bool a b) eqn:E.
  - apply Qeq_bool_iff in E. symmetry. apply Qeq_bool_iff. now symmetry.
  - symmetry. destruct (Qeq_bool b a) eqn:E'; [|reflexivity].
    apply Qeq_bool_iff in E'. symmetry in E'. apply Qeq_bool_iff in E'. congruence.
Qed.

Lemma feq_refl (x : pyfloat) : isnan x = false -> feq x x = true.
Proof. destruct x; [discriminate|]. intros _. apply Qeq_bool_iff. reflexivity. Qed.

Lemma drop_duplicates_spec (l : list (Z * row)) :
  forall seen,
    let out := drop_duplicates seen l in
    (forall x, x ∈ out -> x ∈ l /\ existsb (same_joint x) seen = false) /\
    (forall i j x y, (i < j)%nat -> out !! i = Some x -> out !! j = Some y ->
       same_joint y x = false) /\
    (forall x, x ∈ l -> isnan (joint_of x) = false ->
       exists y, (y ∈ seen \/ y ∈ out) /\ same_joint x y = true).
Proof.
  induction l as [|x l IH]; intros seen; simpl.
  { split_and!.
    - intros x Hx. now apply elem_of_nil in Hx.
    - intros i j x y _ Hx. discriminate.
    - intros x Hx. now apply elem_of_nil in Hx. }
  destruct (existsb (same_joint x) seen) eqn:Hex.
  - destruct (IH seen) as (H1 & H2 & H3). split_and!.
    + intros x0 Hx0. destruct (H1 x0 Hx0). split; [now right | assumption].
    + exact H2.
    + intros x0 [-> | Hx0]%elem_of_cons Hn.
      * apply existsb_exists in Hex as (y & Hy & Hs).
        exists y. split; [left; now apply list_elem_of_In | exact Hs].
      * now apply H3.
  - destruct (IH (x :: seen)) as (H1 & H2 & H3). split_and!.
    + intros x0 [-> | Hx0]%elem_of_cons.
      * split; [left | exact Hex].
      * destruct (H1 x0 Hx0) as [Hin Hno]. split; [now right|].
        simpl in Hno. now apply orb_false_iff in Hno as [_ Hno].
    + intros [|i] [|j] a b Hij Ha Hb; try lia; simpl in Ha, Hb.
      * injection Ha as <-.
        destruct (H1 b) as [_ Hno]; [eapply list_elem_of_lookup_2; eauto|].
        simpl in Hno. now apply orb_false_iff in Hno as [Hno _].
      * eapply (H2 i j); eauto. lia.
    + intros x0 [-> | Hx0]%elem_of_cons Hn.
      * exists x. split; [right; left|]. unfold same_joint. now apply feq_refl.
      * destruct (H3 x0 Hx0 Hn) as (y & [Hy | Hy] & Hs).
        -- apply elem_of_cons in Hy as [-> | Hy].
           ++ exists x. split; [right; left | exact Hs].
           ++ exists y. split; [now left | exact Hs].
        -- exists y. split; [right; now right | exact Hs].
Qed.

Lemma clean_row_joint (parse_num : string -> pyfloat) (cols : list string)
    (r : row) :
  "joint number"%string ∈ cols ->
  exists x, cell (clean_row parse_num cols r) "joint number" = PyFloat x.
Proof.
  intros Hc. unfold clean_row, numeric_columns. simpl.
  rewrite (bool_decide_eq_true_2 _ Hc). unfold cell.
  rewrite lookup_alter_eq.
  destruct (_ !! "joint number"%string) as [v|]; simpl; [|eauto].
  destruct v; simpl; eauto.
Qed.


Section Joints.

Variable parse_num : string -> pyfloat.
Variable sort_values : list (Z * row) -> list (Z * row).
Hypothesis sort_permutes : forall l, sort_values l ≡ₚ l.

Lemma process_pipeline_data_joints (df joints defects : DataFrame) :
  process_pipeline_data parse_num sort_values df = inr (joints, defects) ->
  exists df_copy,
  ordered_rows parse_num sort_values df = inr df_copy /\
  "joint number"%string ∈ columns df /\
  joints =
  {| columns := joint_columns;
     rows := reset_index (drop_duplicates []
               ((fun lr => (lr.1, project joint_columns lr.2)) <$>
                filter (fun lr => notna (cell lr.2 "joint number") = true)
                       df_copy)) |}.
Proof.
  unfold process_pipeline_data. intros H.
  destruct (ordered_rows parse_num sort_values df) as [e | df_copy];
    [discriminate|].
  exists df_copy. split; [reflexivity|].
  destruct (has_column df "joint number") eqn:Hj; [|discriminate]. simpl in H.
  destruct (filter _ joint_columns) as [|c cs] eqn:Hf; [|discriminate].
  destruct (has_column df "length [mm]"); [|discriminate].
  destruct (has_column df "width [mm]"); [|discriminate].
  simpl in H. injection H as <- _. split; [|reflexivity].
  unfold has_column in Hj. now apply bool_decide_eq_true in Hj.
Qed.

Lemma joint_of_project (l : Z) (r : row) :
  joint_of (l, project joint_columns r) = joint_of (l, r).
Proof.
  unfold joint_of, cell. simpl. rewrite project_lookup; [reflexivity|].
  unfold joint_columns. in_list.
Qed.

(** X5: the joints table of a successful split has its rows numbered from
    0, no two of its rows have the same joint number, none has a missing
    one, and every joint number present in the cleaned raw rows is on one
    of its rows. *)
Theorem joints_are_distinct (df joints defects : DataFrame) :
  process_pipeline_data parse_num sort_values df = inr (joints, defects) ->
  columns joints = joint_columns /\
  (rows joints).*1 = Z.of_nat <$> seq 0 (length (rows joints)) /\
  (forall i j a b, i <> j ->
     rows joints !! i = Some a -> rows joints !! j = Some b ->
     feq (joint_of a) (joint_of b) = false) /\
  (forall a, a ∈ rows joints -> isnan (joint_of a) = false) /\
  (forall x, x ∈ clean_rows parse_num df -> isnan (joint_of x) = false ->
     exists a, a ∈ rows joints /\ feq (joint_of x) (joint_of a) = true).
Proof.
  intros Hsplit.
  destruct (process_pipeline_data_joints df joints defects Hsplit)
    as (S & HSdef & Hjn & ->).
  simpl.
  set (J := (fun lr : Z * row => (lr.1, project joint_columns lr.2)) <$>
            filter (fun lr : Z * row => notna (cell lr.2 "joint number") = true) S).
  destruct (drop_duplicates_spec J []) as (H1 & H2 & H3).
  set (out := drop_duplicates [] J) in *.
  assert (Hlook : forall i a, reset_index out !! i = Some a ->
                    exists a', out !! i = Some a' /\ joint_of a = joint_of a').
  { intros i a Ha. unfold reset_index in Ha. rewrite list_lookup_imap in Ha.
    destruct (out !! i) as [a'|]; [|discriminate]. injection Ha as <-.
    exists a'. split; reflexivity. }
  assert (HS : forall x, x ∈ S <-> x ∈ clean_rows parse_num df).
  { intros x. unfold ordered_rows in HSdef.
    destruct (has_column df "log dist. [m]").
    - destruct (mixed_keys (clean_rows parse_num df)); [discriminate|].
      injection HSdef as <-. now rewrite sort_permutes.
    - injection HSdef as <-. reflexivity. }
  assert (Hnum : forall x, x ∈ S ->
            (notna (cell x.2 "joint number") = true <-> isnan (joint_of x) = false)).
  { intros x Hx. apply HS in Hx. unfold clean_rows in Hx.
    apply list_elem_of_fmap in Hx as ([l r] & -> & _). simpl.
    destruct (clean_row_joint parse_num (columns df) r Hjn) as [v Hv].
    unfold joint_of. simpl. rewrite Hv. unfold notna. simpl.
    destruct v; simpl; split; congruence. }
  assert (HJ : forall a, a ∈ J -> isnan (joint_of a) = false).
  { intros a Ha. unfold J in Ha.
    apply list_elem_of_fmap in Ha as ([l r] & -> & Hr).
    apply list_elem_of_filter in Hr as [Hna Hr]. simpl in Hna.
    rewrite joint_of_project. now apply (Hnum (l, r) Hr). }
  split; [reflexivity|]. split_and!.
  - unfold reset_index. apply list_eq. intros i.
    rewrite !list_lookup_fmap, list_lookup_imap, length_imap.
    destruct (out !! i) as [a|] eqn:Hi; simpl.
    + rewrite lookup_seq_lt by (eapply lookup_lt_Some; eauto). reflexivity.
    + rewrite lookup_seq_ge; [reflexivity|]. now apply lookup_ge_None.
  - intros i j a b Hij Ha Hb.
    destruct (Hlook i a Ha) as (a' & Ha' & ->).
    destruct (Hlook j b Hb) as (b' & Hb' & ->).
    destruct (lt_eq_lt_dec i j) as [[Hlt | Heq] | Hgt]; [|contradiction|].
    + rewrite feq_sym. exact (H2 i j a' b' Hlt Ha' Hb').
    + exact (H2 j i b' a' Hgt Hb' Ha').
  - intros a Ha. apply list_elem_of_lookup in Ha as [i Ha].
    destruct (Hlook i a Ha) as (a' & Ha' & ->).
    apply HJ. apply (H1 a'). eapply list_elem_of_lookup_2; eauto.
  - intros [l r] Hx Hn. apply HS in Hx.
    assert (HxJ : (l, project joint_columns r) ∈ J).
    { unfold J. apply list_elem_of_fmap. exists (l, r). split; [reflexivity|].
      apply list_elem_of_filter. split; [|exact Hx]. simpl.
      now apply (Hnum (l, r) Hx). }
    destruct (H3 _ HxJ) as (y & [Hy | Hy] & Hs).
    { now rewrite joint_of_project. }
    { now apply elem_of_nil in Hy. }
    apply list_elem_of_lookup in Hy as [i Hy].
    exists (Z.of_nat i, y.2). split.
    + apply list_elem_of_lookup. exists i. unfold reset_index.
      now rewrite list_lookup_imap, Hy.
    + unfold same_joint in Hs. fold (joint_of (l, project joint_columns r)) in Hs.
      rewrite joint_of_project in Hs. exact Hs.
Qed.

End Joints.

Lemma joints_are_distinct_witness :
  exists joints defects,
    split_sample = inr (joints, defects) /\
    columns joints = joint_columns /\
    (forall a, a ∈ rows joints -> isnan (joint_of a) = false).
Proof.
  destruct split_sample_returns as (joints & defects & Hsplit).
  exists joints, defects. split; [exact Hsplit|].
  destruct (joints_are_distinct parse_integer insertion_sort insertion_sort_perm
              raw_survey joints defects Hsplit) as (Hc & _ & _ & Hn & _).
  split; [exact Hc | exact Hn].
Defined.

Import Utils.

Lemma standardize_fixed (v : pyval) :
  standardize_surface_location (standardize_surface_location v)
  = standardize_surface_location v.
Proof.
  destruct v as [|[|q]|z|s]; try reflexivity.
  assert (Hs : standardize_surface_location (PyStr s) =
                 if bool_decide (upper (strip s) ∈ int_synonyms) then PyStr "INT"
                 else if bool_decide (upper (strip s) ∈ non_int_synonyms)
                      then PyStr "NON-INT" else PyStr s) by reflexivity.
  destruct (bool_decide (upper (strip s) ∈ int_synonyms)) eqn:Hi.
  { rewrite Hs. reflexivity. }
  destruct (bool_decide (upper (strip s) ∈ non_int_synonyms)) eqn:Hn.
  { rewrite Hs. reflexivity. }
  rewrite !Hs. reflexivity.
Qed.

Section Shape.

Variable parse_num : string -> pyfloat.
Variable sort_values : list (Z * row) -> list (Z * row).

(** X20: the defects table of a successful split has the defect columns
    that the input has, in the fixed order, and its rows are numbered from
    0; a row has values under these columns only, and its surface location
    is in standard form: standardizing it again changes nothing. *)
Theorem defects_table_shape (df joints defects : DataFrame) :
  process_pipeline_data parse_num sort_values df = inr (joints, defects) ->
  columns defects = filter (fun c => c ∈ columns df) defect_columns /\
  (rows defects).*1 = Z.of_nat <$> seq 0 (length (rows defects)) /\
  forall lr, lr ∈ rows defects ->
    (forall c, is_Some (lr.2 !! c) -> c ∈ columns defects) /\
    forall v, lr.2 !! "surface location"%string = Some v ->
      standardize_surface_location v = v.
Proof.
  intros Hsplit.
  destruct (process_pipeline_data_inv parse_num sort_values df joints defects
              Hsplit) as (df_copy & _ & _ & _ & _ & _ & ->).
  cbn [columns rows].
  set (available := filter (fun c => c ∈ columns df) defect_columns).
  set (sel := (fun lr : Z * row => (lr.1, project available lr.2)) <$>
              selected_rows df_copy).
  split; [reflexivity|]. split.
  - unfold reset_index. apply list_eq. intros i.
    rewrite !list_lookup_fmap, list_lookup_imap, length_fmap, length_imap.
    destruct (sel !! i) as [a|] eqn:Hi; simpl.
    + rewrite lookup_seq_lt by (eapply lookup_lt_Some; eauto). reflexivity.
    + rewrite lookup_seq_ge; [reflexivity|]. now apply lookup_ge_None.
  - intros lr Hlr. apply list_elem_of_fmap in Hlr as ([l r] & -> & Hr).
    cbn [fst snd]. unfold reset_index in Hr.
    apply list_elem_of_lookup in Hr as [i Hr]. rewrite list_lookup_imap in Hr.
    destruct (sel !! i) as [[l0 r0]|] eqn:Hi; [|discriminate].
    injection Hr as _ <-. cbn [snd].
    apply list_elem_of_lookup_2 in Hi. unfold sel in Hi.
    apply list_elem_of_fmap in Hi as ([l1 r1] & [= _ ->] & _). cbn [snd].
    assert (Hkeys : forall c, is_Some (project available r1 !! c) ->
                      c ∈ available).
    { intros c [x Hx]. unfold project in Hx.
      apply map_lookup_filter_Some in Hx as [_ Hc]. exact Hc. }
    unfold standardize_row.
    destruct (bool_decide ("surface location"%string ∈ available)) eqn:Hs.
    + split.
      * intros c Hc. apply Hkeys.
        destruct (decide (c = "surface location"%string)) as [-> | Hne].
        -- rewrite lookup_alter_eq in Hc. destruct Hc as [x Hx].
           destruct (project available r1 !! "surface location"%string);
             [eauto | discriminate].
        -- now rewrite lookup_alter_ne in Hc by congruence.
      * intros v Hv. rewrite lookup_alter_eq in Hv.
        destruct (project available r1 !! "surface location"%string) as [v0|];
          [|discriminate].
        injection Hv as <-. apply standardize_fixed.
    + split; [exact Hkeys|]. intros v Hv.
      apply bool_decide_eq_false in Hs. exfalso. apply Hs, Hkeys. eauto.
Qed.

End Shape.

Lemma defects_table_shape_witness :
  exists joints defects,
    process_pipeline_data parse_integer insertion_sort located_survey
    = inr (joints, defects) /\
    columns defects
    = filter (fun c => c ∈ columns located_survey) defect_columns /\
    forall lr, lr ∈ rows defects ->
      forall v, lr.2 !! "surface location"%string = Some v ->
        standardize_surface_location v = v.
Proof.
  destruct (split_returns parse_integer insertion_sort located_survey)
    as (joints & defects & Hsplit).
  { exact located_survey_sortable. }
  { intros c Hc. unfold needed_columns in Hc.
    unfold located_survey, raw_survey. cbn [columns app].
    repeat (apply elem_of_cons in Hc as [-> | Hc]; [in_list|]).
    now apply elem_of_nil in Hc. }
  exists joints, defects. split; [exact Hsplit|].
  destruct (defects_table_shape parse_integer insertion_sort located_survey
              joints defects Hsplit) as (Hc & _ & Hrows).
  split; [exact Hc|]. intros lr Hlr. exact (proj2 (Hrows lr Hlr)).
Defined.

End SplitterExtra.

(** ** Facts about the correlation engine *)

Module EngineFacts.
Import Engine Spec Examples.

(** *** The order on numbers *)

Lemma fle_fin (x y : pyfloat) :
  fle x y = true -> exists a b, x = Fin a /\ y = Fin b /\ (a <= b)%Q.
Proof.
  destruct x as [|a], y as [|b]; simpl; try discriminate.
  intros H%Qle_bool_iff. eauto.
Qed.

Lemma flt_false_fle (x y : pyfloat) :
  isnan x = false -> isnan y = false -> flt y x = false -> fle x y = true.
Proof.
  destruct x as [|a], y as [|b]; simpl; try discriminate.
  intros _ _ H. apply negb_false_iff in H. exact H.
Qed.

Lemma flt_trans (x y z : pyfloat) :
  flt x y = true -> flt y z = true -> flt x z = true.
Proof.
  destruct x as [|a], y as [|b], z as [|c]; simpl; try discriminate.
  rewrite !negb_true_iff. intros H1 H2.
  destruct (Qle_bool c a) eqn:E; [|reflexivity].
  apply Qle_bool_iff in E.
  assert (~ (b <= a)%Q) by (rewrite <- Qle_bool_iff, H1; discriminate).
  assert (~ (c <= b)%Q) by (rewrite <- Qle_bool_iff, H2; discriminate).
  lra.
Qed.

Lemma flt_fle_trans (x y z : pyfloat) :
  isnan z = false ->
  flt x y = true -> flt z y = false -> flt x z = true.
Proof.
  destruct x as [|a], y as [|b], z as [|c]; simpl; try discriminate.
  rewrite negb_true_iff, negb_false_iff. intros _ H1 H2.
  apply Qle_bool_iff in H2.
  destruct (Qle_bool c a) eqn:E; [|reflexivity].
  apply Qle_bool_iff in E.
  assert (~ (b <= a)%Q) by (rewrite <- Qle_bool_iff, H1; discriminate).
  lra.
Qed.

Lemma flt_irrefl (x : pyfloat) : flt x x = false.
Proof.
  destruct x as [|a]; [reflexivity|]. simpl.
  apply negb_false_iff, Qle_bool_iff. lra.
Qed.

(** *** [idxmin]: the first least element *)

Abbreviation has_number := (fun x : Z * pyfloat => isnan x.2 = false).

Lemma argmin_from_spec (l : list (Z * pyfloat)) (best : Z * pyfloat) :
  Forall has_number l ->
  (argmin_from best l = best /\ Forall (fun y => flt y.2 best.2 = false) l) \/
  (exists l1 l2,
     l = l1 ++ argmin_from best l :: l2 /\
     flt (argmin_from best l).2 best.2 = true /\
     Forall (fun y => flt (argmin_from best l).2 y.2 = true) l1 /\
     Forall (fun y => flt y.2 (argmin_from best l).2 = false) l2).
Proof.
  revert best. induction l as [|x l IH]; intros best Hnum.
  { left. split; [reflexivity | constructor]. }
  inversion Hnum as [|? ? Hx Hl]; subst. simpl.
  destruct (flt x.2 best.2) eqn:Hlt.
  - right. destruct (IH x Hl) as [[Heq Hall] | (l1 & l2 & Hdec & Hr & H1 & H2)].
    + exists [], l. rewrite Heq. repeat split; auto.
    + exists (x :: l1), l2. rewrite Hdec at 1. repeat split; auto.
      eapply flt_trans; eauto.
  - destruct (IH best Hl) as [[Heq Hall] | (l1 & l2 & Hdec & Hr & H1 & H2)].
    + left. split; [exact Heq | constructor; assumption].
    + right. exists (x :: l1), l2. rewrite Hdec at 1. repeat split; auto.
      constructor; [|exact H1].
      eapply flt_fle_trans; eauto.
Qed.

Lemma idxmin_spec (s : list (Z * pyfloat)) :
  Forall has_number s -> s <> [] ->
  exists s1 x s2,
    s = s1 ++ x :: s2 /\ idxmin s = Some x.1 /\
    Forall (fun y => flt x.2 y.2 = true) s1 /\
    Forall (fun y => flt y.2 x.2 = false) s2.
Proof.
  intros Hnum Hne. unfold idxmin.
  assert (Hf : filter (fun x : Z * pyfloat => isnan x.2 = false) s = s).
  { clear Hne. induction Hnum as [|x l Hx Hl IH]; [reflexivity|].
    rewrite filter_cons_True by exact Hx. now rewrite IH. }
  rewrite Hf. destruct s as [|x l]; [congruence|].
  inversion Hnum as [|? ? Hx Hl]; subst.
  destruct (argmin_from_spec l x Hl) as [[Heq Hall] | (l1 & l2 & Hdec & Hr & H1 & H2)].
  - exists [], x, l. rewrite Heq. repeat split; auto.
  - exists (x :: l1), (argmin_from x l), l2. rewrite Hdec at 1.
    repeat split; auto.
Qed.

(** *** Lists *)

Lemma filter_app_cons_inv {A} (P : A -> Prop) `{!forall x, Decision (P x)}
    (l l1 l2 : list A) (x : A) :
  filter P l = l1 ++ x :: l2 ->
  exists k1 k2, l = k1 ++ x :: k2 /\ filter P k1 = l1 /\ filter P k2 = l2 /\ P x.
Proof.
  revert l1. induction l as [|a l IH]; intros l1 Hf.
  { destruct l1; discriminate Hf. }
  rewrite filter_cons in Hf. destruct (decide (P a)) as [Ha | Ha].
  - destruct l1 as [|b l1]; simpl in Hf; injection Hf as -> Hf.
    + exists [], l. auto.
    + destruct (IH _ Hf) as (k1 & k2 & -> & H1 & H2 & Hx).
      exists (b :: k1), k2. rewrite filter_cons_True by exact Ha.
      rewrite H1. auto.
  - destruct (IH _ Hf) as (k1 & k2 & -> & H1 & H2 & Hx).
    exists (a :: k1), k2. rewrite filter_cons_False by exact Ha. auto.
Qed.

Lemma filter_nil_Forall {A} (P : A -> Prop) `{!forall x, Decision (P x)}
    (l : list A) :
  filter P l = [] -> Forall (fun x => ~ P x) l.
Proof.
  intros Hf. apply Forall_forall. intros x Hx HP.
  exact (filter_nil_not_elem_of P l x Hf HP Hx).
Qed.

Lemma filter_fmap_comm {A B} (f : A -> B) (Q : B -> Prop)
    `{!forall y, Decision (Q y)} (l : list A) :
  filter Q (f <$> l) = f <$> filter (fun x => Q (f x)) l.
Proof.
  induction l as [|a l IH]; [reflexivity|].
  rewrite fmap_cons, !filter_cons. simpl.
  destruct (decide (Q (f a))); rewrite IH; reflexivity.
Qed.

Section Rounded.

Context {R : Rounding}.

(** *** One turn of the loop *)

Section Body.

Variable old_df : list (Z * row).
Variable distance_tolerance : pyfloat.
Variables calculate_growth has_depth_data has_wt_data : bool.
Variable year_diff : Z.

Abbreviation body :=
  (loop_body old_df distance_tolerance calculate_growth has_depth_data
             has_wt_data year_diff).
Abbreviation grow :=
  (extend calculate_growth has_depth_data has_wt_data year_diff).

Lemma loop_body_spec (st st' : LoopState) (new_defect : row) :
  body st new_defect = inr st' ->
  let in_pool := fun o => mask (matched_old st) new_defect distance_tolerance o = true in
  (Forall (fun lr => ~ in_pool lr.2) old_df /\ st' = st) \/
  (exists o1 lbl o o2,
     old_df = o1 ++ (lbl, o) :: o2 /\ in_pool o /\
     Forall (fun lr => in_pool lr.2 ->
               flt (distance o new_defect) (distance lr.2 new_defect) = true) o1 /\
     Forall (fun lr => in_pool lr.2 ->
               flt (distance lr.2 new_defect) (distance o new_defect) = false) o2 /\
     st' = grow st o new_defect).
Proof.
  intros Hb in_pool. unfold loop_body in Hb.
  destruct (distance_operands old_df new_defect); [|discriminate].
  cbn [negb] in Hb.
  set (pool := potential_matches old_df (matched_old st) new_defect
                                 distance_tolerance) in *.
  destruct pool as [|p0 pool'] eqn:Hpool.
  { left. injection Hb as <-. split; [|reflexivity].
    apply (filter_nil_Forall (fun lr => in_pool lr.2)). exact Hpool. }
  right. rewrite <- Hpool in Hb.
  set (dists := (fun lr : Z * row => (lr.1, distance lr.2 new_defect)) <$> pool) in *.
  assert (Hnum : Forall has_number dists).
  { apply Forall_fmap, Forall_forall. intros [l r] Hin. simpl.
    apply list_elem_of_filter in Hin as [Hm _]. simpl in Hm.
    apply andb_true_iff in Hm as [_ Hle].
    apply fle_fin in Hle as (a & b & -> & _). reflexivity. }
  assert (Hne : dists <> []).
  { unfold dists. rewrite Hpool. discriminate. }
  destruct (idxmin_spec dists Hnum Hne) as (s1 & x & s2 & Hdec & Hidx & Hs1 & Hs2).
  rewrite Hidx in Hb.
  apply fmap_app_inv in Hdec as (p1 & p2' & -> & Hx & Hp).
  symmetry in Hx.
  apply fmap_cons_inv in Hx as ([lbl o] & p2 & -> & -> & ->).
  simpl in Hb, Hs1, Hs2.
  destruct (loc_rows lbl pool) as [|[l1 c] [|? ?]] eqn:Hloc; try discriminate Hb.
  assert (Hin : (lbl, o) ∈ loc_rows lbl pool).
  { apply list_elem_of_filter. split; [reflexivity|].
    rewrite Hp. apply elem_of_app. right. left. }
  rewrite Hloc in Hin. apply list_elem_of_singleton in Hin. injection Hin as <- <-.
  assert (Hlocd : loc_rows lbl dists = [(lbl, distance o new_defect)]).
  { unfold dists, loc_rows.
    rewrite filter_fmap_comm. simpl.
    change (filter _ pool) with (loc_rows lbl pool). now rewrite Hloc. }
  rewrite Hlocd in Hb.
  destruct (growth_operands calculate_growth has_depth_data has_wt_data o
                            new_defect); [|discriminate].
  cbn [negb] in Hb. injection Hb as <-.
  unfold pool, potential_matches in Hp.
  apply filter_app_cons_inv in Hp as (o1 & o2 & Hold & <- & <- & Hmask).
  exists o1, lbl, o, o2. split; [exact Hold|]. split; [exact Hmask|].
  split; [|split; [|reflexivity]].
  - apply Forall_forall. intros lr Hlr Hm.
    rewrite Forall_fmap, Forall_forall in Hs1. apply (Hs1 lr).
    apply list_elem_of_filter. auto.
  - apply Forall_forall. intros lr Hlr Hm.
    rewrite Forall_fmap, Forall_forall in Hs2. apply (Hs2 lr).
    apply list_elem_of_filter. auto.
Qed.

(** A turn that returns has computed with numbers. *)
Lemma loop_body_numbers (st st' : LoopState) (new_defect : row) :
  body st new_defect = inr st' ->
  distance_operands old_df new_defect = true.
Proof.
  unfold loop_body.
  destruct (distance_operands old_df new_defect); [reflexivity | discriminate].
Qed.

End Body.

(** *** The loop invariant *)

Lemma consumed_before_all (ms : list Match) (k : nat) :
  Forall (fun m => 0 <= new_defect_id m < Z.of_nat k) ms ->
  consumed_before ms k = old_defect_id <$> ms.
Proof.
  intros H. unfold consumed_before. f_equal.
  induction H as [|m l Hm Hl IH]; [reflexivity|].
  rewrite filter_cons_True by lia. now rewrite IH.
Qed.

Lemma consumed_before_snoc (ms : list Match) (m : Match) (j : nat) :
  Z.of_nat j <= new_defect_id m ->
  consumed_before (ms ++ [m]) j = consumed_before ms j.
Proof.
  intros H. unfold consumed_before.
  rewrite filter_app, filter_cons_False, filter_nil, app_nil_r by lia.
  reflexivity.
Qed.

Lemma candidate_ext old new tol (ms ms' : list Match) (j i : nat) :
  consumed_before ms' j = consumed_before ms j ->
  candidate old new tol ms j i <-> candidate old new tol ms' j i.
Proof. unfold candidate. intros ->. reflexivity. Qed.

Lemma candidate_snoc old new tol (ms : list Match) (m : Match) (j i : nat) :
  Z.of_nat j <= new_defect_id m ->
  candidate old new tol (ms ++ [m]) j i <-> candidate old new tol ms j i.
Proof.
  intros H. apply candidate_ext. symmetry. now apply consumed_before_snoc.
Qed.

Lemma greedy_choice_ext old new tol (ms ms' : list Match) (j : nat) :
  consumed_before ms' j = consumed_before ms j ->
  (forall m, m ∈ ms -> m ∈ ms') ->
  greedy_choice old new tol ms j -> greedy_choice old new tol ms' j.
Proof.
  intros Hc Hsub Hg [i0 Hi0].
  destruct Hg as (m & i & Hm & Hn & Ho & Hcand & Hd & Hmin).
  { exists i0. now apply (candidate_ext old new tol ms ms'). }
  exists m, i. split_and!; auto.
  - now apply (candidate_ext old new tol ms ms').
  - intros i' Hi'. apply Hmin. now apply (candidate_ext old new tol ms ms').
Qed.

Lemma match_is_candidate_snoc old new tol (ms : list Match) (m : Match) (j : nat) :
  Z.of_nat j < new_defect_id m ->
  match_is_candidate old new tol ms j ->
  match_is_candidate old new tol (ms ++ [m]) j.
Proof.
  intros Hlt Hc m' Hin Hj.
  apply elem_of_app in Hin as [Hin | Hin].
  - destruct (Hc m' Hin Hj) as (i & Ho & Hcand). exists i. split; [exact Ho|].
    apply candidate_snoc; [lia | exact Hcand].
  - apply list_elem_of_singleton in Hin. subst m'. lia.
Qed.


Lemma flt_fle (x y : pyfloat) : flt x y = true -> fle x y = true.
Proof.
  destruct x as [|a], y as [|b]; simpl; try discriminate.
  rewrite negb_true_iff. intros H.
  apply Qle_bool_iff.
  assert (~ (b <= a)%Q) by (rewrite <- Qle_bool_iff, H; discriminate). lra.
Qed.

Lemma fle_refl_of (x y : pyfloat) : fle x y = true -> fle x x = true.
Proof.
  intros (a & b & -> & _ & _)%fle_fin. simpl. apply Qle_bool_iff. lra.
Qed.

Lemma fle_number (x y : pyfloat) : fle x y = true -> isnan x = false.
Proof. intros (a & b & -> & _ & _)%fle_fin. reflexivity. Qed.

Section LoopInvariant.

Variables old_f new_f : DataFrame.
Variable tol : pyfloat.
Variables cg hd hw : bool.
Variable yd : Z.
Hypothesis Hold : ids_are_positions (rows old_f).
Hypothesis Hnew : ids_are_positions (rows new_f).

Lemma dist_at_lookup (i j : nat) (lo ln : Z) (o n : row) :
  rows old_f !! i = Some (lo, o) -> rows new_f !! j = Some (ln, n) ->
  dist_at old_f new_f i j = distance o n.
Proof. unfold dist_at. now intros -> ->. Qed.


Lemma mask_candidate (st : LoopState) (k i : nat) (lo ln : Z) (o n : row) :
  loop_invariant old_f new_f tol cg hd hw yd k st ->
  rows old_f !! i = Some (lo, o) -> rows new_f !! k = Some (ln, n) ->
  mask (matched_old st) n tol o = true <->
  candidate old_f new_f tol (matches st) k i.
Proof.
  intros Hinv Ho Hn. unfold mask, candidate.
  rewrite (dist_at_lookup i k lo ln o n Ho Hn).
  rewrite (consumed_before_all _ _ (inv_range _ _ _ _ _ _ _ _ _ Hinv)).
  rewrite <- (inv_old _ _ _ _ _ _ _ _ _ Hinv).
  pose proof (Hold i _ Ho) as Hid. simpl in Hid. rewrite Hid.
  rewrite andb_true_iff, negb_true_iff, bool_decide_eq_false.
  apply lookup_lt_Some in Ho, Hn. tauto.
Qed.

Lemma loop_invariant_step (k : nat) (st st' : LoopState) (ln : Z) (n : row) :
  rows new_f !! k = Some (ln, n) ->
  loop_invariant old_f new_f tol cg hd hw yd k st ->
  loop_body (rows old_f) tol cg hd hw yd st n = inr st' ->
  loop_invariant old_f new_f tol cg hd hw yd (S k) st'.
Proof.
  intros Hn Hinv Hb.
  pose proof (Hnew k _ Hn) as Hidn. simpl in Hidn.
  destruct (loop_body_spec _ _ _ _ _ _ _ _ _ Hb)
    as [[Hnone ->] | (o1 & lo & o & o2 & Hdec & Hmask & Hbefore & Hafter & ->)].
  - (* no candidate *)
    destruct Hinv as [Io In Ir Is Id Ig Ic Im]. split; auto.
    + eapply Forall_impl; [exact Ir|]. simpl. intros; lia.
    + intros j Hj. destruct (decide (j = k)) as [-> | Hne].
      * intros [i Hcand]. exfalso.
        pose proof Hcand as (Hi & _).
        apply lookup_lt_is_Some_2 in Hi as [[l' o'] Ho'].
        apply (mask_candidate st k i l' ln o' n) in Hcand; auto.
        2:{ split; auto. }
        rewrite Forall_forall in Hnone.
        apply (Hnone (l', o')); [|exact Hcand].
        eapply list_elem_of_lookup_2; eauto.
      * apply Ig. lia.
    + intros j Hj. destruct (decide (j = k)) as [-> | Hne].
      * intros m Hm Hk. rewrite Forall_forall in Ir. specialize (Ir m Hm). lia.
      * apply Ic. lia.
  - (* a match *)
    set (i := length o1).
    assert (Ho : rows old_f !! i = Some (lo, o)).
    { rewrite Hdec. apply list_lookup_middle. reflexivity. }
    pose proof (Hold i _ Ho) as Hido. simpl in Hido.
    pose proof (proj1 (mask_candidate st k i lo ln o n Hinv Ho Hn) Hmask) as Hcand.
    pose proof Hinv as [Io In Ir Is Id Ig Ic Im].
    assert (Hfresh : Z.of_nat i ∉ old_defect_id <$> matches st).
    { destruct Hcand as (_ & _ & Hc & _).
      now rewrite (consumed_before_all _ _ Ir) in Hc. }
    split; unfold extend; simpl.
    + intros z. rewrite fmap_app, elem_of_app, elem_of_union, Io. simpl.
      rewrite elem_of_singleton, list_elem_of_singleton. reflexivity.
    + intros z. rewrite fmap_app, elem_of_app, elem_of_union, In. simpl.
      rewrite elem_of_singleton, list_elem_of_singleton. reflexivity.
    + apply Forall_app. split.
      * eapply Forall_impl; [exact Ir|]. simpl. intros; lia.
      * constructor; [|constructor]. simpl. lia.
    + rewrite fmap_app. apply StronglySorted_app_2; auto.
      * intros x1 x2 Hx1 Hx2. simpl in Hx2.
        apply list_elem_of_singleton in Hx2. subst x2.
        apply list_elem_of_fmap in Hx1 as (m & -> & Hm).
        rewrite Forall_forall in Ir. specialize (Ir m Hm). lia.
      * simpl. repeat constructor.
    + rewrite fmap_app. apply NoDup_app. split; [exact Id|]. split.
      * intros x Hx Hx'. simpl in Hx'. apply list_elem_of_singleton in Hx'.
        subst x. rewrite Hido in Hx. contradiction.
      * simpl. apply NoDup_singleton.
    + intros j Hj. destruct (decide (j = k)) as [-> | Hne].
      * intros _. eexists _, i. split_and!.
        -- apply elem_of_app. right. apply list_elem_of_singleton. reflexivity.
        -- simpl. exact Hidn.
        -- simpl. exact Hido.
        -- apply candidate_snoc; [simpl; lia | exact Hcand].
        -- simpl. symmetry. eapply dist_at_lookup; eauto.
        -- intros i' Hi'.
           apply candidate_snoc in Hi'; [|simpl; lia].
           pose proof Hi' as (Hlt & _).
           apply lookup_lt_is_Some_2 in Hlt as [[l' o'] Ho'].
           pose proof (proj2 (mask_candidate st k i' l' ln o' n Hinv Ho' Hn) Hi')
             as Hm'.
           rewrite (dist_at_lookup i k lo ln o n Ho Hn).
           rewrite (dist_at_lookup i' k l' ln o' n Ho' Hn).
           pose proof Hmask as Hle. unfold mask in Hle.
           apply andb_true_iff in Hle as [_ Hle].
           pose proof Hm' as Hle'. unfold mask in Hle'.
           apply andb_true_iff in Hle' as [_ Hle'].
           destruct (lt_eq_lt_dec i' i) as [[Hlt | Heq] | Hgt].
           ++ assert (Hin : (l', o') ∈ o1).
              { eapply list_elem_of_lookup_2 with (i := i').
                rewrite Hdec, lookup_app_l in Ho' by exact Hlt. exact Ho'. }
              rewrite Forall_forall in Hbefore.
              pose proof (Hbefore _ Hin Hm') as Hs. simpl in Hs.
              split; [now apply flt_fle | intros _; exact Hs].
           ++ subst i'. rewrite Ho in Ho'. injection Ho' as <- <-.
              split; [eapply fle_refl_of; eauto | lia].
           ++ assert (Hin : (l', o') ∈ o2).
              { eapply list_elem_of_lookup_2 with (i := (i' - S i)%nat).
                rewrite Hdec in Ho'.
                rewrite lookup_app_r in Ho' by (fold i; lia). fold i in Ho'.
                replace (i' - i)%nat with (S (i' - S i)) in Ho' by lia.
                exact Ho'. }
              rewrite Forall_forall in Hafter.
              pose proof (Hafter _ Hin Hm') as Hs. simpl in Hs.
              split; [|lia].
              apply flt_false_fle; eauto using fle_number.
      * eapply greedy_choice_ext; [| |apply Ig; lia].
        -- apply consumed_before_snoc. simpl. lia.
        -- intros m Hm. apply elem_of_app. now left.
    + intros j Hj. destruct (decide (j = k)) as [-> | Hne].
      * intros m Hm Hk. apply elem_of_app in Hm as [Hm | Hm].
        { rewrite Forall_forall in Ir. specialize (Ir m Hm). lia. }
        apply list_elem_of_singleton in Hm. subst m. simpl.
        exists i. split; [exact Hido|].
        apply candidate_snoc; [simpl; lia | exact Hcand].
      * apply match_is_candidate_snoc; [simpl; lia | apply Ic; lia].
    + apply Forall_app. split; [exact Im|]. constructor; [|constructor].
      exists i, k, lo, ln, o, n. auto.
Qed.

End LoopInvariant.


Section LoopRun.

Variables old_f new_f : DataFrame.
Variable tol : pyfloat.
Variables cg hd hw : bool.
Variable yd : Z.
Hypothesis Hold : ids_are_positions (rows old_f).
Hypothesis Hnew : ids_are_positions (rows new_f).

Lemma loop_invariant_init :
  loop_invariant old_f new_f tol cg hd hw yd 0
    {| matched_old := ∅; matched_new := ∅; matches := [] |}.
Proof.
  split; simpl; try (intros; lia); try constructor.
  - intros Hz. set_solver.
  - intros Hz. set_solver.
  - intros Hz. set_solver.
  - intros Hz. set_solver.
Qed.

Lemma loop_invariant_loop (rest : list (Z * row)) :
  forall (k : nat) (st st' : LoopState),
    (k <= length (rows new_f))%nat ->
    drop k (rows new_f) = rest ->
    loop_invariant old_f new_f tol cg hd hw yd k st ->
    loop (rows old_f) tol cg hd hw yd st rest = inr st' ->
    loop_invariant old_f new_f tol cg hd hw yd (length (rows new_f)) st'.
Proof.
  induction rest as [|[ln n] rest IH]; intros k st st' Hk Hdrop Hinv Hloop.
  - simpl in Hloop. injection Hloop as <-.
    apply drop_nil_inv in Hdrop.
    replace (length (rows new_f)) with k by lia. exact Hinv.
  - simpl in Hloop.
    destruct (loop_body (rows old_f) tol cg hd hw yd st n) as [e | st1] eqn:Hb;
      [discriminate|].
    assert (Hn : rows new_f !! k = Some (ln, n)).
    { rewrite <- (Nat.add_0_r k), <- lookup_drop, Hdrop. reflexivity. }
    apply (IH (S k) st1 st').
    + apply lookup_lt_Some in Hn. lia.
    + rewrite (drop_S _ _ _ Hn) in Hdrop. now injection Hdrop.
    + eapply loop_invariant_step; eauto.
    + exact Hloop.
Qed.

Lemma loop_final (st : LoopState) :
  loop (rows old_f) tol cg hd hw yd
       {| matched_old := ∅; matched_new := ∅; matches := [] |} (rows new_f)
    = inr st ->
  loop_invariant old_f new_f tol cg hd hw yd (length (rows new_f)) st.
Proof.
  apply (loop_invariant_loop (rows new_f) 0); [lia | reflexivity |].
  apply loop_invariant_init.
Qed.

End LoopRun.


(** *** Unique labels: the loop raises nothing *)

Lemma loc_rows_unique {A} (lbl : Z) (x : A) (l : list (Z * A)) :
  NoDup (l.*1) -> (lbl, x) ∈ l -> loc_rows lbl l = [(lbl, x)].
Proof.
  unfold loc_rows. induction l as [|[a y] l IH]; intros Hnd Hin.
  { now apply elem_of_nil in Hin. }
  rewrite fmap_cons in Hnd. apply NoDup_cons in Hnd as [Ha Hnd]. simpl in Ha.
  rewrite filter_cons. simpl. destruct (decide (a = lbl)) as [-> | Hne].
  - apply elem_of_cons in Hin as [Heq | Hin].
    + injection Heq as ->. f_equal.
      destruct (filter (fun lr : Z * A => lr.1 = lbl) l) as [|[b z] r] eqn:Hf;
        [reflexivity|].
      exfalso. apply Ha.
      assert (Hb : (b, z) ∈ filter (fun lr : Z * A => lr.1 = lbl) l)
        by (rewrite Hf; left).
      apply list_elem_of_filter in Hb as [Hb1 Hb2]. simpl in Hb1. subst b.
      apply list_elem_of_fmap. exists (lbl, z). auto.
    + exfalso. apply Ha. apply list_elem_of_fmap. exists (lbl, x). auto.
  - apply IH; [exact Hnd|].
    apply elem_of_cons in Hin as [Heq | Hin]; [congruence | exact Hin].
Qed.

Lemma NoDup_fst_filter {A} (P : Z * A -> Prop) `{!forall x, Decision (P x)}
    (l : list (Z * A)) :
  NoDup (l.*1) -> NoDup ((filter P l).*1).
Proof.
  induction l as [|x l IH]; [auto|].
  rewrite fmap_cons. intros [Hx Hnd]%NoDup_cons.
  rewrite filter_cons. destruct (decide (P x)); [|auto].
  rewrite fmap_cons. apply NoDup_cons. split; [|auto].
  intros Hin. apply Hx.
  apply list_elem_of_fmap in Hin as (y & -> & Hy).
  apply list_elem_of_filter in Hy as [_ Hy].
  apply list_elem_of_fmap. eauto.
Qed.

Section NoError.

Variable old_df : list (Z * row).
Variable tol : pyfloat.
Variables cg hd hw : bool.
Variable yd : Z.
Hypothesis Hlabels : NoDup (old_df.*1).

Lemma loop_body_returns (st : LoopState) (n : row) :
  distance_operands old_df n = true ->
  (forall lr, lr ∈ old_df -> growth_operands cg hd hw lr.2 n = true) ->
  exists st', loop_body old_df tol cg hd hw yd st n = inr st'.
Proof.
  intros Hdist Hgrowth. unfold loop_body. rewrite Hdist. cbn [negb].
  set (pool := potential_matches old_df (matched_old st) n tol).
  destruct pool as [|p0 pool'] eqn:Hpool; [eauto|].
  rewrite <- Hpool.
  set (dists := (fun lr : Z * row => (lr.1, distance lr.2 n)) <$> pool).
  assert (Hnum : Forall has_number dists).
  { apply Forall_fmap, Forall_forall. intros [l r] Hin. simpl.
    apply list_elem_of_filter in Hin as [Hm _]. simpl in Hm.
    apply andb_true_iff in Hm as [_ Hle]. eapply fle_number; eauto. }
  assert (Hne : dists <> []).
  { unfold dists. rewrite Hpool. discriminate. }
  destruct (idxmin_spec dists Hnum Hne) as (s1 & x & s2 & Hdec & -> & _).
  assert (Hx : x ∈ dists).
  { rewrite Hdec. apply elem_of_app. right. left. }
  apply list_elem_of_fmap in Hx as ([lbl o] & -> & Ho). simpl.
  assert (Hnd : NoDup (pool.*1)) by (apply NoDup_fst_filter, Hlabels).
  rewrite (loc_rows_unique lbl o pool Hnd Ho).
  rewrite (loc_rows_unique lbl (distance o n) dists).
  - apply list_elem_of_filter in Ho as [_ Ho].
    pose proof (Hgrowth _ Ho) as Hg. cbn [snd] in Hg.
    rewrite Hg. cbn [negb]. eauto.
  - unfold dists. rewrite <- list_fmap_compose. exact Hnd.
  - unfold dists. apply list_elem_of_fmap. exists (lbl, o). auto.
Qed.

Lemma loop_returns (new_rows : list (Z * row)) :
  Forall (fun ln => distance_operands old_df ln.2 = true /\
                    forall lr, lr ∈ old_df ->
                      growth_operands cg hd hw lr.2 ln.2 = true) new_rows ->
  forall st, exists st', loop old_df tol cg hd hw yd st new_rows = inr st'.
Proof.
  induction 1 as [|[ln n] rest [Hd Hg] Hrest IH]; intros st; simpl; [eauto|].
  destruct (loop_body_returns st n Hd Hg) as [st1 ->]. apply IH.
Qed.

End NoError.

(** *** The copies with their ids *)

Lemma with_ids_lookup (df : DataFrame) (i : nat) :
  rows (with_ids df) !! i =
  (fun lr => (lr.1, <["defect_id" := PyInt (Z.of_nat i)]> lr.2)) <$> rows df !! i.
Proof.
  unfold with_ids, set_column, range. simpl.
  rewrite lookup_zip_with, list_lookup_fmap.
  destruct (rows df !! i) as [lr|] eqn:Hi; [|reflexivity]. simpl.
  rewrite lookup_seq_lt by (eapply lookup_lt_Some; eauto). reflexivity.
Qed.

Lemma with_ids_length (df : DataFrame) :
  length (rows (with_ids df)) = length (rows df).
Proof.
  unfold with_ids, set_column, range. simpl.
  rewrite length_zip_with_l_eq; [reflexivity|].
  now rewrite length_fmap, length_seq.
Qed.

Lemma with_ids_positions (df : DataFrame) : ids_are_positions (rows (with_ids df)).
Proof.
  intros i lr Hi. rewrite with_ids_lookup in Hi.
  destruct (rows df !! i) as [[l r]|]; [|discriminate]. injection Hi as <-.
  unfold defect_id, cell. simpl. now rewrite lookup_insert_eq.
Qed.

Lemma with_ids_labels (df : DataFrame) : (rows (with_ids df)).*1 = (rows df).*1.
Proof.
  apply list_eq. intros i. rewrite !list_lookup_fmap, with_ids_lookup.
  now destruct (rows df !! i).
Qed.

Lemma log_distance_insert_id (v : pyval) (r : row) :
  log_distance (<["defect_id" := v]> r) = log_distance r.
Proof. unfold log_distance, cell. now rewrite lookup_insert_ne. Qed.

Lemma cell_insert_id (v : pyval) (r : row) (c : string) :
  c <> "defect_id"%string -> cell (<["defect_id" := v]> r) c = cell r c.
Proof. intros Hc. unfold cell. now rewrite lookup_insert_ne. Qed.

Lemma gap_insert_id (v w : pyval) (o n : row) :
  gap (<["defect_id" := v]> o) (<["defect_id" := w]> n) = gap o n.
Proof. unfold gap. now rewrite !cell_insert_id. Qed.

(** The cells of a row of numbers. *)
Lemma numeric_cells_row (df : DataFrame) (lr : Z * row) (c : string) :
  numeric_cells df = true -> lr ∈ rows df ->
  c ∈ ["log dist. [m]"; "depth [%]"; "wt nom [mm]"]%string ->
  is_number (cell lr.2 c) = true.
Proof.
  unfold numeric_cells. intros Hall Hlr Hc.
  rewrite forallb_forall in Hall.
  specialize (Hall lr (proj1 (list_elem_of_In _ _) Hlr)).
  rewrite forallb_forall in Hall.
  exact (Hall c (proj1 (list_elem_of_In _ _) Hc)).
Qed.

Lemma with_ids_row (df : DataFrame) (lr : Z * row) :
  lr ∈ rows (with_ids df) ->
  exists l r i, lr = (l, <["defect_id" := PyInt (Z.of_nat i)]> r) /\
                (l, r) ∈ rows df.
Proof.
  intros Hin. apply list_elem_of_lookup in Hin as [i Hi].
  rewrite with_ids_lookup in Hi.
  destruct (rows df !! i) as [[l r]|] eqn:Hr; [|discriminate].
  injection Hi as <-. exists l, r, i. split; [reflexivity|].
  eapply list_elem_of_lookup_2; eauto.
Qed.

(** On tables of numbers no turn of the loop raises [TypeError]. *)
Lemma numeric_cells_operands (old new : DataFrame) (cg hd hw : bool) :
  numeric_cells old = true -> numeric_cells new = true ->
  Forall (fun ln => distance_operands (rows (with_ids old)) ln.2 = true /\
                    forall lr, lr ∈ rows (with_ids old) ->
                      growth_operands cg hd hw lr.2 ln.2 = true)
         (rows (with_ids new)).
Proof.
  intros Hold Hnew. apply Forall_forall. intros ln Hln.
  apply with_ids_row in Hln as (l & n & j & -> & Hn). cbn [snd].
  assert (Hnum_n : forall c,
            c ∈ ["log dist. [m]"; "depth [%]"; "wt nom [mm]"]%string ->
            is_number (cell (<["defect_id" := PyInt (Z.of_nat j)]> n) c) = true).
  { intros c Hc. rewrite cell_insert_id.
    - exact (numeric_cells_row new (l, n) c Hnew Hn Hc).
    - intros ->. repeat (apply elem_of_cons in Hc as [Hc | Hc]; [discriminate|]).
      now apply elem_of_nil in Hc. }
  assert (Hnum_o : forall lr c, lr ∈ rows (with_ids old) ->
            c ∈ ["log dist. [m]"; "depth [%]"; "wt nom [mm]"]%string ->
            is_number (cell lr.2 c) = true).
  { intros lr c Hlr Hc.
    apply with_ids_row in Hlr as (lo & o & i & -> & Ho). cbn [snd].
    rewrite cell_insert_id.
    - exact (numeric_cells_row old (lo, o) c Hold Ho Hc).
    - intros ->. repeat (apply elem_of_cons in Hc as [Hc | Hc]; [discriminate|]).
      now apply elem_of_nil in Hc. }
  split.
  - unfold distance_operands. apply andb_true_iff. split.
    + apply Hnum_n. left.
    + apply forallb_forall. intros lr Hlr. apply list_elem_of_In in Hlr.
      apply Hnum_o; [exact Hlr | left].
  - intros lr Hlr. unfold growth_operands.
    rewrite (Hnum_o lr "depth [%]"%string Hlr) by (right; left).
    rewrite (Hnum_o lr "wt nom [mm]"%string Hlr) by (right; right; left).
    rewrite (Hnum_n "depth [%]"%string) by (right; left).
    rewrite (Hnum_n "wt nom [mm]"%string) by (right; right; left).
    now rewrite !orb_true_r.
Qed.

Lemma dist_at_with_ids (old new : DataFrame) (i j : nat) :
  dist_at (with_ids old) (with_ids new) i j = dist_at old new i j.
Proof.
  unfold dist_at. rewrite !with_ids_lookup.
  destruct (rows old !! i) as [[lo o]|], (rows new !! j) as [[ln n]|]; simpl; auto.
  apply gap_insert_id.
Qed.

Lemma candidate_with_ids old new tol ms j i :
  candidate (with_ids old) (with_ids new) tol ms j i <-> candidate old new tol ms j i.
Proof.
  unfold candidate. now rewrite !with_ids_length, dist_at_with_ids.
Qed.

Lemma greedy_choice_with_ids old new tol ms j :
  greedy_choice (with_ids old) (with_ids new) tol ms j ->
  greedy_choice old new tol ms j.
Proof.
  intros Hg [i0 Hi0].
  destruct Hg as (m & i & Hm & Hn & Ho & Hcand & Hd & Hmin).
  { exists i0. now apply candidate_with_ids. }
  exists m, i. split_and!; auto.
  - now apply candidate_with_ids.
  - now rewrite <- (dist_at_with_ids old new i j).
  - intros i' Hi'.
    rewrite <- (dist_at_with_ids old new i j), <- (dist_at_with_ids old new i' j).
    apply Hmin.
    now apply candidate_with_ids.
Qed.

Lemma match_is_candidate_with_ids old new tol ms j :
  match_is_candidate (with_ids old) (with_ids new) tol ms j ->
  match_is_candidate old new tol ms j.
Proof.
  intros Hc m Hm Hj. destruct (Hc m Hm Hj) as (i & Ho & Hcand).
  exists i. split; [exact Ho | now apply candidate_with_ids].
Qed.


(** *** The run on the store *)

Lemma compare_defects_run (h : gmap nat DataFrame) (ro rn : nat)
    (old new : DataFrame) (oy ny : option Z) (tol : pyfloat) :
  h !! ro = Some old -> h !! rn = Some new ->
  let lo := fresh (dom h) in
  let h1 := <[lo := old]> h in
  let ln := fresh (dom h1) in
  let h2 := <[ln := new]> h1 in
  compare_defects ro rn oy ny tol h =
  match check_columns old new with
  | inl e => (h2, inl e)
  | inr _ =>
      (<[ln := with_ids new]> (<[lo := with_ids old]> h2),
       compare_frames (with_ids old) (with_ids new)
         (growth_eligible oy ny)
         (has_column old "depth [%]" && has_column new "depth [%]")
         (has_column old "wt nom [mm]" && has_column new "wt nom [mm]")
         (years_between oy ny) tol)
  end.
Proof.
  intros Hro Hrn lo h1 ln h2.
  assert (Hlo : h !! lo = None).
  { apply not_elem_of_dom. apply is_fresh. }
  assert (Hln : h1 !! ln = None).
  { apply not_elem_of_dom. apply is_fresh. }
  assert (Hne : lo <> ln).
  { intros Heq. unfold h1 in Hln. rewrite <- Heq, lookup_insert_eq in Hln.
    discriminate. }
  assert (Hrn1 : h1 !! rn = Some new).
  { unfold h1. rewrite lookup_insert_ne; [exact Hrn|]. congruence. }
  assert (H2lo : h2 !! lo = Some old).
  { unfold h2, h1. rewrite lookup_insert_ne by congruence.
    apply lookup_insert_eq. }
  assert (H2ln : h2 !! ln = Some new) by apply lookup_insert_eq.
  unfold compare_defects, copy, read, alloc, assign_column, lift.
  unfold mbind, M_bind. rewrite Hro. fold lo h1. rewrite Hrn1. fold ln h2.
  rewrite H2lo, H2ln.
  destruct (check_columns old new) as [e | []]; [reflexivity|].
  rewrite H2lo. fold (with_ids old).
  rewrite lookup_insert_ne, H2ln by congruence. fold (with_ids new).
  rewrite lookup_insert_ne, lookup_insert_eq by congruence.
  rewrite lookup_insert_eq. reflexivity.
Qed.


Lemma compare_frames_inv (old_df new_df : DataFrame) (cg hd hw : bool) (yd : Z)
    (tol : pyfloat) (res : Result) :
  compare_frames old_df new_df cg hd hw yd tol = inr res ->
  exists st,
    loop (rows old_df) tol cg hd hw yd
         {| matched_old := ∅; matched_new := ∅; matches := [] |} (rows new_df)
      = inr st /\
    match_rows (matches_df res) = matches st /\
    new_defects res =
      {| columns := columns new_df;
         rows := filter (fun lr => defect_id lr.2 ∉ matched_new st) (rows new_df) |} /\
    common_defects_count res = length (matches st) /\
    new_defects_count res = length (rows (new_defects res)) /\
    total_defects res = length (rows new_df) /\
    calculate_growth res = cg /\ has_depth_data res = hd /\ has_wt_data res = hw.
Proof.
  unfold compare_frames. intros H.
  destruct (loop _ _ _ _ _ _ _ _) as [e | st]; [discriminate|].
  injection H as <-. exists st. simpl. split_and!; reflexivity.
Qed.

(** What a successful call says about the frames it was given. *)
Lemma compare_defects_inv (h h' : gmap nat DataFrame) (ro rn : nat)
    (old new : DataFrame) (oy ny : option Z) (tol : pyfloat) (res : Result) :
  h !! ro = Some old -> h !! rn = Some new ->
  compare_defects ro rn oy ny tol h = (h', inr res) ->
  check_columns old new = inr tt /\
  let cg := growth_eligible oy ny in
  let hd := has_column old "depth [%]" && has_column new "depth [%]" in
  let hw := has_column old "wt nom [mm]" && has_column new "wt nom [mm]" in
  let yd := years_between oy ny in
  exists st,
    loop_invariant (with_ids old) (with_ids new) tol cg hd hw yd
                   (length (rows new)) st /\
    match_rows (matches_df res) = matches st /\
    new_defects res =
      {| columns := columns (with_ids new);
         rows := filter (fun lr => defect_id lr.2 ∉ matched_new st)
                        (rows (with_ids new)) |} /\
    common_defects_count res = length (matches st) /\
    new_defects_count res = length (rows (new_defects res)) /\
    total_defects res = length (rows new) /\
    calculate_growth res = cg /\ has_depth_data res = hd /\ has_wt_data res = hw.
Proof.
  intros Hro Hrn Hrun.
  rewrite (compare_defects_run h ro rn old new oy ny tol Hro Hrn) in Hrun.
  destruct (check_columns old new) as [e | []]; [discriminate|].
  split; [reflexivity|]. intros cg hd hw yd.
  injection Hrun as _ Hres.
  apply compare_frames_inv in Hres
    as (st & Hloop & Hm & Hnd & Hc & Hn & Ht & Hflags).
  destruct Hflags as (Hf1 & Hf2 & Hf3).
  exists st. rewrite with_ids_length in Ht. split_and!; auto.
  rewrite <- (with_ids_length new).
  apply loop_final; auto using with_ids_positions.
Qed.

Lemma StronglySorted_lt_NoDup (l : list Z) : StronglySorted Z.lt l -> NoDup l.
Proof.
  induction 1 as [|x l Hs IH Hall]; constructor; [|exact IH].
  intros Hin. rewrite Forall_forall in Hall. specialize (Hall x Hin). lia.
Qed.

(** C2: in the matches of a result no old id and no new id appears twice. *)
Theorem compare_defects_one_to_one (h h' : gmap nat DataFrame) (ro rn : nat)
    (old new : DataFrame) (oy ny : option Z) (tol : pyfloat) (res : Result) :
  h !! ro = Some old -> h !! rn = Some new ->
  compare_defects ro rn oy ny tol h = (h', inr res) ->
  NoDup (old_defect_id <$> match_rows (matches_df res)) /\
  NoDup (new_defect_id <$> match_rows (matches_df res)).
Proof.
  intros Hro Hrn Hrun.
  destruct (compare_defects_inv h h' ro rn old new oy ny tol res Hro Hrn Hrun)
    as (_ & st & Hinv & -> & _).
  split; [exact (inv_nodup _ _ _ _ _ _ _ _ _ Hinv)|].
  apply StronglySorted_lt_NoDup. exact (inv_sorted _ _ _ _ _ _ _ _ _ Hinv).
Qed.

(** Rows whose id is in a duplicate-free list of valid ids: as many as the
    list is long. *)
Lemma count_ids (l : list (Z * row)) (ids : list Z) :
  ids_are_positions l -> NoDup ids ->
  Forall (fun z => 0 <= z < Z.of_nat (length l)) ids ->
  length (filter (fun lr => defect_id lr.2 ∈ ids) l) = length ids.
Proof.
  intros Hpos Hnd Hrange.
  assert (Hmap : (fun lr : Z * row => defect_id lr.2) <$> l
                 = Z.of_nat <$> seq 0 (length l)).
  { apply list_eq. intros i. rewrite !list_lookup_fmap.
    destruct (l !! i) as [lr|] eqn:Hi; simpl.
    - rewrite lookup_seq_lt by (eapply lookup_lt_Some; eauto). simpl.
      f_equal. eauto.
    - rewrite lookup_seq_ge; [reflexivity|]. now apply lookup_ge_None. }
  transitivity
    (length (filter (fun z => z ∈ ids)
                    ((fun lr : Z * row => defect_id lr.2) <$> l))).
  { rewrite filter_fmap_comm, length_fmap. reflexivity. }
  rewrite Hmap.
  apply Permutation_length, NoDup_Permutation; [| exact Hnd |].
  - apply NoDup_filter, NoDup_fmap_2, NoDup_seq. intros a b. lia.
  - intros z. rewrite list_elem_of_filter, list_elem_of_fmap. split.
    + tauto.
    + intros Hz. split; [exact Hz|].
      rewrite Forall_forall in Hrange. specialize (Hrange z Hz).
      exists (Z.to_nat z). split; [lia|]. apply elem_of_seq. lia.
Qed.

(** The rows outside the matched ids and the matches add up to the rows. *)
Lemma unmatched_count (old new : DataFrame) (tol : pyfloat) (cg hd hw : bool)
    (yd : Z) (st : LoopState) :
  loop_invariant (with_ids old) (with_ids new) tol cg hd hw yd
                 (length (rows new)) st ->
  (length (matches st)
   + length (filter (fun lr : Z * row => defect_id lr.2 ∉ matched_new st)
                    (rows (with_ids new)))
   = length (rows new))%nat.
Proof.
  intros Hinv.
  pose proof (filter_app_complement
                (fun lr : Z * row => defect_id lr.2 ∈ new_defect_id <$> matches st)
                (rows (with_ids new))) as Hperm.
  apply Permutation_length in Hperm. rewrite length_app in Hperm.
  rewrite with_ids_length in Hperm. rewrite <- Hperm.
  rewrite count_ids.
  - rewrite length_fmap. f_equal. f_equal.
    apply list_filter_iff. intros lr.
    now rewrite (inv_new _ _ _ _ _ _ _ _ _ Hinv).
  - apply with_ids_positions.
  - apply StronglySorted_lt_NoDup. exact (inv_sorted _ _ _ _ _ _ _ _ _ Hinv).
  - rewrite with_ids_length. apply Forall_fmap.
    exact (inv_range _ _ _ _ _ _ _ _ _ Hinv).
Qed.

(** C3: the matched and the new defects together are the rows of the new
    table. *)
Theorem compare_defects_conservation (h h' : gmap nat DataFrame) (ro rn : nat)
    (old new : DataFrame) (oy ny : option Z) (tol : pyfloat) (res : Result) :
  h !! ro = Some old -> h !! rn = Some new ->
  compare_defects ro rn oy ny tol h = (h', inr res) ->
  (common_defects_count res + new_defects_count res = total_defects res)%nat /\
  total_defects res = length (rows new) /\
  common_defects_count res = length (match_rows (matches_df res)) /\
  new_defects_count res = length (rows (new_defects res)).
Proof.
  intros Hro Hrn Hrun.
  destruct (compare_defects_inv h h' ro rn old new oy ny tol res Hro Hrn Hrun)
    as (_ & st & Hinv & Hm & Hnd & Hc & Hn & Ht & _).
  split_and!; auto; [|congruence].
  rewrite Hc, Hn, Ht, Hnd. simpl. eapply unmatched_count; eauto.
Qed.

(** With the required columns, unique index labels in the old table and
    numbers in the cells of the arithmetic the call returns a result. *)
Lemma compare_defects_returns (h : gmap nat DataFrame) (ro rn : nat)
    (old new : DataFrame) (oy ny : option Z) (tol : pyfloat) :
  h !! ro = Some old -> h !! rn = Some new ->
  check_columns old new = inr tt ->
  NoDup ((rows old).*1) ->
  numeric_cells old = true -> numeric_cells new = true ->
  exists h' res, compare_defects ro rn oy ny tol h = (h', inr res).
Proof.
  intros Hro Hrn Hcols Hnd Hnum_old Hnum_new.
  rewrite (compare_defects_run h ro rn old new oy ny tol Hro Hrn), Hcols.
  unfold compare_frames.
  rewrite <- with_ids_labels in Hnd.
  edestruct (loop_returns (rows (with_ids old)) tol) as [st ->];
    [exact Hnd | apply numeric_cells_operands; eassumption |].
  eauto.
Qed.

(** C1: the matches come in the row order of the new table; a new defect
    with a non-empty candidate pool (old rows not consumed by an earlier new
    defect, whose log distance is within the tolerance of its own) is
    matched with the candidate at the least distance, the first such row of
    the old table; every match is with a candidate; and an old defect
    matched by one new defect is matched by no later one. The distance of
    two rows is the absolute value of the floating-point difference of
    their log distances, whatever the rounding of the subtraction. With
    unique index labels in the old table and numbers in the cells of the
    arithmetic the call returns. *)
Theorem compare_defects_greedy (h : gmap nat DataFrame) (ro rn : nat)
    (old new : DataFrame) (oy ny : option Z) (tol : pyfloat) :
  h !! ro = Some old -> h !! rn = Some new ->
  check_columns old new = inr tt ->
  (NoDup ((rows old).*1) ->
   numeric_cells old = true -> numeric_cells new = true ->
   exists h' res, compare_defects ro rn oy ny tol h = (h', inr res)) /\
  forall h' res,
    compare_defects ro rn oy ny tol h = (h', inr res) ->
    let ms := match_rows (matches_df res) in
    StronglySorted Z.lt (new_defect_id <$> ms) /\
    (forall j, greedy_choice old new tol ms j) /\
    (forall j, match_is_candidate old new tol ms j) /\
    (forall m1 m2, m1 ∈ ms -> m2 ∈ ms ->
       new_defect_id m1 < new_defect_id m2 ->
       old_defect_id m1 <> old_defect_id m2).
Proof.
  intros Hro Hrn Hcols. split.
  { intros Hnd Hnum_old Hnum_new.
    exact (compare_defects_returns h ro rn old new oy ny tol Hro Hrn Hcols Hnd
             Hnum_old Hnum_new). }
  intros h' res Hrun ms.
  destruct (compare_defects_inv h h' ro rn old new oy ny tol res Hro Hrn Hrun)
    as (_ & st & Hinv & Hm & _).
  unfold ms. rewrite Hm. clear ms Hm.
  destruct Hinv as [Io In Ir Is Id Ig Ic Im].
  assert (Hcand : forall j, match_is_candidate old new tol (matches st) j).
  { intros j. destruct (decide (j < length (rows new))%nat) as [Hj | Hj].
    - now apply match_is_candidate_with_ids, Ic.
    - intros m Hin Hid. rewrite Forall_forall in Ir. specialize (Ir m Hin). lia. }
  split_and!.
  - exact Is.
  - intros j. destruct (decide (j < length (rows new))%nat) as [Hj | Hj].
    + now apply greedy_choice_with_ids, Ig.
    + intros [i (_ & Hlt & _)]. lia.
  - exact Hcand.
  - intros m1 m2 H1 H2 Hlt Heq.
    pose proof (proj1 (Forall_forall _ _) Ir m2 H2) as Hr2. simpl in Hr2.
    assert (Hj : new_defect_id m2 = Z.of_nat (Z.to_nat (new_defect_id m2)))
      by lia.
    destruct (Hcand (Z.to_nat (new_defect_id m2)) m2 H2 Hj)
      as (i & Hi & _ & _ & Hfree & _).
    apply Hfree. rewrite <- Hi, <- Heq. unfold consumed_before.
    apply list_elem_of_fmap. exists m1. split; [reflexivity|].
    apply list_elem_of_filter. split; [lia | exact H1].
Qed.


(** C6: a required column missing from one of the tables makes the call
    raise the [ValueError] that names the first such column; the store then
    holds the two copies as they were taken, without ids, and no result. *)
Theorem missing_column_fails_first (h : gmap nat DataFrame) (ro rn : nat)
    (old new : DataFrame) (oy ny : option Z) (tol : pyfloat) :
  h !! ro = Some old -> h !! rn = Some new ->
  (exists col, col ∈ required_columns /\
               (col ∉ columns old \/ col ∉ columns new)) ->
  exists col,
    col ∈ required_columns /\
    (col ∉ columns old \/ col ∉ columns new) /\
    let lo := fresh (dom h) in
    let ln := fresh (dom (<[lo := old]> h)) in
    compare_defects ro rn oy ny tol h =
    (<[ln := new]> (<[lo := old]> h),
     inl (ValueError ("Missing column: " +:+ col))).
Proof.
  intros Hro Hrn (c0 & Hreq & Hmiss).
  pose proof (compare_defects_run h ro rn old new oy ny tol Hro Hrn) as Hrun.
  unfold check_columns in Hrun.
  destruct (filter _ required_columns) as [|col rest] eqn:Hf.
  - exfalso. eapply (filter_nil_not_elem_of _ _ c0 Hf); [|exact Hreq].
    tauto.
  - assert (Hcol : col ∈ col :: rest) by left.
    rewrite <- Hf in Hcol. apply list_elem_of_filter in Hcol as [Hnot Hin].
    exists col. split; [exact Hin|]. split; [|exact Hrun].
    destruct (decide (col ∈ columns old)); [|tauto].
    destruct (decide (col ∈ columns new)); tauto.
Qed.

(** C10: whatever the call returns or raises, every frame of the store it
    was given, the two arguments among them, is in the store it leaves, as
    it was. *)
Theorem compare_defects_preserves_inputs (h : gmap nat DataFrame) (ro rn : nat)
    (old new : DataFrame) (oy ny : option Z) (tol : pyfloat) :
  h !! ro = Some old -> h !! rn = Some new ->
  let h' := (compare_defects ro rn oy ny tol h).1 in
  h' !! ro = Some old /\ h' !! rn = Some new /\
  forall l df, h !! l = Some df -> h' !! l = Some df.
Proof.
  intros Hro Hrn h'.
  assert (Hall : forall l df, h !! l = Some df -> h' !! l = Some df).
  { intros l df Hl. unfold h'.
    rewrite (compare_defects_run h ro rn old new oy ny tol Hro Hrn).
    set (lo := fresh (dom h)). set (ln := fresh (dom (<[lo := old]> h))).
    assert (Hlo : l <> lo).
    { intros Heq. apply (is_fresh (dom h)). fold lo. rewrite <- Heq.
      apply elem_of_dom. eauto. }
    assert (Hln : l <> ln).
    { intros Heq. apply (is_fresh (dom (<[lo := old]> h))). fold ln.
      rewrite <- Heq. apply elem_of_dom.
      rewrite lookup_insert_ne by congruence. eauto. }
    destruct (check_columns old new) as [e | []]; simpl.
    - rewrite !lookup_insert_ne by congruence. exact Hl.
    - rewrite !lookup_insert_ne by congruence. exact Hl. }
  auto.
Qed.


Lemma feq_fle (x y : pyfloat) : feq x y = true -> fle x y = true.
Proof.
  destruct x as [|a], y as [|b]; simpl; try discriminate.
  intros H%Qeq_bool_iff. apply Qle_bool_iff. lra.
Qed.

Lemma flt_not_fle (x y : pyfloat) : flt y x = true -> fle x y = false.
Proof.
  destruct x as [|a], y as [|b]; simpl; try discriminate.
  now rewrite negb_true_iff.
Qed.

Lemma with_ids_single (df : DataFrame) (l : Z) (r : row) :
  rows df = [(l, r)] ->
  rows (with_ids df) = [(l, <["defect_id" := PyInt 0]> r)].
Proof. unfold with_ids, set_column. intros ->. reflexivity. Qed.

(** C4: one old and one new defect, required columns present, numbers in
    the cells of the arithmetic. The distance is the absolute value of the
    floating-point difference of the two log distances, as the subtraction
    rounds it. At a distance equal to the tolerance the pair is matched; at
    a distance above the tolerance there is no match and the new defect is
    in [new_defects]. In both cases the call returns. *)
Theorem tolerance_boundary (h : gmap nat DataFrame) (ro rn : nat)
    (old new : DataFrame) (lo ln : Z) (o n : row) (oy ny : option Z)
    (tol : pyfloat) :
  h !! ro = Some old -> h !! rn = Some new ->
  check_columns old new = inr tt ->
  rows old = [(lo, o)] -> rows new = [(ln, n)] ->
  numeric_cells old = true -> numeric_cells new = true ->
  let d := fabs (fsub (as_float (cell o "log dist. [m]"))
                      (as_float (cell n "log dist. [m]"))) in
  exists h' res,
    compare_defects ro rn oy ny tol h = (h', inr res) /\
    (feq d tol = true ->
     exists m,
       match_rows (matches_df res) = [m] /\
       new_defect_id m = 0 /\ old_defect_id m = 0 /\
       distance_diff m = d /\
       common_defects_count res = 1%nat /\
       new_defects_count res = 0%nat /\
       rows (new_defects res) = []) /\
    (flt tol d = true ->
     match_rows (matches_df res) = [] /\
     common_defects_count res = 0%nat /\
     new_defects_count res = 1%nat /\
     rows (new_defects res) = [(ln, <["defect_id" := PyInt 0]> n)]).
Proof.
  intros Hro Hrn Hcols Hold Hnew Hnum_old Hnum_new d.
  fold (gap o n) in d.
  destruct (compare_defects_returns h ro rn old new oy ny tol Hro Hrn Hcols)
    as (h' & res & Hrun); [|exact Hnum_old | exact Hnum_new|].
  { rewrite Hold. simpl. apply NoDup_singleton. }
  exists h', res. split; [exact Hrun|].
  destruct (compare_defects_inv h h' ro rn old new oy ny tol res Hro Hrn Hrun)
    as (_ & st & Hinv & Hm & Hnd & Hc & Hn & Ht & _).
  pose proof (unmatched_count _ _ _ _ _ _ _ _ Hinv) as Hcount.
  set (unmatched := filter (fun lr : Z * row => defect_id lr.2 ∉ matched_new st)
                           (rows (with_ids new))) in *.
  rewrite Hn, Hnd, Hc, Hm. simpl.
  assert (Hlen_old : length (rows old) = 1%nat) by now rewrite Hold.
  assert (Hlen_new : length (rows new) = 1%nat) by now rewrite Hnew.
  rewrite Hlen_new in Hcount.
  assert (Hdist : dist_at old new 0 0 = d).
  { unfold dist_at. now rewrite Hold, Hnew. }
  pose proof Hinv as [Io In Ir Is Id Ig Ic Im].
  rewrite Hlen_new in Ir, Ig, Ic.
  split.
  - intros Heq.
    destruct (Ig 0%nat ltac:(lia)) as (m & i & Hin & Hj & Hi & Hcand & Hd & _).
    { exists 0%nat. apply candidate_with_ids. split_and!; try lia.
      - unfold consumed_before. intros Hx.
        apply list_elem_of_fmap in Hx as (m & _ & Hx).
        apply list_elem_of_filter in Hx as [Hlt Hx].
        rewrite Forall_forall in Ir. specialize (Ir m Hx). simpl in Ir. lia.
      - rewrite Hdist. now apply feq_fle. }
    apply (proj1 (candidate_with_ids old new tol _ _ _)) in Hcand.
    destruct Hcand as (Hi1 & _).
    assert (i = 0%nat) by lia. subst i.
    rewrite dist_at_with_ids, Hdist in Hd.
    destruct (matches st) as [|m0 [|m1 rest]] eqn:Hms.
    + now apply elem_of_nil in Hin.
    + apply list_elem_of_singleton in Hin. subst m0. simpl in Hcount.
      destruct unmatched; [|simpl in Hcount; lia].
      exists m. split_and!; auto.
    + simpl in Hcount. lia.
  - intros Hgt.
    assert (Hnil : matches st = []).
    { destruct (matches st) as [|m rest] eqn:Hms; [reflexivity|]. exfalso.
      assert (Hin : m ∈ m :: rest) by left.
      rewrite Forall_forall in Ir. pose proof (Ir m Hin) as Hr. simpl in Hr.
      destruct (Ic 0%nat ltac:(lia) m Hin ltac:(lia)) as (i & _ & Hcand).
      apply (proj1 (candidate_with_ids old new tol _ _ _)) in Hcand.
      destruct Hcand as (Hi1 & _ & _ & Hle).
      assert (i = 0%nat) by lia. subst i.
      rewrite Hdist, (flt_not_fle _ _ Hgt) in Hle. discriminate. }
    rewrite Hnil in *. simpl in Hcount.
    assert (Hun : unmatched = [(ln, <["defect_id" := PyInt 0]> n)]).
    { revert Hcount. unfold unmatched.
      rewrite (with_ids_single new ln n Hnew), filter_cons, filter_nil.
      destruct (decide _); [reflexivity | simpl; lia]. }
    rewrite Hun. split_and!; auto.
Qed.


Lemma growth_fields_insert_id (yd : Z) (v w : pyval) (o n : row) :
  growth_fields yd (<["defect_id" := v]> o) (<["defect_id" := w]> n)
  = growth_fields yd o n.
Proof. unfold growth_fields. now rewrite !cell_insert_id. Qed.

Lemma mm_fields_insert_id (yd : Z) (v w : pyval) (o n : row) :
  mm_fields yd (<["defect_id" := v]> o) (<["defect_id" := w]> n)
  = mm_fields yd o n.
Proof. unfold mm_fields. now rewrite !cell_insert_id. Qed.

Lemma avg_wall_thickness_insert_id (v w : pyval) (o n : row) :
  avg_wall_thickness (<["defect_id" := v]> o) (<["defect_id" := w]> n)
  = avg_wall_thickness o n.
Proof. unfold avg_wall_thickness. now rewrite !cell_insert_id. Qed.

Lemma growth_eligible_years (oy ny : option Z) :
  growth_eligible oy ny = true -> 0 < years_between oy ny.
Proof.
  destruct oy as [a|], ny as [b|]; simpl; try discriminate.
  intros H%Z.ltb_lt. lia.
Qed.

End Rounded.

Section Binary64.

#[local] Existing Instance binary64.

(** C5, the claim as stated fails, in binary64 arithmetic: depth 20 in
    2015 and 30 in 2017 at wall thickness 10 give 5 percent per year and
    0.5 mm per year, where the stated relation gives
    5 * 10 / 100 / 2 = 0.25. *)
Lemma growth_rate_mm_not_as_specified :
  exists h' res m d g,
    compare_defects 0 1 (Some 2015) (Some 2017) (Fin (1 # 100)) single_store
      = (h', inr res) /\
    (calculate_growth res && has_depth_data res && has_wt_data res = true) /\
    match_rows (matches_df res) = [m] /\
    depth_growth m = Some d /\ mm_growth m = Some g /\
    same (growth_rate_pct_per_year d) (Fin 5) /\
    same (growth_rate_mm_per_year g) (Fin (1 # 2)) /\
    same (claimed_mm_rate (growth_rate_pct_per_year d)
            (avg_wall_thickness (defect 10 20 10) (defect 10 30 10)) (2017 - 2015))
         (Fin (1 # 4)) /\
    ~ same (growth_rate_mm_per_year g)
           (claimed_mm_rate (growth_rate_pct_per_year d)
              (avg_wall_thickness (defect 10 20 10) (defect 10 30 10))
              (2017 - 2015)).
Proof.
  eexists _, _, _, _, _. split; [vm_compute; reflexivity|].
  split; [reflexivity|]. split; [reflexivity|].
  split; [reflexivity|]. split; [reflexivity|].
  split; [vm_compute; reflexivity|]. split; [vm_compute; reflexivity|].
  split; [vm_compute; reflexivity|].
  vm_compute. discriminate.
Qed.

End Binary64.

(** *** Exact arithmetic *)

#[local] Existing Instance exact_arithmetic.

(** The two rates of one pair of rows, in exact arithmetic. *)
Lemma mm_rate_same (yd : Z) (o n : row) :
  yd <> 0 ->
  same (growth_rate_mm_per_year (mm_fields yd o n))
       (mm_rate_of_pct (growth_rate_pct_per_year (growth_fields yd o n))
                       (avg_wall_thickness o n)).
Proof.
  intros Hyd. unfold mm_fields, growth_fields, avg_wall_thickness, mm_rate_of_pct.
  simpl.
  destruct (as_float (cell o "depth [%]")) as [|od],
           (as_float (cell n "depth [%]")) as [|nd],
           (as_float (cell o "wt nom [mm]")) as [|ow],
           (as_float (cell n "wt nom [mm]")) as [|nw]; simpl; auto.
  assert (Hq : ~ (inject_Z yd == 0)%Q).
  { unfold Qeq. simpl. lia. }
  unfold rnd, exact_arithmetic. field. exact Hq.
Qed.

(** C5, amended: with depth and wall thickness in both tables and growth
    eligible, every match is the pair of an old and a new row and its
    millimetre rate is its percentage rate times the average wall thickness
    of the pair, divided by 100 (numbers taken as exact rationals). *)
Theorem growth_rate_mm_from_pct (h h' : gmap nat DataFrame) (ro rn : nat)
    (old new : DataFrame) (oy ny : option Z) (tol : pyfloat) (res : Result) :
  h !! ro = Some old -> h !! rn = Some new ->
  compare_defects ro rn oy ny tol h = (h', inr res) ->
  calculate_growth res = true ->
  has_depth_data res = true -> has_wt_data res = true ->
  forall m, m ∈ match_rows (matches_df res) ->
  exists (i j : nat) (lo ln : Z) (o n : row) (d : DepthGrowth) (g : MmGrowth),
    rows old !! i = Some (lo, o) /\ rows new !! j = Some (ln, n) /\
    old_defect_id m = Z.of_nat i /\ new_defect_id m = Z.of_nat j /\
    depth_growth m = Some d /\ mm_growth m = Some g /\
    same (growth_rate_mm_per_year g)
         (mm_rate_of_pct (growth_rate_pct_per_year d) (avg_wall_thickness o n)).
Proof.
  intros Hro Hrn Hrun Hcg Hhd Hhw m Hin.
  destruct (compare_defects_inv h h' ro rn old new oy ny tol res Hro Hrn Hrun)
    as (_ & st & Hinv & Hm & _ & _ & _ & _ & Hf1 & Hf2 & Hf3).
  rewrite Hcg in Hf1. rewrite Hhd in Hf2. rewrite Hhw in Hf3.
  rewrite <- Hf1, <- Hf2, <- Hf3 in Hinv.
  rewrite Hm in Hin.
  pose proof (inv_data _ _ _ _ _ _ _ _ _ Hinv) as Hdata.
  rewrite Forall_forall in Hdata.
  destruct (Hdata m Hin) as (i & j & lo & ln & o' & n' & Ho' & Hn' & ->).
  pose proof (with_ids_positions old i _ Ho') as Hido.
  pose proof (with_ids_positions new j _ Hn') as Hidn.
  rewrite with_ids_lookup in Ho', Hn'.
  destruct (rows old !! i) as [[lo0 o]|] eqn:Ho; [|discriminate].
  destruct (rows new !! j) as [[ln0 n]|] eqn:Hn; [|discriminate].
  simpl in Ho', Hn'. injection Ho' as <- <-. injection Hn' as <- <-.
  exists i, j, lo0, ln0, o, n.
  exists (growth_fields (years_between oy ny) o n),
         (mm_fields (years_between oy ny) o n).
  unfold match_data.
  cbn [depth_growth mm_growth old_defect_id new_defect_id andb].
  rewrite growth_fields_insert_id, mm_fields_insert_id.
  split_and!; auto.
  apply mm_rate_same.
  pose proof (growth_eligible_years oy ny (eq_sym Hf1)). lia.
Qed.

End EngineFacts.

(** ** The theorems on the sample surveys *)

Module EngineWitnesses.
Import Engine Spec Examples EngineFacts.

Ltac by_evaluation := vm_compute; reflexivity.

Lemma store_old : store !! 0%nat = Some old_survey.
Proof. by_evaluation. Qed.

Lemma store_new : store !! 1%nat = Some new_survey.
Proof. by_evaluation. Qed.

Lemma single_store_old : single_store !! 0%nat = Some old_single.
Proof. by_evaluation. Qed.

Lemma single_store_new : single_store !! 1%nat = Some new_single.
Proof. by_evaluation. Qed.

Lemma boundary_store_old : boundary_store !! 0%nat = Some old_single.
Proof. by_evaluation. Qed.

Lemma boundary_store_new : boundary_store !! 1%nat = Some new_at_tolerance.
Proof. by_evaluation. Qed.

Lemma broken_store_old : broken_store !! 0%nat = Some old_single.
Proof. by_evaluation. Qed.

Lemma broken_store_new : broken_store !! 1%nat = Some new_without_type.
Proof. by_evaluation. Qed.

Lemma survey_columns_checked : check_columns old_survey new_survey = inr tt.
Proof. by_evaluation. Qed.

Lemma survey_labels_unique (l : list row) : NoDup ((rows (survey l)).*1).
Proof.
  unfold survey. simpl.
  assert (H : (imap (fun (i : nat) (r : row) => (Z.of_nat i, r)) l).*1
              = Z.of_nat <$> seq 0 (length l)).
  { apply list_eq. intros i.
    rewrite !list_lookup_fmap, list_lookup_imap.
    destruct (l !! i) as [r|] eqn:Hi; simpl.
    - rewrite lookup_seq_lt by (eapply lookup_lt_Some; eauto). reflexivity.
    - rewrite lookup_seq_ge; [reflexivity|]. now apply lookup_ge_None. }
  rewrite H. apply NoDup_fmap_2, NoDup_seq. intros a b. lia.
Qed.

Section Exact.

#[local] Existing Instance exact_arithmetic.

Lemma single_returns :
  exists h' res,
    compare_defects 0 1 (Some 2015) (Some 2017) (Fin (1 # 100)) single_store
      = (h', inr res).
Proof.
  apply (compare_defects_returns single_store 0 1 old_single new_single);
    [exact single_store_old | exact single_store_new | by_evaluation
    | apply survey_labels_unique | by_evaluation | by_evaluation].
Qed.

Lemma growth_rate_mm_from_pct_witness :
  exists h' res,
    compare_defects 0 1 (Some 2015) (Some 2017) (Fin (1 # 100)) single_store
      = (h', inr res) /\
    forall m, m ∈ match_rows (matches_df res) ->
    exists (i j : nat) (lo ln : Z) (o n : row) (d : DepthGrowth) (g : MmGrowth),
      rows old_single !! i = Some (lo, o) /\ rows new_single !! j = Some (ln, n) /\
      old_defect_id m = Z.of_nat i /\ new_defect_id m = Z.of_nat j /\
      depth_growth m = Some d /\ mm_growth m = Some g /\
      same (growth_rate_mm_per_year g)
           (mm_rate_of_pct (growth_rate_pct_per_year d) (avg_wall_thickness o n)).
Proof.
  destruct single_returns as (h' & res & Hrun). exists h', res.
  split; [exact Hrun|].
  destruct (compare_defects_inv single_store h' 0 1 old_single new_single
              (Some 2015) (Some 2017) (Fin (1 # 100)) res single_store_old
              single_store_new Hrun)
    as (_ & st & _ & _ & _ & _ & _ & _ & Hf1 & Hf2 & Hf3).
  apply (growth_rate_mm_from_pct single_store h' 0 1 old_single new_single
           (Some 2015) (Some 2017) (Fin (1 # 100)) res single_store_old
           single_store_new Hrun);
    [rewrite Hf1 | rewrite Hf2 | rewrite Hf3]; by_evaluation.
Defined.

End Exact.

#[local] Existing Instance binary64.

Lemma tied_store_old : tied_store !! 0%nat = Some old_tied.
Proof. by_evaluation. Qed.

Lemma tied_store_new : tied_store !! 1%nat = Some new_tied.
Proof. by_evaluation. Qed.

Lemma binary_boundary_store_old :
  binary_boundary_store !! 0%nat = Some old_at_boundary.
Proof. by_evaluation. Qed.

Lemma binary_boundary_store_new :
  binary_boundary_store !! 1%nat = Some new_at_boundary.
Proof. by_evaluation. Qed.

Lemma positions_labels_unique (l : list Q) : NoDup ((rows (positions l)).*1).
Proof.
  unfold positions. simpl.
  assert (H : (imap (fun (i : nat) (d : Q) => (Z.of_nat i, position d)) l).*1
              = Z.of_nat <$> seq 0 (length l)).
  { apply list_eq. intros i.
    rewrite !list_lookup_fmap, list_lookup_imap.
    destruct (l !! i) as [r|] eqn:Hi; simpl.
    - rewrite lookup_seq_lt by (eapply lookup_lt_Some; eauto). reflexivity.
    - rewrite lookup_seq_ge; [reflexivity|]. now apply lookup_ge_None. }
  rewrite H. apply NoDup_fmap_2, NoDup_seq. intros a b. lia.
Qed.

(** In binary64 the two old defects of the tied surveys are at the same
    distance of the new one, the double 0.07000000000000003, and the first
    is taken. *)
Lemma tied_distances :
  dist_at old_tied new_tied 0 0 = Fin (double 5044031582654958 56) /\
  dist_at old_tied new_tied 1 0 = Fin (double 5044031582654958 56).
Proof. split; by_evaluation. Qed.

Lemma tied_pairs :
  (fun m => (new_defect_id m, old_defect_id m, distance_diff m))
  <$> matches_of (compare_defects 0 1 None None (Fin tenth) tied_store)
  = [(0, 0, Fin (double 5044031582654958 56))].
Proof. by_evaluation. Qed.

(** The sample call returns. *)
Lemma sample_returns :
  exists h' res,
    compare_defects 0 1 (Some 2015) (Some 2020) (Fin (1 # 100)) store
      = (h', inr res).
Proof.
  apply (compare_defects_returns store 0 1 old_survey new_survey);
    [exact store_old | exact store_new | exact survey_columns_checked
    | apply survey_labels_unique | by_evaluation | by_evaluation].
Qed.

(** The pairs of the sample call: the second new defect lies on the old
    defect at 10.005, which the first new defect has taken, and is matched
    with the old defect at 10.000. *)
Lemma sample_pairs :
  (fun m => (new_defect_id m, old_defect_id m)) <$> sample_matches
  = [(0, 1); (1, 0)].
Proof. by_evaluation. Qed.

Lemma compare_defects_greedy_witness :
  exists h' res m,
    compare_defects 0 1 None None (Fin tenth) tied_store = (h', inr res) /\
    match_rows (matches_df res) = [m] /\
    new_defect_id m = 0 /\ old_defect_id m = 0 /\
    greedy_choice old_tied new_tied (Fin tenth) [m] 0 /\
    match_is_candidate old_tied new_tied (Fin tenth) [m] 0.
Proof.
  destruct (compare_defects_greedy tied_store 0 1 old_tied new_tied
              None None (Fin tenth) tied_store_old tied_store_new)
    as [Hreturns Hprop]; [by_evaluation|].
  destruct Hreturns as (h' & res & Hrun);
    [apply positions_labels_unique | by_evaluation | by_evaluation|].
  destruct (Hprop h' res Hrun) as (_ & Hg & Hc & _).
  pose proof tied_pairs as Hpairs. unfold matches_of in Hpairs.
  rewrite Hrun in Hpairs. cbn [snd] in Hpairs.
  destruct (match_rows (matches_df res)) as [|m [|m' ms]] eqn:Hms;
    try discriminate Hpairs.
  injection Hpairs as Hn Ho _.
  exists h', res, m. split; [exact Hrun|]. split; [exact Hms|].
  split; [exact Hn|]. split; [exact Ho|]. split; [apply Hg | apply Hc].
Defined.

Lemma compare_defects_one_to_one_witness :
  exists h' res,
    compare_defects 0 1 (Some 2015) (Some 2020) (Fin (1 # 100)) store
      = (h', inr res) /\
    NoDup (old_defect_id <$> match_rows (matches_df res)) /\
    NoDup (new_defect_id <$> match_rows (matches_df res)).
Proof.
  destruct sample_returns as (h' & res & Hrun). exists h', res.
  split; [exact Hrun|].
  exact (compare_defects_one_to_one store h' 0 1 old_survey new_survey
           (Some 2015) (Some 2020) (Fin (1 # 100)) res store_old store_new Hrun).
Defined.

Lemma compare_defects_conservation_witness :
  exists h' res,
    compare_defects 0 1 (Some 2015) (Some 2020) (Fin (1 # 100)) store
      = (h', inr res) /\
    (common_defects_count res + new_defects_count res = total_defects res)%nat /\
    total_defects res = length (rows new_survey).
Proof.
  destruct sample_returns as (h' & res & Hrun). exists h', res.
  split; [exact Hrun|].
  destruct (compare_defects_conservation store h' 0 1 old_survey new_survey
              (Some 2015) (Some 2020) (Fin (1 # 100)) res store_old store_new
              Hrun) as (Hsum & Htot & _).
  split; [exact Hsum | exact Htot].
Defined.

(** In binary64 the old defect at 0.15 and the new one at
    0.04999999999999998 are the double 0.1 apart. *)
Lemma boundary_distance :
  feq (fabs (fsub (as_float (cell (position (double 5404319552844595 55))
                                  "log dist. [m]"))
                  (as_float (cell (position (double 7205759403792791 57))
                                  "log dist. [m]"))))
      (Fin tenth) = true.
Proof. by_evaluation. Qed.

Lemma tolerance_boundary_witness :
  exists h' res,
    compare_defects 0 1 None None (Fin tenth) binary_boundary_store
      = (h', inr res) /\
    common_defects_count res = 1%nat /\ new_defects_count res = 0%nat.
Proof.
  destruct (tolerance_boundary binary_boundary_store 0 1 old_at_boundary
              new_at_boundary 0 0 (position (double 5404319552844595 55))
              (position (double 7205759403792791 57)) None None
              (Fin tenth) binary_boundary_store_old binary_boundary_store_new)
    as (h' & res & Hrun & Heq & _);
    [by_evaluation | reflexivity | reflexivity | by_evaluation | by_evaluation
    |].
  destruct Heq as (m & _ & _ & _ & _ & Hc & Hn & _); [exact boundary_distance|].
  exists h', res. auto.
Defined.

Lemma missing_column_fails_first_witness :
  exists col,
    col ∈ required_columns /\
    (col ∉ columns old_single \/ col ∉ columns new_without_type) /\
    compare_defects 0 1 None None (Fin (1 # 100)) broken_store =
    (<[fresh (dom (<[fresh (dom broken_store) := old_single]> broken_store))
         := new_without_type]>
       (<[fresh (dom broken_store) := old_single]> broken_store),
     inl (ValueError ("Missing column: " +:+ col))).
Proof.
  apply (missing_column_fails_first broken_store 0 1 old_single new_without_type
           None None (Fin (1 # 100)) broken_store_old broken_store_new).
  exists "component / anomaly identification"%string. split.
  - unfold required_columns. set_solver.
  - right. simpl. intros Hin.
    repeat (apply elem_of_cons in Hin as [Hin | Hin]; [discriminate|]).
    now apply elem_of_nil in Hin.
Defined.

Lemma compare_defects_preserves_inputs_witness :
  (compare_defects 0 1 (Some 2015) (Some 2020) (Fin (1 # 100)) store).1 !! 0%nat
    = Some old_survey /\
  (compare_defects 0 1 (Some 2015) (Some 2020) (Fin (1 # 100)) store).1 !! 1%nat
    = Some new_survey.
Proof.
  destruct (compare_defects_preserves_inputs store 0 1 old_survey new_survey
              (Some 2015) (Some 2020) (Fin (1 # 100)) store_old store_new)
    as (H0 & H1 & _).
  split; [exact H0 | exact H1].
Defined.

End EngineWitnesses.

(** ** Further facts about the correlation engine *)

Module EngineExtra.
Import Engine Spec Spec2 Examples EngineFacts EngineWitnesses.

Section Rounded.

Context {R : Rounding}.

(** Where a match of a result comes from: an old row and a new row, whose
    positions are its ids, the old row being a candidate of the new one. *)
Lemma match_origin (h h' : gmap nat DataFrame) (ro rn : nat)
    (old new : DataFrame) (oy ny : option Z) (tol : pyfloat) (res : Result)
    (m : Match) :
  h !! ro = Some old -> h !! rn = Some new ->
  compare_defects ro rn oy ny tol h = (h', inr res) ->
  m ∈ match_rows (matches_df res) ->
  exists (i j : nat) (lo ln : Z) (o n : row),
    rows old !! i = Some (lo, o) /\ rows new !! j = Some (ln, n) /\
    m = match_data (calculate_growth res) (has_depth_data res) (has_wt_data res)
          (years_between oy ny) (with_id i o) (with_id j n)
          (distance o n) /\
    old_defect_id m = Z.of_nat i /\ new_defect_id m = Z.of_nat j /\
    candidate old new tol (match_rows (matches_df res)) j i.
Proof.
  intros Hro Hrn Hrun Hin.
  destruct (compare_defects_inv h h' ro rn old new oy ny tol res Hro Hrn Hrun)
    as (_ & st & Hinv & Hm & _ & _ & _ & _ & Hf1 & Hf2 & Hf3).
  rewrite Hm in *. rewrite Hf1, Hf2, Hf3.
  pose proof (inv_data _ _ _ _ _ _ _ _ _ Hinv) as Hdata.
  rewrite Forall_forall in Hdata.
  destruct (Hdata m Hin) as (i & j & lo & ln & o' & n' & Ho' & Hn' & ->).
  pose proof (with_ids_positions old i _ Ho') as Hido.
  pose proof (with_ids_positions new j _ Hn') as Hidn.
  simpl in Hido, Hidn.
  assert (Hj : (j < length (rows new))%nat).
  { rewrite <- with_ids_length. eapply lookup_lt_Some; eauto. }
  rewrite with_ids_lookup in Ho', Hn'.
  destruct (rows old !! i) as [[lo0 o]|] eqn:Ho; [|discriminate].
  destruct (rows new !! j) as [[ln0 n]|] eqn:Hn; [|discriminate].
  simpl in Ho', Hn'. injection Ho' as <- <-. injection Hn' as <- <-.
  exists i, j, lo0, ln0, o, n. split_and!; auto.
  - unfold with_id. f_equal. unfold distance.
    now rewrite !log_distance_insert_id.
  - destruct (inv_candidate _ _ _ _ _ _ _ _ _ Hinv j Hj _ Hin Hidn)
      as (i' & Hi' & Hc).
    simpl in Hi'. rewrite Hido in Hi'. apply Nat2Z.inj in Hi'. subst i'.
    now apply (proj1 (candidate_with_ids old new tol _ _ _)).
Qed.

(** X6: every match of a result pairs an old row and a new row whose
    distance is within the tolerance; the match records the two log
    distances, their absolute difference and the type of the new row. *)
Theorem matches_within_tolerance (h h' : gmap nat DataFrame) (ro rn : nat)
    (old new : DataFrame) (oy ny : option Z) (tol : pyfloat) (res : Result)
    (m : Match) :
  h !! ro = Some old -> h !! rn = Some new ->
  compare_defects ro rn oy ny tol h = (h', inr res) ->
  m ∈ match_rows (matches_df res) ->
  exists (i j : nat) (lo ln : Z) (o n : row),
    rows old !! i = Some (lo, o) /\ rows new !! j = Some (ln, n) /\
    old_defect_id m = Z.of_nat i /\ new_defect_id m = Z.of_nat j /\
    old_log_dist m = log_distance o /\ log_dist m = log_distance n /\
    distance_diff m = fabs (fsub (old_log_dist m) (log_dist m)) /\
    fle (distance_diff m) tol = true /\
    defect_type m = cell n "component / anomaly identification".
Proof.
  intros Hro Hrn Hrun Hin.
  destruct (match_origin h h' ro rn old new oy ny tol res m Hro Hrn Hrun Hin)
    as (i & j & lo & ln & o & n & Ho & Hn & Hm & Hio & Hin' & Hc).
  exists i, j, lo, ln, o, n.
  destruct Hc as (_ & _ & _ & Hle).
  unfold dist_at in Hle. rewrite Ho, Hn in Hle. simpl in Hle.
  rewrite Hm. unfold match_data, with_id. simpl.
  rewrite !log_distance_insert_id, cell_insert_id by discriminate.
  rewrite Hm in Hio, Hin'. simpl in Hio, Hin'.
  split_and!; auto.
Qed.


(** X7: the matching is maximal: when a new row is left unmatched, every
    old row whose log distance is within the tolerance of its own (the
    absolute value of the floating-point difference is at most the
    tolerance) is matched with an earlier new row. *)
Theorem unmatched_has_no_free_neighbour (h h' : gmap nat DataFrame) (ro rn : nat)
    (old new : DataFrame) (oy ny : option Z) (tol : pyfloat) (res : Result)
    (i j : nat) (lo ln : Z) (o n : row) :
  h !! ro = Some old -> h !! rn = Some new ->
  compare_defects ro rn oy ny tol h = (h', inr res) ->
  rows old !! i = Some (lo, o) -> rows new !! j = Some (ln, n) ->
  fle (fabs (fsub (as_float (cell o "log dist. [m]"))
                  (as_float (cell n "log dist. [m]")))) tol = true ->
  Z.of_nat j ∉ new_defect_id <$> match_rows (matches_df res) ->
  exists m, m ∈ match_rows (matches_df res) /\
            old_defect_id m = Z.of_nat i /\ new_defect_id m < Z.of_nat j.
Proof.
  intros Hro Hrn Hrun Ho Hn Hle Hfree.
  destruct (compare_defects_inv h h' ro rn old new oy ny tol res Hro Hrn Hrun)
    as (_ & st & Hinv & Hm & _).
  rewrite Hm in *.
  assert (Hj : (j < length (rows new))%nat) by (eapply lookup_lt_Some; eauto).
  pose proof (greedy_choice_with_ids _ _ _ _ _
                (inv_greedy _ _ _ _ _ _ _ _ _ Hinv j Hj)) as Hg.
  destruct (decide (Z.of_nat i ∈ consumed_before (matches st) j)) as [Hc | Hc].
  - unfold consumed_before in Hc.
    apply list_elem_of_fmap in Hc as (m & Hi & Hmf).
    apply list_elem_of_filter in Hmf as [Hlt Hmin]. eauto.
  - exfalso. destruct Hg as (m & i' & Hmin & Hmj & _).
    + exists i. split_and!; auto.
      * eapply lookup_lt_Some; eauto.
      * unfold dist_at. rewrite Ho, Hn. exact Hle.
    + apply Hfree. apply list_elem_of_fmap. eauto.
Qed.


(** X8: the rows of [new_defects] are the rows of the new table, each with
    its id in the added column, that have no match; they keep their labels
    and their order. *)
Theorem new_defects_are_the_unmatched (h h' : gmap nat DataFrame) (ro rn : nat)
    (old new : DataFrame) (oy ny : option Z) (tol : pyfloat) (res : Result) :
  h !! ro = Some old -> h !! rn = Some new ->
  compare_defects ro rn oy ny tol h = (h', inr res) ->
  columns (new_defects res) = columns (with_ids new) /\
  rows (new_defects res) `sublist_of` rows (with_ids new) /\
  forall (l : Z) (r' : row),
    (l, r') ∈ rows (new_defects res) <->
    exists (j : nat) (r : row),
      rows new !! j = Some (l, r) /\ r' = with_id j r /\
      Z.of_nat j ∉ new_defect_id <$> match_rows (matches_df res).
Proof.
  intros Hro Hrn Hrun.
  destruct (compare_defects_inv h h' ro rn old new oy ny tol res Hro Hrn Hrun)
    as (_ & st & Hinv & Hm & Hnd & _).
  rewrite Hnd, Hm. cbn [columns rows].
  split; [reflexivity|]. split; [apply sublist_filter|].
  intros l r'. rewrite list_elem_of_filter. cbn [snd]. split.
  - intros [Hfree Hin]. apply list_elem_of_lookup in Hin as [j Hj].
    pose proof (with_ids_positions new j _ Hj) as Hid. simpl in Hid.
    rewrite with_ids_lookup in Hj.
    destruct (rows new !! j) as [[l0 r]|] eqn:Hr; [|discriminate].
    injection Hj as <- <-. exists j, r. split_and!; auto.
    rewrite <- Hid, <- (inv_new _ _ _ _ _ _ _ _ _ Hinv). exact Hfree.
  - intros (j & r & Hr & -> & Hfree).
    assert (Hj : rows (with_ids new) !! j = Some (l, with_id j r)).
    { rewrite with_ids_lookup, Hr. reflexivity. }
    split; [|eapply list_elem_of_lookup_2; eauto].
    rewrite (inv_new _ _ _ _ _ _ _ _ _ Hinv).
    pose proof (with_ids_positions new j _ Hj) as Hid. simpl in Hid.
    now rewrite Hid.
Qed.

Lemma result_percentages (h h' : gmap nat DataFrame) (ro rn : nat)
    (old new : DataFrame) (oy ny : option Z) (tol : pyfloat) (res : Result) :
  h !! ro = Some old -> h !! rn = Some new ->
  compare_defects ro rn oy ny tol h = (h', inr res) ->
  pct_common res = percentage (common_defects_count res) (total_defects res) /\
  pct_new res = percentage (new_defects_count res) (total_defects res) /\
  (common_defects_count res + new_defects_count res = total_defects res)%nat /\
  total_defects res = length (rows new).
Proof.
  intros Hro Hrn Hrun.
  destruct (compare_defects_inv h h' ro rn old new oy ny tol res Hro Hrn Hrun)
    as (_ & st & Hinv & Hm & Hnd & Hc & Hn & Ht & _).
  pose proof (unmatched_count _ _ _ _ _ _ _ _ Hinv) as Hcount.
  assert (Hsum : (common_defects_count res + new_defects_count res
                  = total_defects res)%nat).
  { rewrite Hc, Hn, Ht, Hnd. exact Hcount. }
  rewrite (compare_defects_run h ro rn old new oy ny tol Hro Hrn) in Hrun.
  destruct (check_columns old new) as [e | []]; [discriminate|].
  injection Hrun as _ Hres. unfold compare_frames in Hres.
  destruct (loop _ _ _ _ _ _ _ _) as [e | st0]; [discriminate|].
  injection Hres as <-. cbn [pct_common pct_new common_defects_count
                             new_defects_count total_defects] in *.
  split_and!; auto.
Qed.

Lemma loop_without_pool (old_df : list (Z * row)) (tol : pyfloat)
    (cg hd hw : bool) (yd : Z) (new_rows : list (Z * row)) (st : LoopState) :
  (forall lr n, lr ∈ old_df -> fle (distance lr.2 n) tol = false) ->
  Forall (fun ln => distance_operands old_df ln.2 = true) new_rows ->
  loop old_df tol cg hd hw yd st new_rows = inr st.
Proof.
  intros Hnone Hnum.
  induction Hnum as [|[ln n] rest Hn Hrest IH]; [reflexivity|].
  simpl. unfold loop_body. cbn [snd] in Hn. rewrite Hn. cbn [negb].
  assert (Hpool : potential_matches old_df (matched_old st) n tol = []).
  { unfold potential_matches. apply elem_of_nil_inv. intros lr Hin.
    apply list_elem_of_filter in Hin as [Hm Hin]. unfold mask in Hm.
    rewrite (Hnone lr n Hin), andb_false_r in Hm. discriminate. }
  rewrite Hpool. exact IH.
Qed.

Lemma filter_all {A} (P : A -> Prop) `{!forall x, Decision (P x)} (l : list A) :
  Forall P l -> filter P l = l.
Proof.
  induction 1 as [|x l Hx Hl IH]; [reflexivity|].
  rewrite filter_cons_True by exact Hx. now rewrite IH.
Qed.

(** The result when no old row can be a candidate. *)
Lemma nothing_matches (h : gmap nat DataFrame) (ro rn : nat)
    (old new : DataFrame) (oy ny : option Z) (tol : pyfloat) :
  h !! ro = Some old -> h !! rn = Some new ->
  check_columns old new = inr tt ->
  (forall lr n, lr ∈ rows (with_ids old) -> fle (distance lr.2 n) tol = false) ->
  Forall (fun ln => distance_operands (rows (with_ids old)) ln.2 = true)
         (rows (with_ids new)) ->
  exists h' res,
    compare_defects ro rn oy ny tol h = (h', inr res) /\
    match_rows (matches_df res) = [] /\
    common_defects_count res = 0%nat /\
    new_defects_count res = length (rows new) /\
    total_defects res = length (rows new) /\
    rows (new_defects res) = rows (with_ids new).
Proof.
  intros Hro Hrn Hcols Hnone Hnum.
  rewrite (compare_defects_run h ro rn old new oy ny tol Hro Hrn), Hcols.
  unfold compare_frames. rewrite loop_without_pool by assumption.
  eexists _, _. split; [reflexivity|].
  cbn [match_rows matches_df common_defects_count new_defects_count
       total_defects new_defects rows matches matched_new].
  rewrite filter_all, with_ids_length; [split_and!; reflexivity|].
  apply Forall_forall. intros lr _. apply not_elem_of_empty.
Qed.

Lemma fabs_not_below (x tol : pyfloat) :
  tol = NaN \/ (exists t, tol = Fin t /\ (t < 0)%Q) -> fle (fabs x) tol = false.
Proof.
  intros [-> | (t & -> & Ht)]; destruct x as [|a]; simpl; auto.
  destruct (Qle_bool (Qabs a) t) eqn:E; [|reflexivity].
  apply Qle_bool_iff in E. pose proof (Qabs_nonneg a). lra.
Qed.

(** X10: with a tolerance that is negative or not a number, the call
    returns for any two tables with the required columns and numbers in
    the cells of the arithmetic, matches nothing and reports every new row
    as new. *)
Theorem unusable_tolerance_matches_nothing (h : gmap nat DataFrame) (ro rn : nat)
    (old new : DataFrame) (oy ny : option Z) (tol : pyfloat) :
  h !! ro = Some old -> h !! rn = Some new ->
  check_columns old new = inr tt ->
  numeric_cells old = true -> numeric_cells new = true ->
  tol = NaN \/ (exists t, tol = Fin t /\ (t < 0)%Q) ->
  exists h' res,
    compare_defects ro rn oy ny tol h = (h', inr res) /\
    match_rows (matches_df res) = [] /\
    common_defects_count res = 0%nat /\
    new_defects_count res = length (rows new) /\
    total_defects res = length (rows new) /\
    rows (new_defects res) = rows (with_ids new).
Proof.
  intros Hro Hrn Hcols Hnum_old Hnum_new Htol.
  apply (nothing_matches h ro rn old new oy ny tol Hro Hrn Hcols).
  - intros lr n _. unfold distance. now apply fabs_not_below.
  - eapply Forall_impl;
      [exact (numeric_cells_operands old new false false false Hnum_old
                Hnum_new)|].
    intros ln [Hd _]. exact Hd.
Qed.

(** X11: with an empty old table and a number for every log distance of
    the new table every new row is new; with an empty new table the result
    is empty. No index label can disturb either call. *)
Theorem empty_tables (h : gmap nat DataFrame) (ro rn : nat)
    (old new : DataFrame) (oy ny : option Z) (tol : pyfloat) :
  h !! ro = Some old -> h !! rn = Some new ->
  check_columns old new = inr tt ->
  (rows old = [] /\
   forall lr, lr ∈ rows new -> is_number (cell lr.2 "log dist. [m]") = true)
  \/ rows new = [] ->
  exists h' res,
    compare_defects ro rn oy ny tol h = (h', inr res) /\
    match_rows (matches_df res) = [] /\
    common_defects_count res = 0%nat /\
    new_defects_count res = length (rows new) /\
    total_defects res = length (rows new) /\
    rows (new_defects res) = rows (with_ids new).
Proof.
  intros Hro Hrn Hcols [[Hold Hnum] | Hnew].
  - assert (Hw : rows (with_ids old) = []).
    { unfold with_ids, set_column. now rewrite Hold. }
    apply (nothing_matches h ro rn old new oy ny tol Hro Hrn Hcols).
    + intros lr n Hin. rewrite Hw in Hin. now apply elem_of_nil in Hin.
    + rewrite Hw. apply Forall_forall. intros ln Hln.
      apply with_ids_row in Hln as (l & n & j & -> & Hn). cbn [snd].
      unfold distance_operands. cbn [forallb].
      rewrite cell_insert_id by discriminate.
      pose proof (Hnum _ Hn) as Hcell. cbn [snd] in Hcell.
      rewrite Hcell. reflexivity.
  - rewrite (compare_defects_run h ro rn old new oy ny tol Hro Hrn), Hcols.
    assert (Hw : rows (with_ids new) = []).
    { unfold with_ids, set_column. now rewrite Hnew. }
    unfold compare_frames. rewrite Hw. cbn [loop].
    eexists _, _. split; [reflexivity|].
    cbn [match_rows matches_df common_defects_count new_defects_count
         total_defects new_defects rows matches matched_new].
    rewrite ?Hw, ?Hnew, ?filter_nil. split_and!; reflexivity.
Qed.


(** X12: the three flags of a result say what its matches carry. Growth is
    eligible exactly when both years are given and the new one is later;
    every match has the depth fields exactly when growth is eligible and
    both tables have a depth column, and the millimetre fields exactly when
    both also have a wall thickness column; the column list of the matches
    has 6, 11 or 15 names accordingly. *)
Theorem flags_tell_the_fields (h h' : gmap nat DataFrame) (ro rn : nat)
    (old new : DataFrame) (oy ny : option Z) (tol : pyfloat) (res : Result) :
  h !! ro = Some old -> h !! rn = Some new ->
  compare_defects ro rn oy ny tol h = (h', inr res) ->
  (calculate_growth res = true <->
   exists a b, oy = Some a /\ ny = Some b /\ a < b) /\
  (has_depth_data res = true <->
   "depth [%]"%string ∈ columns old /\ "depth [%]"%string ∈ columns new) /\
  (has_wt_data res = true <->
   "wt nom [mm]"%string ∈ columns old /\ "wt nom [mm]"%string ∈ columns new) /\
  (forall m, m ∈ match_rows (matches_df res) ->
     (is_Some (depth_growth m) <->
      calculate_growth res && has_depth_data res = true) /\
     (is_Some (mm_growth m) <->
      calculate_growth res && has_depth_data res && has_wt_data res = true)) /\
  length (match_columns (matches_df res)) =
    (if calculate_growth res && has_depth_data res
     then if has_wt_data res then 15 else 11
     else 6)%nat.
Proof.
  intros Hro Hrn Hrun.
  destruct (compare_defects_inv h h' ro rn old new oy ny tol res Hro Hrn Hrun)
    as (_ & st & _ & _ & _ & _ & _ & _ & Hf1 & Hf2 & Hf3).
  split_and!.
  - rewrite Hf1. unfold growth_eligible.
    destruct oy as [a|], ny as [b|]; split;
      try discriminate; try (intros (? & ? & ? & ? & _); discriminate).
    + intros H%Z.ltb_lt. eauto.
    + intros (a' & b' & [= <-] & [= <-] & Hlt). now apply Z.ltb_lt.
  - rewrite Hf2. unfold has_column.
    now rewrite andb_true_iff, !bool_decide_eq_true.
  - rewrite Hf3. unfold has_column.
    now rewrite andb_true_iff, !bool_decide_eq_true.
  - intros m Hin.
    destruct (match_origin h h' ro rn old new oy ny tol res m Hro Hrn Hrun Hin)
      as (i & j & lo & ln & o & n & _ & _ & -> & _).
    unfold match_data. cbn [depth_growth mm_growth].
    destruct (calculate_growth res && has_depth_data res);
      [destruct (has_wt_data res)|]; simpl; split; split;
      try discriminate; try reflexivity; eauto;
      intros [? H]; discriminate H.
  - rewrite (compare_defects_run h ro rn old new oy ny tol Hro Hrn) in Hrun.
    destruct (check_columns old new) as [e | []]; [discriminate|].
    injection Hrun as _ Hres. unfold compare_frames in Hres.
    destruct (loop _ _ _ _ _ _ _ _) as [e | st0]; [discriminate|].
    injection Hres as <-.
    cbn [match_columns matches_df calculate_growth has_depth_data has_wt_data].
    destruct (growth_eligible oy ny && _); [destruct (_ && _)|]; reflexivity.
Qed.

(** X13: the depth fields of a match are those of its two rows: the old
    and the new depth, their difference, the difference divided by the
    positive number of years between the surveys, and the flag that is set
    exactly when the difference is a negative number. *)
Theorem depth_fields_of_a_match (h h' : gmap nat DataFrame) (ro rn : nat)
    (old new : DataFrame) (oy ny : option Z) (tol : pyfloat) (res : Result)
    (m : Match) (d : DepthGrowth) :
  h !! ro = Some old -> h !! rn = Some new ->
  compare_defects ro rn oy ny tol h = (h', inr res) ->
  m ∈ match_rows (matches_df res) ->
  depth_growth m = Some d ->
  exists (i j : nat) (lo ln : Z) (o n : row) (a b : Z),
    rows old !! i = Some (lo, o) /\ rows new !! j = Some (ln, n) /\
    old_defect_id m = Z.of_nat i /\ new_defect_id m = Z.of_nat j /\
    oy = Some a /\ ny = Some b /\ a < b /\
    old_depth_pct d = as_float (cell o "depth [%]") /\
    new_depth_pct d = as_float (cell n "depth [%]") /\
    depth_change_pct d = fsub (new_depth_pct d) (old_depth_pct d) /\
    growth_rate_pct_per_year d = fdiv (depth_change_pct d) (of_Z (b - a)) /\
    (is_negative_growth d = true <->
     exists c, depth_change_pct d = Fin c /\ (c < 0)%Q).
Proof.
  intros Hro Hrn Hrun Hin Hd.
  destruct (match_origin h h' ro rn old new oy ny tol res m Hro Hrn Hrun Hin)
    as (i & j & lo & ln & o & n & Ho & Hn & Hm & Hio & Hin' & _).
  destruct (compare_defects_inv h h' ro rn old new oy ny tol res Hro Hrn Hrun)
    as (_ & st & _ & _ & _ & _ & _ & _ & Hf1 & _).
  rewrite Hm in Hd. unfold match_data in Hd. cbn [depth_growth] in Hd.
  destruct (calculate_growth res) eqn:Hcg; [|discriminate].
  destruct (has_depth_data res); [|discriminate]. simpl in Hd.
  injection Hd as <-.
  symmetry in Hf1. unfold growth_eligible in Hf1.
  destruct oy as [a|]; [|discriminate]. destruct ny as [b|]; [|discriminate].
  apply Z.ltb_lt in Hf1.
  exists i, j, lo, ln, o, n, a, b.
  unfold growth_fields, with_id. cbn.
  rewrite !cell_insert_id by discriminate.
  split_and!; auto.
  destruct (fsub _ _) as [|c]; simpl.
  - split; [discriminate | intros (c & Hc & _); discriminate].
  - rewrite negb_true_iff. split.
    + intros Hle. exists c. split; [reflexivity|].
      destruct (Qlt_le_dec c 0) as [Hlt | Hge]; [exact Hlt|].
      apply Qle_bool_iff in Hge. change (inject_Z 0) with 0%Q in Hle.
      congruence.
    + intros (c' & [= <-] & Hlt).
      destruct (Qle_bool (inject_Z 0) c) eqn:E; [|reflexivity].
      apply Qle_bool_iff in E. change (inject_Z 0) with 0%Q in E. lra.
Qed.

End Rounded.

#[local] Existing Instance exact_arithmetic.

(** X9: with at least one new row the two percentages are numbers between
    0 and 100 that add up to 100, in exact arithmetic; with none they are
    both the integer 0. *)
Theorem percentages_add_up (h h' : gmap nat DataFrame) (ro rn : nat)
    (old new : DataFrame) (oy ny : option Z) (tol : pyfloat) (res : Result) :
  h !! ro = Some old -> h !! rn = Some new ->
  compare_defects ro rn oy ny tol h = (h', inr res) ->
  (rows new = [] -> pct_common res = PyInt 0 /\ pct_new res = PyInt 0) /\
  (rows new <> [] ->
   exists a b : Q,
     pct_common res = PyFloat (Fin a) /\ pct_new res = PyFloat (Fin b) /\
     (a + b == 100)%Q /\ (0 <= a)%Q /\ (0 <= b)%Q).
Proof.
  intros Hro Hrn Hrun.
  destruct (result_percentages h h' ro rn old new oy ny tol res Hro Hrn Hrun)
    as (-> & -> & Hsum & Ht).
  set (c := common_defects_count res) in *.
  set (n := new_defects_count res) in *.
  set (t := total_defects res) in *.
  unfold percentage. split.
  - intros Hnil. rewrite Hnil in Ht. simpl in Ht. now rewrite Ht.
  - intros Hne. assert (Hpos : (0 < t)%nat).
    { rewrite Ht. destruct (rows new); [congruence | simpl; lia]. }
    destruct (Nat.eqb_spec t 0) as [Hz | _]; [lia|].
    eexists _, _. split; [reflexivity|]. split; [reflexivity|].
    assert (Hq : (inject_Z (Z.of_nat c) + inject_Z (Z.of_nat n)
                  == inject_Z (Z.of_nat t))%Q).
    { rewrite <- inject_Z_plus, <- Nat2Z.inj_add, Hsum. reflexivity. }
    assert (Htq : (0 < inject_Z (Z.of_nat t))%Q).
    { rewrite <- (Zlt_Qlt 0). lia. }
    assert (Hcq : (0 <= inject_Z (Z.of_nat c))%Q).
    { rewrite <- (Zle_Qle 0). lia. }
    assert (Hnq : (0 <= inject_Z (Z.of_nat n))%Q).
    { rewrite <- (Zle_Qle 0). lia. }
    set (cq := inject_Z (Z.of_nat c)) in *.
    set (nq := inject_Z (Z.of_nat n)) in *.
    set (tq := inject_Z (Z.of_nat t)) in *.
    unfold rnd, exact_arithmetic. change (inject_Z 100) with 100%Q.
    split_and!.
    + assert (E : (cq / tq * 100 + nq / tq * 100 == (cq + nq) / tq * 100)%Q)
        by (field; lra).
      rewrite E, Hq. field. lra.
    + apply Qmult_le_0_compat; [|lra]. apply Qle_shift_div_l; lra.
    + apply Qmult_le_0_compat; [|lra]. apply Qle_shift_div_l; lra.
Qed.

End EngineExtra.

(** ** The growth statistics and the matching view *)

Module SummaryFacts.
Import Engine Spec Spec2 Summary RoundingFacts EngineFacts EngineExtra.

Lemma Qmax_ge_l (a b : Q) : (a <= Qmax a b)%Q.
Proof.
  unfold Qmax. destruct (Qle_bool a b) eqn:E.
  - now apply Qle_bool_iff.
  - apply Qle_refl.
Qed.

Lemma Qmax_ge_r (a b : Q) : (b <= Qmax a b)%Q.
Proof.
  unfold Qmax. destruct (Qle_bool a b) eqn:E.
  - apply Qle_refl.
  - destruct (Qlt_le_dec b a) as [H | H]; [now apply Qlt_le_weak|].
    apply Qle_bool_iff in H. congruence.
Qed.

Lemma foldr_Qmax_ge (q : Q) (qs : list Q) :
  (q <= foldr Qmax q qs)%Q /\
  forall x, x ∈ qs -> (x <= foldr Qmax q qs)%Q.
Proof.
  induction qs as [|y qs [IH1 IH2]]; simpl.
  - split; [apply Qle_refl|]. intros x Hx. inversion Hx.
  - split.
    + eapply Qle_trans; [exact IH1 | apply Qmax_ge_r].
    + intros x Hx. apply elem_of_cons in Hx as [-> | Hx].
      * apply Qmax_ge_l.
      * eapply Qle_trans; [apply (IH2 x Hx) | apply Qmax_ge_r].
Qed.

Lemma foldr_Qmax_in (q : Q) (qs : list Q) : foldr Qmax q qs ∈ q :: qs.
Proof.
  induction qs as [|y qs IH]; simpl.
  - left.
  - unfold Qmax at 1. destruct (Qle_bool y (foldr Qmax q qs)).
    + apply elem_of_cons in IH as [-> | IH]; [left | right; now right].
    + right. left.
Qed.

Lemma numbers_elem (l : list pyfloat) (q : Q) : q ∈ numbers l <-> Fin q ∈ l.
Proof.
  unfold numbers. rewrite list_elem_of_omap. split.
  - intros ([|q'] & Hin & Hq); [discriminate|]. now injection Hq as ->.
  - intros Hin. exists (Fin q). now split.
Qed.

(** The maximum of a series is one of its numbers and no number of the
    series is above it; it is missing only when the series holds no
    number. *)
Lemma maximum_spec (l : list pyfloat) :
  match maximum l with
  | NaN => forall q, Fin q ∉ l
  | Fin x => Fin x ∈ l /\ forall q, Fin q ∈ l -> (q <= x)%Q
  end.
Proof.
  unfold maximum. destruct (numbers l) as [|q qs] eqn:E.
  - intros q Hq. apply numbers_elem in Hq. rewrite E in Hq. inversion Hq.
  - split.
    + apply numbers_elem. rewrite E. apply foldr_Qmax_in.
    + intros x Hx. apply numbers_elem in Hx. rewrite E in Hx.
      destruct (foldr_Qmax_ge q qs) as [G1 G2].
      apply elem_of_cons in Hx as [-> | Hx]; auto.
Qed.

Section Rounded.

Context {R : Rounding} {F : Faithful R}.

(** The sum of a column as the library takes it, of which the facts use
    one property: a sum of numbers that are not negative is not
    negative. *)
Variable series_sum : list Q -> Q.
Hypothesis sum_nonneg :
  forall l, (forall x, x ∈ l -> (0 <= x)%Q) -> (0 <= series_sum l)%Q.

(** The mean of numbers that are not negative is not negative; it is
    missing only when the series holds no number. *)
Lemma mean_spec (l : list pyfloat) :
  (forall q, Fin q ∈ l -> (0 <= q)%Q) ->
  match mean series_sum l with
  | NaN => forall q, Fin q ∉ l
  | Fin a => (0 <= a)%Q
  end.
Proof.
  intros H. unfold mean.
  destruct (numbers l) as [|q qs] eqn:E.
  - intros q Hq. apply numbers_elem in Hq. rewrite E in Hq. inversion Hq.
  - assert (Hb : forall x, x ∈ q :: qs -> (0 <= x)%Q).
    { intros x Hx. apply H, numbers_elem. now rewrite E. }
    pose proof (sum_nonneg (q :: qs) Hb) as Hs.
    set (n := inject_Z (Z.of_nat (length (q :: qs)))) in *.
    assert (Hn : (0 < n)%Q).
    { unfold n. change 0%Q with (inject_Z 0). rewrite <- Zlt_Qlt.
      simpl. lia. }
    apply rnd_nonneg. apply Qle_shift_div_l; [exact Hn | lra].
Qed.

(** The yearly rate of a match without negative growth is not negative. *)
Lemma positive_rate (h h' : gmap nat DataFrame) (ro rn : nat)
    (old new : DataFrame) (oy ny : option Z) (tol : pyfloat) (res : Result)
    (m : Match) (r : Q) :
  h !! ro = Some old -> h !! rn = Some new ->
  compare_defects ro rn oy ny tol h = (h', inr res) ->
  m ∈ match_rows (matches_df res) ->
  negative m = false -> rate_pct m = Fin r -> (0 <= r)%Q.
Proof.
  intros Hro Hrn Hrun Hin Hneg Hr.
  destruct (match_origin h h' ro rn old new oy ny tol res m Hro Hrn Hrun Hin)
    as (i & j & lo & ln & o & n & Ho & Hn & Hm & _).
  destruct (compare_defects_inv h h' ro rn old new oy ny tol res Hro Hrn Hrun)
    as (_ & st & _ & _ & _ & _ & _ & _ & Hf1 & _).
  unfold negative, rate_pct in *. rewrite Hm in Hneg, Hr.
  unfold match_data in Hneg, Hr. cbn [depth_growth] in Hneg, Hr.
  destruct (calculate_growth res && has_depth_data res) eqn:Hc; [|discriminate].
  apply andb_true_iff in Hc as [Hcg _]. rewrite Hcg in Hf1.
  symmetry in Hf1. unfold growth_eligible in Hf1.
  destruct oy as [a|]; [|discriminate]. destruct ny as [b|]; [|discriminate].
  apply Z.ltb_lt in Hf1.
  unfold growth_fields in Hneg, Hr.
  cbn [is_negative_growth growth_rate_pct_per_year years_between] in Hneg, Hr.
  destruct (fsub _ _) as [|c]; [discriminate|].
  unfold fdiv, rounded, of_Z in Hr. cbn [flt of_Z] in Hneg.
  injection Hr as <-.
  apply negb_false_iff, Qle_bool_iff in Hneg.
  change (inject_Z 0) with 0%Q in Hneg.
  apply rnd_nonneg. apply Qle_shift_div_l; [|lra].
  change 0%Q with (inject_Z 0). rewrite <- Zlt_Qlt. lia.
Qed.

(** X14: the statistics are reported exactly when growth is computed on
    depth data and something matched. They count every match; the matches
    with negative growth are a share between 0 and 100 percent, the
    floating-point value of the count divided by the number of matches and
    multiplied by 100, which is within [2^-36] of the exact share; the
    millimetre statistics come with the wall thickness columns. *)
Theorem growth_stats_counts (h h' : gmap nat DataFrame) (ro rn : nat)
    (old new : DataFrame) (oy ny : option Z) (tol : pyfloat) (res : Result) :
  h !! ro = Some old -> h !! rn = Some new ->
  compare_defects ro rn oy ny tol h = (h', inr res) ->
  match growth_stats series_sum res with
  | None =>
      calculate_growth res && has_depth_data res = false \/
      common_defects_count res = 0%nat
  | Some gs =>
      calculate_growth res = true /\ has_depth_data res = true /\
      total_matched_defects gs = common_defects_count res /\
      (0 < total_matched_defects gs)%nat /\
      negative_growth_count gs
      = length (filter (fun m => negative m = true)
                       (match_rows (matches_df res))) /\
      (negative_growth_count gs
       + length (filter (fun m => negative m = false)
                        (match_rows (matches_df res)))
       = total_matched_defects gs)%nat /\
      (exists p,
         pct_negative_growth gs = PyFloat (Fin p) /\
         (p == rnd (rnd (inject_Z (Z.of_nat (negative_growth_count gs))
                         / inject_Z (Z.of_nat (total_matched_defects gs)))
                    * 100))%Q /\
         (0 <= p <= 100)%Q /\
         (Qabs (p - 100 * inject_Z (Z.of_nat (negative_growth_count gs))
                    / inject_Z (Z.of_nat (total_matched_defects gs)))
          <= 1 # 2 ^ 36)%Q) /\
      (is_Some (mm_stats gs) <-> has_wt_data res = true)
  end.
Proof.
  intros Hro Hrn Hrun.
  destruct (compare_defects_inv h h' ro rn old new oy ny tol res Hro Hrn Hrun)
    as (_ & st & _ & Hm & _ & Hc & _).
  unfold growth_stats.
  destruct (calculate_growth res) eqn:Hcg; [|now left].
  destruct (has_depth_data res) eqn:Hhd; [|now left].
  cbn [andb].
  destruct (match_rows (matches_df res)) as [|m ms] eqn:Hms.
  { simpl. right. rewrite Hc, <- Hm. reflexivity. }
  rewrite bool_decide_eq_false_2 by discriminate. cbn [negb].
  set (l := m :: ms) in *.
  set (neg := length (filter (fun m => negative m = true) l)).
  assert (Hsplit : (neg + length (filter (fun m => negative m = false) l)
                    = length l)%nat).
  { unfold neg. clear. induction l as [|x l IH]; [reflexivity|].
    rewrite !filter_cons.
    destruct (decide (negative x = true)) as [e | e],
             (decide (negative x = false)) as [e' | e']; simpl; try lia.
    - congruence.
    - destruct (negative x); congruence. }
  assert (Hpos : (0 < length l)%nat) by (unfold l; simpl; lia).
  cbn [total_matched_defects negative_growth_count pct_negative_growth mm_stats].
  split_and!; auto.
  - rewrite Hc, <- Hm. reflexivity.
  - apply Nat.ltb_lt in Hpos. rewrite Hpos.
    eexists. split; [reflexivity|].
    apply Nat.ltb_lt in Hpos.
    change (inject_Z 100) with 100%Q.
    set (t := inject_Z (Z.of_nat (length l))).
    set (k := inject_Z (Z.of_nat neg)).
    assert (Ht : (0 < t)%Q).
    { unfold t. change 0%Q with (inject_Z 0). rewrite <- Zlt_Qlt. lia. }
    assert (Hk : (0 <= k <= t)%Q).
    { unfold k, t. change 0%Q with (inject_Z 0). rewrite <- !Zle_Qle. lia. }
    assert (Hq0 : (0 <= k / t)%Q) by (apply Qle_shift_div_l; [exact Ht | lra]).
    assert (Hq1 : (k / t <= 1)%Q) by (apply Qle_shift_div_r; [exact Ht | lra]).
    assert (Hr0 : (0 <= rnd (k / t))%Q) by now apply rnd_nonneg.
    assert (Hr1 : (rnd (k / t) <= 1)%Q).
    { apply (rnd_le_Z (k / t) 1); [discriminate | exact Hq1]. }
    assert (Hr : (k / t - (1 # 2 ^ 43) <= rnd (k / t)
                  /\ rnd (k / t) <= k / t + (1 # 2 ^ 43))%Q).
    { apply rnd_close; lra. }
    assert (Hp : (rnd (k / t) * 100 - (1 # 2 ^ 43) <= rnd (rnd (k / t) * 100)
                  /\ rnd (rnd (k / t) * 100)
                     <= rnd (k / t) * 100 + (1 # 2 ^ 43))%Q).
    { apply rnd_close; lra. }
    split; [reflexivity|]. split; [split|].
    + apply rnd_nonneg. lra.
    + apply (rnd_le_Z _ 100); [discriminate|].
      change (inject_Z 100) with 100%Q. lra.
    + assert (E43 : ((1 # 2 ^ 43) == 1 # 8796093022208)%Q) by reflexivity.
      assert (E36 : ((1 # 2 ^ 36) == 1 # 68719476736)%Q) by reflexivity.
      assert (Ediv : (100 * k / t == 100 * (k / t))%Q) by (field; lra).
      rewrite E43 in Hr, Hp. rewrite E36, Ediv.
      apply Qabs_Qle_condition. revert Hr Hp.
      generalize (rnd (rnd (k / t) * 100))%Q (rnd (k / t))%Q (k / t)%Q.
      intros p r q Hr Hp. split; lra.
  - destruct (has_wt_data res); split; intros H; auto; try discriminate.
    destruct H as [? H]. discriminate.
Qed.

(** X15: the two statistics of positive growth. With no match without
    negative growth both are the integer 0. Otherwise both are missing
    when no such match has a rate; else the maximum is the rate of one of
    these matches, no rate of them is above it or below zero, and the
    average, the floating-point quotient of the sum of the rates and their
    number, is not below zero when the sum is not. *)
Theorem positive_growth_statistics (h h' : gmap nat DataFrame) (ro rn : nat)
    (old new : DataFrame) (oy ny : option Z) (tol : pyfloat) (res : Result)
    (gs : GrowthStats) :
  h !! ro = Some old -> h !! rn = Some new ->
  compare_defects ro rn oy ny tol h = (h', inr res) ->
  growth_stats series_sum res = Some gs ->
  let positive :=
    filter (fun m => negative m = false) (match_rows (matches_df res)) in
  match max_growth_rate (pct_stats gs),
        avg_positive_growth_rate (pct_stats gs) with
  | PyInt 0, PyInt 0 => positive = []
  | PyFloat NaN, PyFloat NaN =>
      positive <> [] /\ forall m, m ∈ positive -> rate_pct m = NaN
  | PyFloat (Fin mx), PyFloat (Fin av) =>
      (0 <= av)%Q /\
      (av == rnd (series_sum (numbers (rate_pct <$> positive))
                  / inject_Z (Z.of_nat (length (numbers (rate_pct <$> positive))))))%Q /\
      (exists m, m ∈ positive /\ rate_pct m = Fin mx) /\
      forall m r, m ∈ positive -> rate_pct m = Fin r -> (0 <= r <= mx)%Q
  | _, _ => False
  end.
Proof.
  intros Hro Hrn Hrun Hgs positive.
  unfold growth_stats in Hgs.
  destruct (_ && _) in Hgs; [|discriminate].
  injection Hgs as <-. cbn [pct_stats rate_stats max_growth_rate
                            avg_positive_growth_rate].
  fold positive.
  destruct positive as [|p ps] eqn:Hp; [reflexivity|].
  change (0 <? length (p :: ps))%nat with true. cbn match.
  assert (Hrate : forall m r, m ∈ p :: ps -> rate_pct m = Fin r -> (0 <= r)%Q).
  { intros m r Hin Hr. rewrite <- Hp in Hin. unfold positive in Hin.
    apply list_elem_of_filter in Hin as [Hneg Hin].
    exact (positive_rate h h' ro rn old new oy ny tol res m r
             Hro Hrn Hrun Hin Hneg Hr). }
  pose proof (maximum_spec (rate_pct <$> p :: ps)) as Hmax.
  assert (Hnn : forall q, Fin q ∈ rate_pct <$> p :: ps -> (0 <= q)%Q).
  { intros q Hq. apply list_elem_of_fmap in Hq as (m & Hm & Hin).
    now apply (Hrate m q Hin). }
  pose proof (mean_spec (rate_pct <$> p :: ps) Hnn) as Hmean.
  destruct (maximum (rate_pct <$> p :: ps)) as [|mx] eqn:Emax.
  - assert (Hnone : forall m, m ∈ p :: ps -> rate_pct m = NaN).
    { intros m Hin. destruct (rate_pct m) as [|r] eqn:Er; [reflexivity|].
      exfalso. apply (Hmax r). rewrite <- Er.
      apply list_elem_of_fmap. now exists m. }
    destruct (mean series_sum (rate_pct <$> p :: ps)) as [|av] eqn:Emean.
    + split; [discriminate | exact Hnone].
    + unfold mean in Emean. unfold maximum in Emax.
      destruct (numbers (rate_pct <$> p :: ps)); discriminate.
  - destruct Hmax as [Hmx Hup].
    apply list_elem_of_fmap in Hmx as (m0 & Hm0 & Hin0).
    destruct (mean series_sum (rate_pct <$> p :: ps)) as [|av] eqn:Emean.
    + apply (Hmean mx). rewrite Hm0. apply list_elem_of_fmap. now exists m0.
    + split; [exact Hmean|]. split; [|split].
      * unfold mean in Emean.
        destruct (numbers (rate_pct <$> p :: ps)) as [|q qs];
          [discriminate|].
        injection Emean as <-. reflexivity.
      * exists m0. now split.
      * intros m r Hin Hr. split; [now apply (Hrate m r Hin)|].
        apply Hup. rewrite <- Hr. apply list_elem_of_fmap. now exists m.
Qed.

(** A loop that returns has computed with numbers at every new row. *)
Lemma loop_numbers (old_df : list (Z * row)) (tol : pyfloat) (cg hd hw : bool)
    (yd : Z) (new_rows : list (Z * row)) :
  forall st st',
    loop old_df tol cg hd hw yd st new_rows = inr st' ->
    Forall (fun ln => distance_operands old_df ln.2 = true) new_rows.
Proof.
  induction new_rows as [|[ln n] rest IH]; intros st st' Hloop; [constructor|].
  cbn [loop] in Hloop.
  destruct (loop_body old_df tol cg hd hw yd st n) as [e | st1] eqn:Hb;
    [discriminate|].
  constructor; [|exact (IH st1 st' Hloop)].
  exact (loop_body_numbers old_df tol cg hd hw yd st st1 n Hb).
Qed.

(** What a successful call says about the log distances: they are all
    numbers, unless the new table has no row. *)
Lemma compare_defects_numbers (h h' : gmap nat DataFrame) (ro rn : nat)
    (old new : DataFrame) (oy ny : option Z) (tol : pyfloat) (res : Result) :
  h !! ro = Some old -> h !! rn = Some new ->
  compare_defects ro rn oy ny tol h = (h', inr res) ->
  Forall (fun ln => distance_operands (rows old) ln.2 = true) (rows new).
Proof.
  intros Hro Hrn Hrun.
  rewrite (compare_defects_run h ro rn old new oy ny tol Hro Hrn) in Hrun.
  destruct (check_columns old new) as [e | []]; [discriminate|].
  injection Hrun as _ Hres.
  apply compare_frames_inv in Hres as (st & Hloop & _).
  apply loop_numbers in Hloop.
  apply Forall_forall. intros [ln n] Hn.
  apply list_elem_of_lookup in Hn as [j Hj].
  assert (Hj' : rows (with_ids new) !! j
                = Some (ln, <["defect_id" := PyInt (Z.of_nat j)]> n)).
  { rewrite with_ids_lookup, Hj. reflexivity. }
  rewrite Forall_forall in Hloop.
  pose proof (Hloop _ (list_elem_of_lookup_2 _ _ _ Hj')) as Hd.
  cbn [snd] in *. unfold distance_operands in *.
  apply andb_true_iff in Hd as [Hd1 Hd2].
  rewrite cell_insert_id in Hd1 by discriminate.
  rewrite Hd1. cbn [andb].
  apply forallb_forall. intros [lo o] Ho. apply list_elem_of_In in Ho.
  apply list_elem_of_lookup in Ho as [i Hi].
  assert (Hi' : rows (with_ids old) !! i
                = Some (lo, <["defect_id" := PyInt (Z.of_nat i)]> o)).
  { rewrite with_ids_lookup, Hi. reflexivity. }
  rewrite forallb_forall in Hd2.
  pose proof (Hd2 _ (proj1 (list_elem_of_In _ _)
                       (list_elem_of_lookup_2 _ _ _ Hi'))) as Hc.
  cbn [snd] in Hc. now rewrite cell_insert_id in Hc by discriminate.
Qed.

(** The view of tables of numbers with the type column is the list of the
    rows of every new defect. *)
Lemma view_loop_returns (old_df : list (Z * row)) (shared : list string)
    (tol : pyfloat) (new_rows : list (Z * row)) :
  Forall (fun ln => distance_operands old_df ln.2 = true) new_rows ->
  view_loop old_df shared true tol new_rows
  = inr (mjoin ((fun lr => debug_rows old_df shared tol lr.2) <$> new_rows)).
Proof.
  induction 1 as [|[ln n] rest Hn Hrest IH]; [reflexivity|].
  cbn [view_loop fmap list_fmap mjoin list_join snd].
  rewrite IH. unfold view_step.
  assert (Hv : view_operands old_df n = true).
  { cbn [snd] in Hn. unfold distance_operands in Hn. unfold view_operands.
    apply andb_true_iff in Hn as [-> Hn]. cbn [andb].
    apply forallb_forall. intros lr Hlr.
    rewrite forallb_forall in Hn. specialize (Hn lr Hlr).
    now destruct (cell lr.2 "log dist. [m]"). }
  rewrite Hv. cbn [negb].
  destruct (debug_rows old_df shared tol n); reflexivity.
Qed.

(** X16: every match of a result is a row of the matching view of the
    same two tables and tolerance: the view does not raise, and it has a
    row with the two log distances, the type and the distance of the
    match, marked as one that would match. *)
Theorem matches_are_in_the_view (h h' : gmap nat DataFrame) (ro rn : nat)
    (old new : DataFrame) (oy ny : option Z) (tol : pyfloat) (res : Result)
    (m : Match) :
  h !! ro = Some old -> h !! rn = Some new ->
  compare_defects ro rn oy ny tol h = (h', inr res) ->
  m ∈ match_rows (matches_df res) ->
  exists view r,
    create_matching_debug_view old new tol = inr view /\ r ∈ view /\
    new_dist r = log_dist m /\ old_dist r = old_log_dist m /\
    debug_defect_type r = defect_type m /\
    same (debug_distance_diff r) (distance_diff m) /\
    would_match r = true.
Proof.
  intros Hro Hrn Hrun Hin.
  destruct (match_origin h h' ro rn old new oy ny tol res m Hro Hrn Hrun Hin)
    as (i & j & lo & ln & o & n & Ho & Hn & Hm & _ & _ & Hcand).
  destruct (compare_defects_inv h h' ro rn old new oy ny tol res Hro Hrn Hrun)
    as (Hchk & _).
  pose proof (compare_defects_numbers h h' ro rn old new oy ny tol res
                Hro Hrn Hrun) as Hnum.
  destruct Hcand as (_ & _ & _ & Hd).
  rewrite (dist_at_lookup old new i j lo ln o n Ho Hn) in Hd.
  assert (Hcols : forall c, c ∈ required_columns ->
                    c ∈ columns old /\ c ∈ columns new).
  { intros c Hc. unfold check_columns in Hchk.
    destruct (filter _ required_columns) as [|c0 l0] eqn:Ef; [|discriminate].
    destruct (decide (c ∈ columns old /\ c ∈ columns new)) as [Y | N]; [exact Y|].
    exfalso. assert (Hin' : c ∈ filter
      (fun col => ¬ (col ∈ columns old /\ col ∈ columns new)) required_columns)
      by (apply list_elem_of_filter; now split).
    rewrite Ef in Hin'. inversion Hin'. }
  destruct (Hcols "log dist. [m]"%string) as [Co Cn]; [left|].
  destruct (Hcols "component / anomaly identification"%string) as [_ Ca];
    [right; left|].
  set (shared := filter (fun col => col ∈ columns old /\ col ∈ columns new)
                        extra_cols).
  set (r := {| new_dist := log_distance n; old_dist := log_distance o;
               debug_distance_diff := fabs (fsub (log_distance n) (log_distance o));
               debug_defect_type := cell n "component / anomaly identification";
               would_match :=
                 fle (fabs (fsub (log_distance n) (log_distance o))) tol;
               extra_values :=
                 (fun col => (col, cell n col, cell o col)) <$> shared |}).
  unfold distance in Hd.
  destruct (log_distance o) as [|a] eqn:Ea; [discriminate|].
  destruct (log_distance n) as [|b] eqn:Eb; [discriminate|].
  destruct tol as [|t]; [discriminate|].
  unfold fsub, rounded in Hd. cbn [fle fabs] in Hd. apply Qle_bool_iff in Hd.
  assert (Hsym : (Qabs (rnd (b - a)) == Qabs (rnd (a - b)))%Q).
  { assert (E : (b - a == - (a - b))%Q) by ring.
    rewrite (rnd_proper _ _ E), rnd_odd. apply Qabs_opp. }
  assert (Hr : r ∈ mjoin ((fun lr => debug_rows (rows old) shared (Fin t) lr.2)
                          <$> rows new)).
  { apply list_elem_of_join. exists (debug_rows (rows old) shared (Fin t) n).
    split.
    - unfold debug_rows. apply list_elem_of_fmap. exists (lo, o).
      split.
      + unfold r. cbn [snd]. rewrite Ea, Eb. reflexivity.
      + apply list_elem_of_filter. split.
        * cbn [snd]. rewrite Ea, Eb. unfold fsub, fmul, rounded, of_Z.
          cbn [fle fabs]. apply Qle_bool_iff.
          change (inject_Z 2) with 2%Q.
          rewrite rnd_abs in Hd |- *.
          rewrite <- (rnd_idem (Qabs (a - b))).
          apply rnd_mono.
          pose proof (rnd_nonneg (Qabs (a - b)) (Qabs_nonneg (a - b))) as Hnn.
          revert Hd Hnn. generalize (rnd (Qabs (a - b))). intros d Hd Hnn. lra.
        * eapply list_elem_of_lookup_2; eauto.
    - apply list_elem_of_fmap. exists (ln, n). split; [reflexivity|].
      eapply list_elem_of_lookup_2; eauto. }
  unfold create_matching_debug_view. fold shared.
  destruct (rows new) as [|x xs] eqn:Erows.
  { rewrite lookup_nil in Hn. discriminate. }
  unfold has_column. rewrite !bool_decide_eq_true_2 by assumption.
  cbn [negb]. rewrite (view_loop_returns _ _ _ _ Hnum).
  eexists _, r. split; [reflexivity|]. split; [exact Hr|].
  rewrite Hm. unfold match_data, with_id, r.
  cbn [new_dist old_dist debug_defect_type debug_distance_diff would_match
       log_dist old_log_dist defect_type distance_diff].
  rewrite !log_distance_insert_id, cell_insert_id by discriminate.
  rewrite Ea, Eb. split_and!; auto.
  - unfold distance. rewrite Ea, Eb. unfold fsub, rounded. cbn [same fabs].
    exact Hsym.
  - unfold fsub, rounded. cbn [fle fabs]. apply Qle_bool_iff. rewrite Hsym.
    exact Hd.
Qed.

(** The sum from left to right of numbers that are not negative. *)
Lemma left_sum_nonneg (l : list Q) :
  (forall x, x ∈ l -> (0 <= x)%Q) -> (0 <= left_sum l)%Q.
Proof.
  unfold left_sum. intros H.
  assert (G : forall acc, (0 <= acc)%Q ->
                (0 <= foldl (fun acc x => rnd (acc + x)%Q) acc l)%Q).
  { induction l as [|x l IH]; intros acc Hacc; [exact Hacc|].
    cbn [foldl]. apply IH.
    - intros y Hy. apply H. now right.
    - apply rnd_nonneg.
      assert (0 <= x)%Q by (apply H; left). lra. }
  apply G. apply Qle_refl.
Qed.

End Rounded.

End SummaryFacts.

(** ** Facts about the column mapping *)

Module MappingFacts.
Import Splitter Mapping Spec Spec2 Spec3 Examples SplitterExtra.

Lemma rename_rows (df : DataFrame) (m : mapping) (acc : DataFrame) :
  length (rows acc) = length (rows df) ->
  rows (foldl (rename_step df) acc m)
  = zip_with (fun la lr => (la.1, rename_row df lr.2 m la.2))
             (rows acc) (rows df).
Proof.
  revert acc. induction m as [|kv m IH]; intros acc Hlen.
  - simpl. apply list_eq. intros k. rewrite lookup_zip_with.
    destruct (rows acc !! k) as [[l a]|] eqn:Ea; [|reflexivity].
    simpl. destruct (rows df !! k) eqn:Ed; [reflexivity|].
    apply lookup_ge_None in Ed. apply lookup_lt_Some in Ea. lia.
  - cbn [foldl]. rewrite IH.
    + apply list_eq. intros k. rewrite !lookup_zip_with.
      unfold rename_step. destruct kv as [c [f|]]; cbn [fst snd];
        [destruct (has_column df f) eqn:Hf|].
      * unfold set_column, column. cbn [rows]. rewrite lookup_zip_with.
        rewrite list_lookup_fmap.
        destruct (rows acc !! k) as [[l a]|]; [|reflexivity].
        destruct (rows df !! k) as [[l' r]|]; [|reflexivity].
        cbn. now rewrite Hf.
      * destruct (rows acc !! k) as [[l a]|]; [|reflexivity].
        destruct (rows df !! k) as [[l' r]|]; [|reflexivity].
        cbn. now rewrite Hf.
      * destruct (rows acc !! k) as [[l a]|]; [|reflexivity].
        destruct (rows df !! k) as [[l' r]|]; [|reflexivity].
        reflexivity.
    + unfold rename_step. destruct kv as [c [f|]]; cbn [snd]; [|exact Hlen].
      destruct (has_column df f); [|exact Hlen].
      unfold set_column, column. cbn [rows].
      rewrite length_zip_with_l_eq; [exact Hlen|].
      now rewrite length_fmap.
Qed.

Lemma rename_row_lookup (df : DataFrame) (r : row) (m : mapping) (a : row)
    (c : string) :
  NoDup m.*1 ->
  rename_row df r m a !! c = renamed_value df m r a c.
Proof.
  unfold renamed_value, get.
  revert a. induction m as [|[c0 v] m IH]; intros a Hnd.
  - reflexivity.
  - apply NoDup_cons in Hnd as [Hnot Hnd]. cbn [fmap list_fmap fst] in Hnot.
    change (rename_row df r ((c0, v) :: m) a)
      with (rename_row df r m
              (match v with
               | Some f => if has_column df f then <[c0 := cell r f]> a else a
               | None => a
               end)).
    rewrite (IH _ Hnd). cbn [list_to_map foldr fst snd uncurry].
    destruct (decide (c = c0)) as [-> | Hne].
    + rewrite lookup_insert_eq.
      rewrite (not_elem_of_list_to_map_1 _ c0 Hnot).
      destruct v as [f|]; [|reflexivity].
      destruct (has_column df f); [|reflexivity].
      apply lookup_insert_eq.
    + rewrite lookup_insert_ne by congruence.
      assert (Ha : forall a', a' = (match v with
                  | Some f => if has_column df f then <[c0 := cell r f]> a else a
                  | None => a end) -> a' !! c = a !! c).
      { intros a' ->. destruct v as [f|]; [|reflexivity].
        destruct (has_column df f); [|reflexivity].
        apply lookup_insert_ne. congruence. }
      rewrite (Ha _ eq_refl). reflexivity.
Qed.

Lemma rename_columns (df : DataFrame) (m : mapping) (acc : DataFrame)
    (c : string) :
  c ∈ columns (foldl (rename_step df) acc m) <->
  c ∈ columns acc \/ exists f, (c, Some f) ∈ m /\ f ∈ columns df.
Proof.
  revert acc. induction m as [|[c0 v] m IH]; intros acc.
  - simpl. split; [now left|]. intros [H | (f & H & _)]; [exact H|].
    inversion H.
  - cbn [foldl]. rewrite IH. unfold rename_step. cbn [fst snd].
    assert (Hcons : forall f, (c, Some f) ∈ (c0, v) :: m <->
                                (c = c0 /\ v = Some f) \/ (c, Some f) ∈ m).
    { intros f. rewrite elem_of_cons. split.
      - intros [[= -> ->] | H]; auto.
      - intros [[-> ->] | H]; auto. }
    destruct v as [f0|].
    + destruct (has_column df f0) eqn:Hf.
      * unfold has_column in Hf. apply bool_decide_eq_true in Hf.
        unfold set_column. cbn [columns].
        destruct (bool_decide (c0 ∈ columns acc)) eqn:Hc0.
        -- apply bool_decide_eq_true in Hc0. split.
           ++ intros [H | (f & H & Hin)]; [now left|].
              right. exists f. rewrite Hcons. auto.
           ++ intros [H | (f & H & Hin)]; [now left|].
              apply Hcons in H as [[-> _] | H]; [now left|].
              right. exists f. auto.
        -- split.
           ++ intros [H | (f & H & Hin)].
              ** apply elem_of_app in H as [H | H]; [now left|].
                 apply list_elem_of_singleton in H as ->.
                 right. exists f0. rewrite Hcons. auto.
              ** right. exists f. rewrite Hcons. auto.
           ++ intros [H | (f & H & Hin)].
              ** left. apply elem_of_app. now left.
              ** apply Hcons in H as [[-> _] | H].
                 --- left. apply elem_of_app. right.
                     now apply list_elem_of_singleton.
                 --- right. exists f. auto.
      * unfold has_column in Hf. apply bool_decide_eq_false in Hf. split.
        -- intros [H | (f & H & Hin)]; [now left|].
           right. exists f. rewrite Hcons. auto.
        -- intros [H | (f & H & Hin)]; [now left|].
           apply Hcons in H as [[_ [= ->]] | H]; [contradiction|].
           right. exists f. auto.
    + split.
      * intros [H | (f & H & Hin)]; [now left|].
        right. exists f. rewrite Hcons. auto.
      * intros [H | (f & H & Hin)]; [now left|].
        apply Hcons in H as [[_ [=]] | H].
        right. exists f. auto.
Qed.

Lemma apply_column_mapping_fold (df : DataFrame) (m : mapping) :
  apply_column_mapping df m = foldl (rename_step df) df m.
Proof. reflexivity. Qed.

(** X17: the renamed table has the rows of the original one, label by
    label. A standard column mapped to a column of the table holds the
    values of that column in the ORIGINAL table, so two columns mapped to
    each other are exchanged; every other value is kept. The columns are
    those of the table and the mapped standard columns. *)
Theorem renamed_table (df : DataFrame) (m : mapping) :
  NoDup m.*1 ->
  length (rows (apply_column_mapping df m)) = length (rows df) /\
  (forall c, c ∈ columns (apply_column_mapping df m) <->
             c ∈ columns df \/ exists f, (c, Some f) ∈ m /\ f ∈ columns df) /\
  forall k l r, rows df !! k = Some (l, r) ->
    exists r', rows (apply_column_mapping df m) !! k = Some (l, r') /\
               forall c, r' !! c = renamed_value df m r r c.
Proof.
  intros Hnd. rewrite apply_column_mapping_fold.
  rewrite (rename_rows df m df eq_refl). split_and!.
  - rewrite length_zip_with_l_eq; reflexivity.
  - intros c. apply rename_columns.
  - intros k l r Hk. exists (rename_row df r m r). split.
    + rewrite lookup_zip_with, Hk. reflexivity.
    + intros c. now apply rename_row_lookup.
Qed.

(** X18: when no required column is missing from a mapping whose file
    columns are columns of the table, the renamed table has every column
    the split reads, so that the split raises no [KeyError]: it returns
    the two tables, unless a text and a number meet among the log
    distances of the renamed table, which makes the sort raise
    [TypeError]. *)
Theorem complete_mapping_is_split (parse_num : string -> pyfloat)
    (sort_values : list (Z * row) -> list (Z * row))
    (df : DataFrame) (m : mapping) :
  get_missing_required_columns m = [] ->
  (forall c f, get m c = Some (Some f) -> f ∈ columns df) ->
  let renamed := apply_column_mapping df m in
  (forall c, c ∈ needed_columns -> c ∈ columns renamed) /\
  (unsortable renamed ->
   process_pipeline_data parse_num sort_values renamed = inl TypeError) /\
  (~ unsortable renamed ->
   exists joints defects,
     process_pipeline_data parse_num sort_values renamed
     = inr (joints, defects)).
Proof.
  intros Hmiss Hfile renamed.
  assert (Hcols : forall c, c ∈ needed_columns -> c ∈ columns renamed);
    [|split; [exact Hcols|]; split;
      [apply split_raises_on_mixed
      | intros Hs; now apply split_returns]].
  intros c Hc. unfold renamed.
  rewrite apply_column_mapping_fold. apply rename_columns. right.
  assert (Hreq : c ∈ REQUIRED_COLUMNS).
  { unfold needed_columns, REQUIRED_COLUMNS in *.
    repeat (apply elem_of_cons in Hc as [-> | Hc]; [in_list|]).
    now apply elem_of_nil in Hc. }
  unfold get_missing_required_columns in Hmiss.
  destruct (unmapped m c) eqn:Hu.
  { exfalso. assert (Hin : c ∈ filter (fun col => unmapped m col = true)
                                      REQUIRED_COLUMNS)
      by (apply list_elem_of_filter; now split).
    rewrite Hmiss in Hin. inversion Hin. }
  unfold unmapped in Hu.
  destruct (get m c) as [[f|]|] eqn:Hg; try discriminate.
  exists f. split; [|exact (Hfile c f Hg)].
  unfold get in Hg. now apply elem_of_list_to_map_2.
Qed.

(** X19: the mapping [process_data] builds, every column to itself,
    changes nothing: on a table with distinct column names and a value in
    every cell, [apply_column_mapping] returns the table itself. *)
Theorem dummy_mapping_changes_nothing (df : DataFrame) :
  NoDup (columns df) -> complete df ->
  apply_column_mapping df (dummy_mapping df) = df.
Proof.
  intros Hnd Hfull.
  assert (Hkeys : (dummy_mapping df).*1 = columns df).
  { unfold dummy_mapping. rewrite <- list_fmap_compose.
    rewrite <- (list_fmap_id (columns df)) at 2. reflexivity. }
  assert (Hcols : columns (apply_column_mapping df (dummy_mapping df))
                  = columns df).
  { rewrite apply_column_mapping_fold.
    assert (G : forall m acc, (forall kv, kv ∈ m -> kv.1 ∈ columns acc) ->
                  columns (foldl (rename_step df) acc m) = columns acc).
    { induction m as [|kv m IH]; intros acc H; [reflexivity|].
      cbn [foldl].
      assert (E : columns (rename_step df acc kv) = columns acc).
      { unfold rename_step. destruct (kv.2) as [f|]; [|reflexivity].
        destruct (has_column df f); [|reflexivity].
        unfold set_column. cbn [columns].
        rewrite bool_decide_eq_true_2; [reflexivity|]. apply H. left. }
      rewrite IH; [exact E|]. intros kv' Hkv'. rewrite E. apply H.
      now right. }
    apply G. intros kv Hkv. unfold dummy_mapping in Hkv.
    apply list_elem_of_fmap in Hkv as (c & -> & Hc). exact Hc. }
  assert (Hrows : rows (apply_column_mapping df (dummy_mapping df)) = rows df).
  { rewrite apply_column_mapping_fold.
    rewrite (rename_rows df _ df eq_refl).
    apply list_eq. intros k. rewrite lookup_zip_with.
    destruct (rows df !! k) as [[l r]|] eqn:Hk; [|reflexivity].
    cbn. f_equal. f_equal. apply map_eq. intros c.
    rewrite rename_row_lookup by (rewrite Hkeys; exact Hnd).
    unfold renamed_value, get.
    destruct (decide (c ∈ columns df)) as [Hc | Hc].
    - assert (Hg : (list_to_map (dummy_mapping df) : gmap string (option string))
                   !! c = Some (Some c)).
      { apply elem_of_list_to_map_1; [rewrite Hkeys; exact Hnd|].
        unfold dummy_mapping. apply list_elem_of_fmap. now exists c. }
      rewrite Hg. unfold has_column. rewrite bool_decide_eq_true_2 by exact Hc.
      destruct (Hfull (l, r) c) as [v Hv]; [|exact Hc|].
      { eapply list_elem_of_lookup_2; eauto. }
      simpl in Hv. unfold cell. now rewrite Hv.
    - rewrite (not_elem_of_list_to_map_1 (dummy_mapping df) c);
        [reflexivity|]. now rewrite Hkeys. }
  destruct (apply_column_mapping df (dummy_mapping df)) as [cs rs].
  destruct df as [cs' rs']. simpl in *. congruence.
Qed.

End MappingFacts.

(** ** The additional properties on the sample surveys *)

Module ExtraWitnesses.
Import Splitter Engine Summary Mapping Spec Spec2 Spec3 Examples.
Import RoundingFacts EngineFacts EngineWitnesses EngineExtra SplitterExtra
       SummaryFacts MappingFacts.

Section Exact.

#[local] Existing Instance exact_arithmetic.

Lemma sample_returns_exactly :
  exists h' res,
    compare_defects 0 1 (Some 2015) (Some 2020) (Fin (1 # 100)) store
      = (h', inr res).
Proof.
  apply (compare_defects_returns store 0 1 old_survey new_survey);
    [exact store_old | exact store_new | exact survey_columns_checked
    | apply survey_labels_unique | by_evaluation | by_evaluation].
Qed.

Lemma percentages_add_up_witness :
  exists h' res (a b : Q),
    compare_defects 0 1 (Some 2015) (Some 2020) (Fin (1 # 100)) store
      = (h', inr res) /\
    pct_common res = PyFloat (Fin a) /\ pct_new res = PyFloat (Fin b) /\
    (a + b == 100)%Q /\ (0 <= a)%Q /\ (0 <= b)%Q.
Proof.
  destruct sample_returns_exactly as (h' & res & Hrun).
  destruct (percentages_add_up store h' 0 1 old_survey new_survey
              (Some 2015) (Some 2020) (Fin (1 # 100)) res store_old store_new
              Hrun) as [_ H].
  destruct H as (a & b & H); [discriminate|].
  exists h', res, a, b. split; [exact Hrun | exact H].
Defined.

End Exact.

(** The other properties are shown on the sample surveys in the
    arithmetic of binary64. *)
#[local] Existing Instance binary64.

Lemma single_returns_rounded :
  exists h' res,
    compare_defects 0 1 (Some 2015) (Some 2017) (Fin (1 # 100)) single_store
      = (h', inr res).
Proof.
  apply (compare_defects_returns single_store 0 1 old_single new_single);
    [exact single_store_old | exact single_store_new | by_evaluation
    | apply survey_labels_unique | by_evaluation | by_evaluation].
Qed.

Lemma pair_store_old : pair_store !! 0%nat = Some old_single.
Proof. by_evaluation. Qed.

Lemma pair_store_new : pair_store !! 1%nat = Some new_pair.
Proof. by_evaluation. Qed.

Lemma empty_store_old : empty_store !! 0%nat = Some empty_survey.
Proof. by_evaluation. Qed.

Lemma empty_store_new : empty_store !! 1%nat = Some new_survey.
Proof. by_evaluation. Qed.

Lemma pair_returns :
  exists h' res,
    compare_defects 0 1 None None (Fin (1 # 100)) pair_store = (h', inr res).
Proof.
  apply (compare_defects_returns pair_store 0 1 old_single new_pair);
    [exact pair_store_old | exact pair_store_new | by_evaluation
    | apply survey_labels_unique | by_evaluation | by_evaluation].
Qed.

(** The second new defect of the pair is left without a match. *)
Lemma pair_ids (h' : gmap nat DataFrame) (res : Result) :
  compare_defects 0 1 None None (Fin (1 # 100)) pair_store = (h', inr res) ->
  new_defect_id <$> match_rows (matches_df res) = [0].
Proof.
  intros Hrun.
  assert (H : new_defect_id <$>
              matches_of (compare_defects 0 1 None None (Fin (1 # 100)) pair_store)
              = [0]) by by_evaluation.
  now rewrite Hrun in H.
Qed.

(** The one match of the single defect carries the depth fields. *)
Lemma single_match (h' : gmap nat DataFrame) (res : Result) :
  compare_defects 0 1 (Some 2015) (Some 2017) (Fin (1 # 100)) single_store
    = (h', inr res) ->
  exists m d, m ∈ match_rows (matches_df res) /\ depth_growth m = Some d.
Proof.
  intros Hrun.
  assert (H : exists m d,
             matches_of (compare_defects 0 1 (Some 2015) (Some 2017)
                                          (Fin (1 # 100)) single_store) = [m] /\
             depth_growth m = Some d).
  { vm_compute. eexists. eexists. split; reflexivity. }
  destruct H as (m & d & H & Hd). rewrite Hrun in H.
  exists m, d. split; [|exact Hd].
  change (m ∈ matches_of (h', inr res)). rewrite H. left.
Qed.

Lemma sample_match (h' : gmap nat DataFrame) (res : Result) :
  compare_defects 0 1 (Some 2015) (Some 2020) (Fin (1 # 100)) store
    = (h', inr res) ->
  exists m, m ∈ match_rows (matches_df res).
Proof.
  intros Hrun.
  assert (H : exists m ms,
             matches_of (compare_defects 0 1 (Some 2015) (Some 2020)
                                          (Fin (1 # 100)) store) = m :: ms).
  { vm_compute. eexists. eexists. reflexivity. }
  destruct H as (m & ms & H). rewrite Hrun in H.
  exists m. change (m ∈ matches_of (h', inr res)). rewrite H. left.
Qed.

Lemma sample_stats (h' : gmap nat DataFrame) (res : Result) :
  compare_defects 0 1 (Some 2015) (Some 2020) (Fin (1 # 100)) store
    = (h', inr res) ->
  exists gs, growth_stats left_sum res = Some gs.
Proof.
  intros Hrun.
  assert (H : exists gs,
             stats_of (compare_defects 0 1 (Some 2015) (Some 2020)
                                        (Fin (1 # 100)) store) = Some gs).
  { vm_compute. eexists. reflexivity. }
  destruct H as (gs & H). rewrite Hrun in H. now exists gs.
Qed.

Lemma matches_within_tolerance_witness :
  exists h' res m,
    compare_defects 0 1 (Some 2015) (Some 2020) (Fin (1 # 100)) store
      = (h', inr res) /\
    m ∈ match_rows (matches_df res) /\
    exists (i j : nat) (lo ln : Z) (o n : row),
      rows old_survey !! i = Some (lo, o) /\ rows new_survey !! j = Some (ln, n) /\
      old_defect_id m = Z.of_nat i /\ new_defect_id m = Z.of_nat j /\
      old_log_dist m = log_distance o /\ log_dist m = log_distance n /\
      distance_diff m = fabs (fsub (old_log_dist m) (log_dist m)) /\
      fle (distance_diff m) (Fin (1 # 100)) = true /\
      defect_type m = cell n "component / anomaly identification".
Proof.
  destruct sample_returns as (h' & res & Hrun).
  destruct (sample_match h' res Hrun) as (m & Hm).
  exists h', res, m. split; [exact Hrun|]. split; [exact Hm|].
  exact (matches_within_tolerance store h' 0 1 old_survey new_survey
           (Some 2015) (Some 2020) (Fin (1 # 100)) res m store_old store_new
           Hrun Hm).
Defined.

Lemma unmatched_has_no_free_neighbour_witness :
  exists h' res m,
    compare_defects 0 1 None None (Fin (1 # 100)) pair_store = (h', inr res) /\
    m ∈ match_rows (matches_df res) /\
    old_defect_id m = 0 /\ new_defect_id m < 1.
Proof.
  destruct pair_returns as (h' & res & Hrun).
  destruct (unmatched_has_no_free_neighbour pair_store h' 0 1 old_single
              new_pair None None (Fin (1 # 100)) res 0 1 0 1
              (defect 10 20 10) (defect (10005 # 1000) 30 10)
              pair_store_old pair_store_new Hrun eq_refl eq_refl)
    as (m & Hm & Hold & Hnew).
  - by_evaluation.
  - rewrite (pair_ids h' res Hrun). intros Hin.
    apply list_elem_of_singleton in Hin. discriminate.
  - exists h', res, m. auto.
Defined.

Lemma new_defects_are_the_unmatched_witness :
  exists h' res,
    compare_defects 0 1 (Some 2015) (Some 2020) (Fin (1 # 100)) store
      = (h', inr res) /\
    columns (new_defects res) = columns (with_ids new_survey) /\
    rows (new_defects res) `sublist_of` rows (with_ids new_survey) /\
    forall (l : Z) (r' : row),
      (l, r') ∈ rows (new_defects res) <->
      exists (j : nat) (r : row),
        rows new_survey !! j = Some (l, r) /\ r' = with_id j r /\
        Z.of_nat j ∉ new_defect_id <$> match_rows (matches_df res).
Proof.
  destruct sample_returns as (h' & res & Hrun). exists h', res.
  split; [exact Hrun|].
  exact (new_defects_are_the_unmatched store h' 0 1 old_survey new_survey
           (Some 2015) (Some 2020) (Fin (1 # 100)) res store_old store_new Hrun).
Defined.

Lemma unusable_tolerance_matches_nothing_witness :
  exists h' res,
    compare_defects 0 1 (Some 2015) (Some 2020) (Fin (-1)) store
      = (h', inr res) /\
    match_rows (matches_df res) = [] /\
    common_defects_count res = 0%nat /\
    new_defects_count res = length (rows new_survey) /\
    total_defects res = length (rows new_survey) /\
    rows (new_defects res) = rows (with_ids new_survey).
Proof.
  apply (unusable_tolerance_matches_nothing store 0 1 old_survey new_survey
           (Some 2015) (Some 2020) (Fin (-1)) store_old store_new
           survey_columns_checked); [by_evaluation | by_evaluation|].
  right. exists (-1)%Q. split; reflexivity.
Defined.

Lemma empty_tables_witness :
  exists h' res,
    compare_defects 0 1 (Some 2015) (Some 2020) (Fin (1 # 100)) empty_store
      = (h', inr res) /\
    match_rows (matches_df res) = [] /\
    common_defects_count res = 0%nat /\
    new_defects_count res = length (rows new_survey) /\
    total_defects res = length (rows new_survey) /\
    rows (new_defects res) = rows (with_ids new_survey).
Proof.
  apply (empty_tables empty_store 0 1 empty_survey new_survey
           (Some 2015) (Some 2020) (Fin (1 # 100)) empty_store_old
           empty_store_new).
  - by_evaluation.
  - left. split; [reflexivity|]. intros lr Hlr.
    apply (numeric_cells_row new_survey lr); [by_evaluation | exact Hlr | left].
Defined.

Lemma flags_tell_the_fields_witness :
  exists h' res,
    compare_defects 0 1 (Some 2015) (Some 2020) (Fin (1 # 100)) store
      = (h', inr res) /\
    (calculate_growth res = true <->
     exists a b, Some 2015 = Some a /\ Some 2020 = Some b /\ a < b) /\
    (forall m, m ∈ match_rows (matches_df res) ->
       (is_Some (depth_growth m) <->
        calculate_growth res && has_depth_data res = true) /\
       (is_Some (mm_growth m) <->
        calculate_growth res && has_depth_data res && has_wt_data res = true)).
Proof.
  destruct sample_returns as (h' & res & Hrun). exists h', res.
  split; [exact Hrun|].
  destruct (flags_tell_the_fields store h' 0 1 old_survey new_survey
              (Some 2015) (Some 2020) (Fin (1 # 100)) res store_old store_new
              Hrun) as (Hcg & _ & _ & Hm & _).
  split; [exact Hcg | exact Hm].
Defined.

Lemma depth_fields_of_a_match_witness :
  exists h' res m d,
    compare_defects 0 1 (Some 2015) (Some 2017) (Fin (1 # 100)) single_store
      = (h', inr res) /\
    m ∈ match_rows (matches_df res) /\ depth_growth m = Some d /\
    exists (i j : nat) (lo ln : Z) (o n : row) (a b : Z),
      rows old_single !! i = Some (lo, o) /\ rows new_single !! j = Some (ln, n) /\
      old_defect_id m = Z.of_nat i /\ new_defect_id m = Z.of_nat j /\
      Some 2015 = Some a /\ Some 2017 = Some b /\ a < b /\
      old_depth_pct d = as_float (cell o "depth [%]") /\
      new_depth_pct d = as_float (cell n "depth [%]") /\
      depth_change_pct d = fsub (new_depth_pct d) (old_depth_pct d) /\
      growth_rate_pct_per_year d = fdiv (depth_change_pct d) (of_Z (b - a)) /\
      (is_negative_growth d = true <->
       exists c, depth_change_pct d = Fin c /\ (c < 0)%Q).
Proof.
  destruct single_returns_rounded as (h' & res & Hrun).
  destruct (single_match h' res Hrun) as (m & d & Hm & Hd).
  exists h', res, m, d. split; [exact Hrun|]. split; [exact Hm|].
  split; [exact Hd|].
  exact (depth_fields_of_a_match single_store h' 0 1 old_single new_single
           (Some 2015) (Some 2017) (Fin (1 # 100)) res m d single_store_old
           single_store_new Hrun Hm Hd).
Defined.

Lemma growth_stats_counts_witness :
  exists h' res gs p,
    compare_defects 0 1 (Some 2015) (Some 2020) (Fin (1 # 100)) store
      = (h', inr res) /\
    growth_stats left_sum res = Some gs /\
    total_matched_defects gs = common_defects_count res /\
    (negative_growth_count gs
     + length (filter (fun m => negative m = false)
                      (match_rows (matches_df res)))
     = total_matched_defects gs)%nat /\
    pct_negative_growth gs = PyFloat (Fin p) /\ (0 <= p <= 100)%Q.
Proof.
  destruct sample_returns as (h' & res & Hrun).
  destruct (sample_stats h' res Hrun) as (gs & Hgs).
  pose proof (growth_stats_counts (F := binary64_faithful) left_sum store h'
                0 1 old_survey new_survey (Some 2015) (Some 2020)
                (Fin (1 # 100)) res store_old store_new Hrun) as H.
  rewrite Hgs in H.
  destruct H as (_ & _ & Ht & _ & _ & Hsum & (p & Hp & _ & Hb & _) & _).
  exists h', res, gs, p. split; [exact Hrun|]. split; [exact Hgs|].
  split; [exact Ht|]. split; [exact Hsum|]. split; [exact Hp | exact Hb].
Defined.

Lemma positive_growth_statistics_witness :
  exists h' res gs,
    compare_defects 0 1 (Some 2015) (Some 2020) (Fin (1 # 100)) store
      = (h', inr res) /\
    growth_stats left_sum res = Some gs /\
    let positive :=
      filter (fun m => negative m = false) (match_rows (matches_df res)) in
    match max_growth_rate (pct_stats gs),
          avg_positive_growth_rate (pct_stats gs) with
    | PyInt 0, PyInt 0 => positive = []
    | PyFloat NaN, PyFloat NaN =>
        positive <> [] /\ forall m, m ∈ positive -> rate_pct m = NaN
    | PyFloat (Fin mx), PyFloat (Fin av) =>
        (0 <= av)%Q /\
        (av == rnd (left_sum (numbers (rate_pct <$> positive))
                    / inject_Z (Z.of_nat (length (numbers (rate_pct <$> positive))))))%Q /\
        (exists m, m ∈ positive /\ rate_pct m = Fin mx) /\
        forall m r, m ∈ positive -> rate_pct m = Fin r -> (0 <= r <= mx)%Q
    | _, _ => False
    end.
Proof.
  destruct sample_returns as (h' & res & Hrun).
  destruct (sample_stats h' res Hrun) as (gs & Hgs).
  exists h', res, gs. split; [exact Hrun|]. split; [exact Hgs|].
  exact (positive_growth_statistics (F := binary64_faithful) left_sum
           (left_sum_nonneg (F := binary64_faithful)) store h' 0 1 old_survey
           new_survey (Some 2015) (Some 2020) (Fin (1 # 100)) res gs store_old
           store_new Hrun Hgs).
Defined.

Lemma matches_are_in_the_view_witness :
  exists h' res m view r,
    compare_defects 0 1 (Some 2015) (Some 2020) (Fin (1 # 100)) store
      = (h', inr res) /\
    m ∈ match_rows (matches_df res) /\
    create_matching_debug_view old_survey new_survey (Fin (1 # 100))
      = inr view /\ r ∈ view /\
    new_dist r = log_dist m /\ old_dist r = old_log_dist m /\
    debug_defect_type r = defect_type m /\
    same (debug_distance_diff r) (distance_diff m) /\
    would_match r = true.
Proof.
  destruct sample_returns as (h' & res & Hrun).
  destruct (sample_match h' res Hrun) as (m & Hm).
  destruct (matches_are_in_the_view (F := binary64_faithful) store h' 0 1
              old_survey new_survey
              (Some 2015) (Some 2020) (Fin (1 # 100)) res m store_old store_new
              Hrun Hm) as (view & r & H).
  exists h', res, m, view, r. split; [exact Hrun|]. split; [exact Hm | exact H].
Defined.

Lemma swap_mapping_keys : NoDup swap_mapping.*1.
Proof.
  unfold swap_mapping. cbn [fmap list_fmap fst].
  apply NoDup_cons. split; [|apply NoDup_singleton].
  intros Hin. apply list_elem_of_singleton in Hin. discriminate.
Qed.

Lemma renamed_table_witness :
  length (rows (apply_column_mapping old_single swap_mapping))
  = length (rows old_single) /\
  (forall c, c ∈ columns (apply_column_mapping old_single swap_mapping) <->
             c ∈ columns old_single \/
             exists f, (c, Some f) ∈ swap_mapping /\ f ∈ columns old_single) /\
  forall k l r, rows old_single !! k = Some (l, r) ->
    exists r', rows (apply_column_mapping old_single swap_mapping) !! k
               = Some (l, r') /\
               forall c, r' !! c = renamed_value old_single swap_mapping r r c.
Proof. exact (renamed_table old_single swap_mapping swap_mapping_keys). Defined.

Lemma full_mapping_files (c f : string) :
  get full_mapping c = Some (Some f) -> f ∈ columns raw_survey.
Proof.
  unfold get. intros H. apply elem_of_list_to_map_2 in H.
  unfold full_mapping in H. unfold raw_survey. cbn [columns].
  repeat (apply elem_of_cons in H as [[= _ ->] | H]; [in_list|]).
  now apply elem_of_nil in H.
Qed.

Lemma renamed_survey_sortable :
  ~ unsortable (apply_column_mapping raw_survey full_mapping).
Proof. apply no_text_sortable. by_evaluation. Qed.

Lemma complete_mapping_is_split_witness :
  exists joints defects,
    process_pipeline_data parse_integer insertion_sort
      (apply_column_mapping raw_survey full_mapping)
    = inr (joints, defects).
Proof.
  destruct (complete_mapping_is_split parse_integer insertion_sort raw_survey
              full_mapping) as (_ & _ & Hsplit).
  - by_evaluation.
  - exact full_mapping_files.
  - exact (Hsplit renamed_survey_sortable).
Defined.

Lemma old_single_columns : NoDup (columns old_single).
Proof.
  unfold old_single, survey, survey_columns. cbn [columns].
  repeat (apply NoDup_cons; split;
          [intros Hin;
           repeat (apply elem_of_cons in Hin as [Hin | Hin]; [discriminate|]);
           now apply elem_of_nil in Hin|]).
  apply NoDup_nil_2.
Qed.

Lemma old_single_complete : complete old_single.
Proof.
  intros lr c Hlr Hc.
  apply list_elem_of_singleton in Hlr as ->.
  unfold old_single, survey, survey_columns in Hc. cbn [columns] in Hc.
  apply not_eq_None_Some.
  repeat (apply elem_of_cons in Hc as [-> | Hc]; [vm_compute; discriminate|]).
  now apply elem_of_nil in Hc.
Qed.

Lemma dummy_mapping_changes_nothing_witness :
  apply_column_mapping old_single (dummy_mapping old_single) = old_single.
Proof.
  exact (dummy_mapping_changes_nothing old_single old_single_columns
           old_single_complete).
Defined.

End ExtraWitnesses.
